(** * Resume-Analyzer: the fact extractor, the model selector and the result coercer

    A shallow embedding of [src/utils/resume_parser.py] (class [ResumeParser]),
    [src/utils/analyzer.py] (class [ResumeAnalyzer]) and
    [src/utils/visualizations.py], with the properties the specification
    states about them.

    Modelling conventions.
    - A Python [str] is the sequence of its code points: the record [ustr]
      over [list N].  A text between double quotes denotes the [str] of its
      characters, which are ASCII characters; [chars] gives the code points
      of a [str] and [str] makes one of them.
    - What the interpreter brings and the source does not say is a
      parameter, the class [Python]: the tables of the Unicode database
      behind [\w], [\d], [\s], [\b], [str.split] and [str.lower] for the
      code points above 127, the limit on the digits of an [int] read from a
      text, and the depth of recursion left to [json.loads].  The ASCII part
      of every character class is written out.
    - A Python [int] is a [Z].
    - [re] is embedded as a backtracking matcher over a small syntax of
      regular expressions ([regex]); each pattern of the source is the
      syntax tree its pattern string denotes.
    - [json.loads] is embedded as a recursive-descent parser over the JSON
      grammar CPython accepts; a raised exception is [None].
    - [list(set(l))] is [elements (list_to_set l)] over stdpp's [gset]: a
      duplicate-free list in an order the program does not control.
    - The completion backend (LangChain's [ChatGroq.invoke]) and the binary
      document readers are parameters of the sections that use them; the
      constructor of [ChatGroq] raises when it is given no API key. *)

From Stdlib Require Import String Ascii List ZArith Lia Bool.
From stdpp Require Import gmap strings.
Import ListNotations.

Set Default Proof Using "Type".
Set Warnings "-register-all".

(** ** Python [str] *)

(** A [str]: its code points. *)
Record ustr : Type := str { chars : list N }.

(** The notation for literals: ["..."] is the [str] of the ASCII characters
    between the quotes, and ["c"%uchar] the code point of the ASCII
    character [c]. *)
Definition ascii_byte (b : Byte.byte) : option N :=
  let n := Byte.to_N b in if (n <? 128)%N then Some n else None.

Fixpoint ascii_bytes (l : list Byte.byte) : option (list N) :=
  match l with
  | [] => Some []
  | b :: l' =>
      match ascii_byte b, ascii_bytes l' with
      | Some n, Some r => Some (n :: r)
      | _, _ => None
      end
  end.

Definition ustr_parse (l : list Byte.byte) : option ustr :=
  match ascii_bytes l with
  | Some r => Some (str r)
  | None => None
  end.

Definition byte_of_code (n : N) : option Byte.byte :=
  if (n <? 128)%N then Byte.of_N n else None.

Fixpoint bytes_of_codes (l : list N) : option (list Byte.byte) :=
  match l with
  | [] => Some []
  | n :: l' =>
      match byte_of_code n, bytes_of_codes l' with
      | Some b, Some r => Some (b :: r)
      | _, _ => None
      end
  end.

Definition ustr_print (s : ustr) : option (list Byte.byte) :=
  bytes_of_codes (chars s).

Definition uchar_parse (l : list Byte.byte) : option N :=
  match l with
  | [b] => ascii_byte b
  | _ => None
  end.

Definition uchar_print (n : N) : option (list Byte.byte) :=
  match byte_of_code n with
  | Some b => Some [b]
  | None => None
  end.

Declare Scope ustr_scope.
Delimit Scope ustr_scope with ustr.
Bind Scope ustr_scope with ustr.
String Notation ustr ustr_parse ustr_print : ustr_scope.

Declare Scope uchar_scope.
Delimit Scope uchar_scope with uchar.
String Notation N uchar_parse uchar_print : uchar_scope.

(** A character: its code point. *)
Abbreviation char := N (only parsing).

Open Scope ustr_scope.
Open Scope list_scope.
Open Scope nat_scope.

#[global] Instance ustr_eq_dec : EqDecision ustr.
Proof. solve_decision. Defined.

#[global] Instance ustr_countable : Countable ustr :=
  inj_countable' chars str (fun s => match s with str l => eq_refl end).

(** [a + b] on strings *)
Definition cat (a b : ustr) : ustr := str (chars a ++ chars b).

Infix "+:+" := cat (at level 60, right associativity) : ustr_scope.

(** [a == b] on strings *)
Definition ustr_eqb (a b : ustr) : bool := bool_decide (a = b).

(** [len(s)] *)
Definition len (s : ustr) : Z := Z.of_nat (length (chars s)).

Definition char_eqb (a b : char) : bool := N.eqb a b.
Arguments char_eqb (a b)%_uchar_scope.

Definition in_range (lo hi : N) (c : char) : bool :=
  (lo <=? c)%N && (c <=? hi)%N.

(** [A-Z], [a-z], [A-Za-z] and [0-9] *)
Definition is_upper (c : char) : bool := in_range 65 90 c.
Definition is_lower (c : char) : bool := in_range 97 122 c.
Definition is_alpha (c : char) : bool := is_upper c || is_lower c.
Definition is_digit (c : char) : bool := in_range 48 57 c.

(** A character of the ASCII range. *)
Definition is_ascii (c : char) : bool := (c <? 128)%N.

(** The lower-casing of an ASCII character. *)
Definition lower_char (c : char) : char :=
  if is_upper c then (c + 32)%N else c.

(** [s.lower()] lower-cases character by character: an ASCII character
    gives one character, a character above 127 what the table [wide] gives
    for it, where it stands (the capital sigma depends on its neighbours,
    and one character can give two).  [s] is the whole text, [i] the index
    of the first character of [l]. *)
Fixpoint lower_from (wide : list N -> nat -> N -> list N)
    (s : list N) (i : nat) (l : list N) : list N :=
  match l with
  | [] => []
  | c :: l' =>
      (if is_ascii c then [lower_char c] else wide s i c)
      ++ lower_from wide s (S i) l'
  end.

Definition lower_with (wide : list N -> nat -> N -> list N) (s : list N)
  : list N :=
  lower_from wide s 0 s.

(** ** The interpreter *)

(** What the program takes from the interpreter it runs on.
    - [wide_alnum c], [wide_space c], [wide_decimal c]: [c.isalnum()],
      [c.isspace()] and [c.isdecimal()] for a code point [c] above 127, the
      tests behind [\w], [\s] and [str.split()], and [\d].
    - [wide_lower s i c]: what [s.lower()] puts for the character [c] above
      127 at index [i] of [s].
    - [int_max_str_digits]: [sys.get_int_max_str_digits()], 0 for no limit.
    - [recursion_left]: how many containers [json.loads] can enter, one
      inside the other, before the interpreter raises [RecursionError].
    The four facts are facts of the Unicode database: no decimal digit is
    whitespace, no lower-casing gives a backslash, a lower-cased text is its
    own lower-casing, and a newline keeps the lower-casing of what is
    before it apart from what is after it. *)
Class Python : Type := {
  wide_alnum : N -> bool;
  wide_space : N -> bool;
  wide_decimal : N -> bool;
  wide_lower : list N -> nat -> N -> list N;
  int_max_str_digits : nat;
  recursion_left : nat;
  decimal_not_space :
    forall c, wide_decimal c = true -> wide_space c = false;
  lower_no_backslash :
    forall s i c, is_ascii c = false -> ~ In "\"%uchar (wide_lower s i c);
  lower_idempotent :
    forall s, lower_with wide_lower (lower_with wide_lower s)
              = lower_with wide_lower s;
  lower_newline :
    forall a b, lower_with wide_lower (a ++ 10%N :: b)
                = lower_with wide_lower a ++ 10%N :: lower_with wide_lower b
}.

Section Program.
Context {py : Python}.

(** [c.isalnum()] *)
Definition is_alnum (c : char) : bool :=
  if is_ascii c then is_alpha c || is_digit c else wide_alnum c.

(** [\w]: the alphanumeric characters and the underscore *)
Definition is_word (c : char) : bool := is_alnum c || (c =? 95)%N.

(** [\s] and the separators of [str.split()]: in the ASCII range tab,
    newline, vertical tab, form feed, carriage return, the four separators
    28..31 and the space *)
Definition is_space (c : char) : bool :=
  if is_ascii c then in_range 9 13 c || in_range 28 32 c else wide_space c.

(** [\d]: the decimal digits *)
Definition is_decimal (c : char) : bool :=
  if is_ascii c then is_digit c else wide_decimal c.

(** [s.lower()] *)
Definition lower (s : ustr) : ustr := str (lower_with wide_lower (chars s)).

(** [needle in hay] on strings: [needle] is a contiguous part of [hay]. *)
Fixpoint starts_with (needle hay : list char) : bool :=
  match needle, hay with
  | [], _ => true
  | _ :: _, [] => false
  | a :: n', b :: h' => char_eqb a b && starts_with n' h'
  end.

Fixpoint contains_chars (needle hay : list char) : bool :=
  starts_with needle hay ||
  match hay with
  | [] => false
  | _ :: h' => contains_chars needle h'
  end.

Definition contains (needle hay : ustr) : bool :=
  contains_chars (chars needle) (chars hay).

(** [s.find(c)] for a one-character [c]: the lowest index, or -1. *)
Fixpoint find_from (c : char) (l : list char) (i : Z) : Z :=
  match l with
  | [] => (-1)%Z
  | a :: l' => if char_eqb a c then i else find_from c l' (i + 1)%Z
  end.
#[global] Arguments find_from c%_uchar_scope l%_list_scope i%_Z_scope.

Definition find (c : char) (s : ustr) : Z := find_from c (chars s) 0%Z.
#[global] Arguments find c%_uchar_scope s%_ustr_scope.

(** [s.rfind(c)] for a one-character [c]: the highest index, or -1. *)
Fixpoint rfind_from (c : char) (l : list char) (i : Z) : Z :=
  match l with
  | [] => (-1)%Z
  | a :: l' =>
      let r := rfind_from c l' (i + 1)%Z in
      if (0 <=? r)%Z then r else if char_eqb a c then i else (-1)%Z
  end.
#[global] Arguments rfind_from c%_uchar_scope l%_list_scope i%_Z_scope.

Definition rfind (c : char) (s : ustr) : Z := rfind_from c (chars s) 0%Z.
#[global] Arguments rfind c%_uchar_scope s%_ustr_scope.

(** A slice bound as Python normalises it: a negative bound counts from the
    end, and the result is clipped to [0, len]. *)
Definition clip (n l : Z) : Z :=
  if (n <? 0)%Z then Z.max 0 (n + l) else Z.min n l.

(** [s[a:b]] *)
Definition slice (s : ustr) (a b : Z) : ustr :=
  let a' := clip a (len s) in
  let b' := clip b (len s) in
  str (firstn (Z.to_nat (b' - a')) (skipn (Z.to_nat a') (chars s))).

(** [s.split(sep)] for a one-character separator: never empty. *)
Fixpoint split_on (sep : char) (l : list char) : list (list char) :=
  match l with
  | [] => [[]]
  | a :: l' =>
      if char_eqb a sep then [] :: split_on sep l'
      else match split_on sep l' with
           | [] => [[a]]
           | w :: ws => (a :: w) :: ws
           end
  end.
#[global] Arguments split_on sep%_uchar_scope l%_list_scope.

Definition split (sep : char) (s : ustr) : list ustr :=
  map str (split_on sep (chars s)).
#[global] Arguments split sep%_uchar_scope s%_ustr_scope.

(** [s.split()]: the maximal runs of characters that are not whitespace.
    [cur] is the run being read, in reverse. *)
Fixpoint split_ws_from (l : list char) (cur : list char) : list (list char) :=
  match l with
  | [] => match cur with [] => [] | _ => [rev cur] end
  | a :: l' =>
      if is_space a
      then match cur with
           | [] => split_ws_from l' []
           | _ => rev cur :: split_ws_from l' []
           end
      else split_ws_from l' (a :: cur)
  end.

Definition split_ws (s : ustr) : list ustr :=
  map str (split_ws_from (chars s) []).

(** ** Regular expressions: syntax *)

Inductive regex : Type :=
| Eps : regex                          (* the empty pattern *)
| Class : (char -> bool) -> regex     (* one character of a class *)
| Seq : regex -> regex -> regex        (* r1 r2 *)
| Alt : regex -> regex -> regex        (* r1|r2, r1 tried first *)
| Star : regex -> regex                (* r*, greedy *)
| WordB : regex                        (* \b *)
| Group : nat -> regex -> regex.       (* (r), the n-th capturing group *)

(** r+ *)
Definition Plus (r : regex) : regex := Seq r (Star r).
(** r? (greedy: r is tried before the empty match) *)
Definition Opt (r : regex) : regex := Alt r Eps.
(** r{n} *)
Fixpoint Rep (n : nat) (r : regex) : regex :=
  match n with
  | O => Eps
  | S n' => Seq r (Rep n' r)
  end.
(** r{n,} *)
Definition AtLeast (n : nat) (r : regex) : regex := Seq (Rep n r) (Star r).
(** a literal character *)
Definition Chr (c : char) : regex := Class (char_eqb c).
#[global] Arguments Chr c%_uchar_scope.
(** a literal string *)
Fixpoint Lit (l : list char) : regex :=
  match l with
  | [] => Eps
  | c :: l' => Seq (Chr c) (Lit l')
  end.

(** ** Regular expressions: the backtracking matcher *)

(** The groups closed so far, most recent first: (number, (start, end)). *)
Definition caps : Type := list (nat * (nat * nat)).

Definition is_word_at (s : list char) (i : nat) : bool :=
  match nth_error s i with
  | Some c => is_word c
  | None => false
  end.

(** [\b] holds at [i] when exactly one of the characters before and at [i]
    is a word character; outside the text there is none. *)
Definition boundary (s : list char) (i : nat) : bool :=
  xorb (match i with O => false | S p => is_word_at s p end) (is_word_at s i).

Section Matcher.
Variable s : list char.
Variable R : Type.

(** [mtch r i c k]: match [r] at position [i] with the groups [c], then
    run the rest of the match [k]; the first alternative that lets [k]
    succeed wins.  An iteration of a star that consumes nothing is
    refused, so that [length s - i] iterations are enough. *)
Fixpoint mtch (r : regex) (i : nat) (c : caps)
    (k : nat -> caps -> option R) {struct r} : option R :=
  match r with
  | Eps => k i c
  | Class p =>
      match nth_error s i with
      | Some a => if p a then k (S i) c else None
      | None => None
      end
  | Seq r1 r2 => mtch r1 i c (fun j c' => mtch r2 j c' k)
  | Alt r1 r2 =>
      match mtch r1 i c k with
      | Some x => Some x
      | None => mtch r2 i c k
      end
  | Star r1 =>
      (fix loop (fuel : nat) (i : nat) (c : caps) {struct fuel} : option R :=
         match fuel with
         | O => k i c
         | S fuel' =>
             match mtch r1 i c
                     (fun j c' => if i <? j then loop fuel' j c' else None) with
             | Some x => Some x
             | None => k i c
             end
         end) (length s - i) i c
  | WordB => if boundary s i then k i c else None
  | Group n r1 => mtch r1 i c (fun j c' => k j ((n, (i, j)) :: c'))
  end.
End Matcher.

#[global] Arguments mtch s {R} r i c k.

(** One match attempt at [i]: the end of the match and its groups. *)
Definition match_at (r : regex) (s : list char) (i : nat) : option (nat * caps) :=
  mtch s r i [] (fun j c => Some (j, c)).

(** The scan of [re.search]: the first start position, from [i] on and
    among the next [n] ones, where an attempt succeeds. *)
Fixpoint scan (r : regex) (s : list char) (n : nat) (i : nat)
  : option (nat * nat * caps) :=
  match match_at r s i with
  | Some (j, c) => Some (i, j, c)
  | None =>
      match n with
      | O => None
      | S n' => scan r s n' (S i)
      end
  end.

(** [re.search(r, s)] from position [i]. *)
Definition search_from (r : regex) (s : list char) (i : nat)
  : option (nat * nat * caps) :=
  scan r s (length s - i) i.

(** The text between two positions. *)
Definition between (s : list char) (i j : nat) : list char :=
  firstn (j - i) (skipn i s).

(** The text of group [n], empty when the group did not take part. *)
Fixpoint group_span (n : nat) (c : caps) : option (nat * nat) :=
  match c with
  | [] => None
  | (m, ij) :: c' => if n =? m then Some ij else group_span n c'
  end.

(** What [re.findall] reports for a match: the whole match for a pattern
    without group, the text of group 1 for a pattern with one group. *)
Definition reported (groups : bool) (s : list char) (m : nat * nat * caps)
  : list char :=
  let '(i, j, c) := m in
  if groups
  then match group_span 1 c with
       | Some (a, b) => between s a b
       | None => []
       end
  else between s i j.

(** [re.findall]: the matches from left to right, without overlap.  (After
    an empty match the scan resumes one character further; the patterns of
    the extractor have no empty match.) *)
Fixpoint findall_from (fuel : nat) (groups : bool) (r : regex)
    (s : list char) (i : nat) : list (list char) :=
  match fuel with
  | O => []
  | S fuel' =>
      if length s <? i then []
      else
        match search_from r s i with
        | None => []
        | Some (a, b, c) =>
            reported groups s (a, b, c)
            :: findall_from fuel' groups r s (if a <? b then b else S b)
        end
  end.

Definition findall (groups : bool) (r : regex) (s : ustr) : list ustr :=
  map str (findall_from (S (length (chars s))) groups r (chars s) 0).

(** [re.search(r, s)] as a truth value. *)
Definition search (r : regex) (s : ustr) : bool :=
  match search_from r (chars s) 0 with
  | Some _ => true
  | None => false
  end.

(** ** JSON values and [json.loads] *)

(** What [json.loads] builds: [None], [bool], [int], [float], [str], [list]
    and [dict].  A float is kept as the text handed to [float()]; a [dict] is
    the list of its items in insertion order, its keys distinct. *)
Inductive json : Type :=
| JNull : json
| JBool : bool -> json
| JInt : Z -> json
| JFloat : ustr -> json
| JStr : ustr -> json
| JArr : list json -> json
| JObj : list (ustr * json) -> json.

Definition dquote : char := 34%N.
Definition backslash : char := 92%N.

(** [d[k] = v] on a dict: a present key keeps its place. *)
Fixpoint dict_set (d : list (ustr * json)) (k : ustr) (v : json)
  : list (ustr * json) :=
  match d with
  | [] => [(k, v)]
  | (k', v') :: d' =>
      if ustr_eqb k' k then (k', v) :: d' else (k', v') :: dict_set d' k v
  end.

(** [dict(pairs)] *)
Definition dict_of_pairs (pairs : list (ustr * json)) : list (ustr * json) :=
  fold_left (fun d kv => dict_set d (fst kv) (snd kv)) pairs [].

(** The whitespace of the JSON decoder: space, tab, newline, carriage return. *)
Definition is_json_ws (c : char) : bool :=
  (c =? 32)%N || (c =? 9)%N || (c =? 10)%N || (c =? 13)%N.

Fixpoint skip_ws (l : list char) : list char :=
  match l with
  | c :: l' => if is_json_ws c then skip_ws l' else l
  | [] => []
  end.

Definition hex_val (c : char) : option N :=
  if is_digit c then Some (c - 48)%N
  else if in_range 97 102 c then Some (c - 87)%N
  else if in_range 65 70 c then Some (c - 55)%N
  else None.

(** The four hexadecimal digits of a [\uXXXX] escape. *)
Definition hex4 (a b c d : char) : option N :=
  match hex_val a, hex_val b, hex_val c, hex_val d with
  | Some x, Some y, Some z, Some w => Some (((x * 16 + y) * 16 + z) * 16 + w)%N
  | _, _, _, _ => None
  end.

(** The one-character escapes of a JSON string. *)
Definition unescaped (e : char) : option N :=
  if char_eqb e dquote then Some 34%N
  else if char_eqb e backslash then Some 92%N
  else if char_eqb e "/" then Some 47%N
  else if char_eqb e "b" then Some 8%N
  else if char_eqb e "f" then Some 12%N
  else if char_eqb e "n" then Some 10%N
  else if char_eqb e "r" then Some 13%N
  else if char_eqb e "t" then Some 9%N
  else None.

Definition is_high_surrogate (n : N) : bool := (55296 <=? n)%N && (n <=? 56319)%N.
Definition is_low_surrogate (n : N) : bool := (56320 <=? n)%N && (n <=? 57343)%N.
Definition join_surrogates (hi lo : N) : N :=
  (65536 + N.lor (N.shiftl (hi - 55296) 10) (lo - 56320))%N.

Definition push (c : N) (r : option (list N * list char))
  : option (list N * list char) :=
  match r with
  | Some (w, rest) => Some (c :: w, rest)
  | None => None
  end.

(** [scanstring], strict: the string whose opening quote has been read.
    A control character, an unknown escape, a malformed [\uXXXX] or a
    missing closing quote is an error. *)
Fixpoint scanstring (l : list char) : option (list N * list char) :=
  match l with
  | [] => None
  | c :: l1 =>
      if char_eqb c dquote then Some ([], l1)
      else if char_eqb c backslash then
        match l1 with
        | [] => None
        | e :: l2 =>
            if char_eqb e "u" then
              match l2 with
              | h1 :: h2 :: h3 :: h4 :: l3 =>
                  match hex4 h1 h2 h3 h4 with
                  | None => None
                  | Some uni =>
                      if is_high_surrogate uni then
                        match l3 with
                        | b :: v :: l4 =>
                            if char_eqb b backslash && char_eqb v "u" then
                              match l4 with
                              | g1 :: g2 :: g3 :: g4 :: l5 =>
                                  match hex4 g1 g2 g3 g4 with
                                  | None => None
                                  | Some uni2 =>
                                      if is_low_surrogate uni2
                                      then push (join_surrogates uni uni2) (scanstring l5)
                                      else push uni (scanstring l3)
                                  end
                              | _ => None
                              end
                            else push uni (scanstring l3)
                        | _ => push uni (scanstring l3)
                        end
                      else push uni (scanstring l3)
                  end
              | _ => None
              end
            else
              match unescaped e with
              | Some ch => push ch (scanstring l2)
              | None => None
              end
        end
      else if (c <? 32)%N then None
      else push c (scanstring l1)
  end.

(** The longest prefix of characters of a class, and what follows it. *)
Fixpoint span (p : char -> bool) (l : list char) : list char * list char :=
  match l with
  | c :: l' =>
      if p c then let (a, b) := span p l' in (c :: a, b) else ([], l)
  | [] => ([], [])
  end.

(** [int(digits)] for a run of decimal digits. *)
Definition int_of_digits (ds : list char) : Z :=
  fold_left (fun n c => (n * 10 + Z.of_N (c - 48))%Z) ds 0%Z.

(** [int(digits)] raises [ValueError] for a run of more than 640 digits that
    is longer than the limit of the interpreter, when there is one. *)
Definition too_many_digits (ds : list char) : bool :=
  (640 <? length ds) && (0 <? int_max_str_digits)
  && (int_max_str_digits <? length ds).

(** The number at the head of the text, as the decoder's pattern reads it:
    an optional minus sign, then 0 or a run of digits that does not start
    with 0; then, each optional, a fraction (a dot and digits) and an
    exponent (e or E, an optional sign, digits). *)
Definition number_int (l : list char) : option (list char * list char) :=
  match l with
  | c :: l' =>
      if char_eqb c "0" then Some ([c], l')
      else if in_range 49 57 c
           then let (ds, r) := span is_digit l' in Some (c :: ds, r)
           else None
  | [] => None
  end.

Definition number_frac (l : list char) : list char * list char :=
  match l with
  | c :: l' =>
      if char_eqb c "."
      then let (fs, r) := span is_digit l' in
           match fs with
           | [] => ([], l)
           | _ :: _ => (c :: fs, r)
           end
      else ([], l)
  | [] => ([], l)
  end.

Definition number_exp (l : list char) : list char * list char :=
  match l with
  | c :: l' =>
      if char_eqb c "e" || char_eqb c "E"
      then
        let '(sign, l'') :=
          match l' with
          | g :: r =>
              if char_eqb g "-" || char_eqb g "+" then ([g], r) else ([], l')
          | [] => ([], l')
          end in
        let (es, r) := span is_digit l'' in
        match es with
        | [] => ([], l)
        | _ :: _ => (c :: sign ++ es, r)
        end
      else ([], l)
  | [] => ([], l)
  end.

Definition match_number (l : list char) : option (json * list char) :=
  let '(neg, l1) :=
    match l with
    | c :: l' => if char_eqb c "-" then (true, l') else (false, l)
    | [] => (false, l)
    end in
  match number_int l1 with
  | None => None
  | Some (ds, l2) =>
      let (frac, l3) := number_frac l2 in
      let (exp, l4) := number_exp l3 in
      match frac, exp with
      | [], [] =>
          if too_many_digits ds then None
          else Some (JInt (if neg then (- int_of_digits ds)%Z
                           else int_of_digits ds), l4)
      | _, _ =>
          Some (JFloat (str ((if neg then ["-"%uchar] else []) ++ ds ++ frac ++ exp)), l4)
      end
  end.

(** The values of [scan_once] that are neither strings nor containers:
    [null], [true], [false], a number, [NaN], [Infinity], [-Infinity]. *)
Definition scan_constant (l : list char) : option (json * list char) :=
  if starts_with (chars "null") l then Some (JNull, skipn 4 l)
  else if starts_with (chars "true") l then Some (JBool true, skipn 4 l)
  else if starts_with (chars "false") l then Some (JBool false, skipn 5 l)
  else
    match match_number l with
    | Some r => Some r
    | None =>
        if starts_with (chars "NaN") l
        then Some (JFloat "NaN", skipn 3 l)
        else if starts_with (chars "Infinity") l
        then Some (JFloat "Infinity", skipn 8 l)
        else if starts_with (chars "-Infinity") l
        then Some (JFloat "-Infinity", skipn 9 l)
        else None
    end.

(** [scan_once] and the two loops of [JSONObject] and [JSONArray].  Each call
    spends one unit of [fuel]; [json_loads] provides two units per character,
    which the nesting of a text cannot exceed.  [depth] is the number of
    containers that can still be entered: entering one more is a
    [RecursionError]. *)
Fixpoint scan_once (fuel : nat) (depth : nat) (l : list char) {struct fuel}
  : option (json * list char) :=
  match fuel with
  | O => None
  | S f =>
      match l with
      | [] => None
      | c :: l1 =>
          if char_eqb c dquote then
            match scanstring l1 with
            | Some (w, rest) => Some (JStr (str w), rest)
            | None => None
            end
          else if char_eqb c "{" then
            match depth with
            | O => None
            | S inner =>
                match skip_ws l1 with
                | d :: l2 =>
                    if char_eqb d "}" then Some (JObj [], l2)
                    else if char_eqb d dquote
                    then object_members f inner l2 []
                    else None
                | [] => None
                end
            end
          else if char_eqb c "[" then
            match depth with
            | O => None
            | S inner =>
                match skip_ws l1 with
                | d :: l2 =>
                    if char_eqb d "]" then Some (JArr [], l2)
                    else array_items f inner (d :: l2) []
                | [] => None
                end
            end
          else scan_constant l
      end
  end

with object_members (fuel : nat) (depth : nat) (l : list char)
    (pairs : list (ustr * json)) {struct fuel} : option (json * list char) :=
  match fuel with
  | O => None
  | S f =>
      match scanstring l with
      | None => None
      | Some (key, l1) =>
          match skip_ws l1 with
          | c :: l2 =>
              if char_eqb c ":" then
                match scan_once f depth (skip_ws l2) with
                | None => None
                | Some (value, l3) =>
                    let pairs' := pairs ++ [(str key, value)] in
                    match skip_ws l3 with
                    | d :: l4 =>
                        if char_eqb d "}" then Some (JObj (dict_of_pairs pairs'), l4)
                        else if char_eqb d "," then
                          match skip_ws l4 with
                          | q :: l5 =>
                              if char_eqb q dquote
                              then object_members f depth l5 pairs'
                              else None
                          | [] => None
                          end
                        else None
                    | [] => None
                    end
                end
              else None
          | [] => None
          end
      end
  end

with array_items (fuel : nat) (depth : nat) (l : list char)
    (values : list json) {struct fuel} : option (json * list char) :=
  match fuel with
  | O => None
  | S f =>
      match scan_once f depth l with
      | None => None
      | Some (value, l1) =>
          let values' := values ++ [value] in
          match skip_ws l1 with
          | d :: l2 =>
              if char_eqb d "]" then Some (JArr values', l2)
              else if char_eqb d "," then array_items f depth (skip_ws l2) values'
              else None
          | [] => None
          end
      end
  end.

(** A text that starts with a byte order mark, which [json.loads]
    refuses. *)
Definition starts_with_bom (l : list char) : bool :=
  match l with
  | c :: _ => (c =? 65279)%N
  | [] => false
  end.

(** [json.loads(s)]: one value, whitespace allowed around it and nothing
    else; [None] when the decoder raises. *)
Definition json_loads (s : ustr) : option json :=
  let l := chars s in
  if starts_with_bom l then None
  else
    match scan_once (2 * length l + 2) recursion_left (skip_ws l) with
    | Some (v, rest) =>
        match skip_ws rest with
        | [] => Some v
        | _ :: _ => None
        end
    | None => None
    end.

(** ** Exceptions *)

(** The result of a call that can raise: the value returned, or the text of
    the exception ([str(e)]). *)
Inductive outcome (A : Type) : Type :=
| Returned : A -> outcome A
| Raised : ustr -> outcome A.

#[global] Arguments Returned {A} _.
#[global] Arguments Raised {A} _.

(** ** [resume_parser.py]: class [ResumeParser] *)

(** The dictionary [_extract_information] returns, one field per key. *)
Record ResumeFacts : Type := {
  email : ustr;
  phone : ustr;
  skills : list ustr;
  education : list ustr;
  experience_years : ustr;
  raw_text : ustr;
  word_count : Z;
  character_count : Z
}.

(** [_load_skill_keywords] *)
Definition _load_skill_keywords : list ustr :=
  [ "python"; "java"; "javascript"; "react"; "node.js"; "sql"; "nosql";
    "aws"; "docker"; "kubernetes"; "machine learning"; "deep learning";
    "tensorflow"; "pytorch"; "data analysis"; "tableau"; "power bi";
    "agile"; "scrum"; "devops"; "ci/cd"; "git"; "rest api"; "graphql";
    "html"; "css"; "typescript"; "angular"; "vue"; "mongodb"; "postgresql";
    "mysql"; "redis"; "linux"; "unix"; "bash"; "shell"; "powershell" ].

(** [self.skill_keywords], set once by [__init__] *)
Definition skill_keywords : list ustr := _load_skill_keywords.

(** The keywords of the education loop.  In the source the two entries with
    a backslash are written in ordinary (not raw) literals, where a backslash
    before a dot stays a backslash: each is the three characters letter,
    backslash, dot. *)
Definition education_keywords : list ustr :=
  [ "bachelor"; "master"; "phd"; "degree"; "university"; "college";
    "b\."; "m\."; "phd" ].

Definition one_of (set : ustr) (c : char) : bool :=
  existsb (char_eqb c) (chars set).

(** The characters [re.escape] protects with a backslash. *)
Definition is_special (c : char) : bool :=
  one_of "()[]{}?*+-|^$\.&~# " c || in_range 9 13 c.

(** [re.escape(s)] *)
Definition re_escape (s : ustr) : ustr :=
  str (flat_map (fun c => if is_special c then [backslash; c] else [c]) (chars s)).

(** The literal text an escaped pattern denotes: a backslash makes the next
    character stand for itself.  (Meant for the results of [re_escape], where
    a backslash never stands before a letter or a digit.) *)
Fixpoint escaped_literal (l : list char) : list char :=
  match l with
  | [] => []
  | c :: l1 =>
      if char_eqb c backslash
      then match l1 with
           | [] => []
           | d :: l2 => d :: escaped_literal l2
           end
      else c :: escaped_literal l1
  end.

(** The pattern [r'\b' + e + r'\b'] for an escaped literal [e]. *)
Definition word_pattern (e : ustr) : regex :=
  Seq WordB (Seq (Lit (escaped_literal (chars e))) WordB).

(** [\b[A-Za-z0-9._%+-]+@[A-Za-z0-9.-]+\.[A-Z|a-z]{2,}\b] *)
Definition email_local (c : char) : bool :=
  is_alpha c || is_digit c || one_of "._%+-" c.
Definition email_domain (c : char) : bool :=
  is_alpha c || is_digit c || one_of ".-" c.
Definition email_tld (c : char) : bool :=
  is_alpha c || one_of "|" c.

Definition email_pattern : regex :=
  Seq WordB
    (Seq (Plus (Class email_local))
       (Seq (Chr "@")
          (Seq (Plus (Class email_domain))
             (Seq (Chr ".")
                (Seq (AtLeast 2 (Class email_tld)) WordB))))).

(** [[\+\(]?[1-9][0-9 .\-\(\)]{8,}[0-9]] *)
Definition phone_lead (c : char) : bool := one_of "+(" c.
Definition phone_body (c : char) : bool := is_digit c || one_of " .-()" c.

Definition phone_pattern : regex :=
  Seq (Opt (Class phone_lead))
    (Seq (Class (in_range 49 57))
       (Seq (AtLeast 8 (Class phone_body)) (Class is_digit))).

(** [(?:years?|yrs?)] *)
Definition year_word : regex :=
  Alt (Seq (Lit (chars "year")) (Opt (Chr "s")))
      (Seq (Lit (chars "yr")) (Opt (Chr "s"))).

(** [(\d+)\s*(?:years?|yrs?)] *)
Definition experience_pattern : regex :=
  Seq (Group 1 (Plus (Class is_decimal)))
    (Seq (Star (Class is_space)) year_word).

(** The test of both keyword loops:
    [re.search(r'\b' + re.escape(keyword) + r'\b', text.lower())]. *)
Definition keyword_found (text : ustr) (keyword : ustr) : bool :=
  search (word_pattern (re_escape keyword)) (lower text).

(** [list(set(l))] *)
Definition list_set (l : list ustr) : list ustr :=
  elements (list_to_set l : gset ustr).

(** [_extract_information] *)
Definition _extract_information (text : ustr) : ResumeFacts :=
  let email := findall false email_pattern text in
  let phone := findall false phone_pattern text in
  let education := List.filter (fun keyword => keyword_found text keyword) education_keywords in
  let found_skills := List.filter (fun skill => keyword_found text skill) skill_keywords in
  let experience_years := findall true experience_pattern (lower text) in
  let experience :=
    match experience_years with
    | first :: _ => first
    | [] => "Not specified"
    end in
  {| email := match email with first :: _ => first | [] => "Not found" end;
     phone := match phone with first :: _ => first | [] => "Not found" end;
     skills := found_skills;
     education := list_set education;
     experience_years := experience;
     raw_text := text;
     word_count := Z.of_nat (length (split_ws text));
     character_count := len text |}.

(** What [parse_resume] is given: an upload (an object with a [read]
    attribute: its name and its bytes) or the text typed by the user. *)
Inductive resume_input : Type :=
| Upload : ustr -> list Byte.byte -> resume_input
| Text : ustr -> resume_input.

Definition newline : ustr := str [10%N].

(** [sep.join(parts)] *)
Fixpoint join (sep : ustr) (parts : list ustr) : ustr :=
  match parts with
  | [] => ""
  | [p] => p
  | p :: rest => p +:+ sep +:+ join sep rest
  end.

(** [l[-1]] of a list that is not empty *)
Definition last_item (l : list ustr) : ustr := List.last l "".

Section ResumeParser.
(** The document readers: the texts of the pages of a PDF
    ([page.extract_text()] over [PyPDF2.PdfReader(file).pages]), the texts
    of the paragraphs of a DOCX ([Document(file).paragraphs]), and
    [bytes.decode('utf-8')].  Each can raise. *)
Variable pdf_pages : list Byte.byte -> outcome (list ustr).
Variable docx_paragraphs : list Byte.byte -> outcome (list ustr).
Variable decode_utf8 : list Byte.byte -> outcome ustr.

Definition _parse_pdf (data : list Byte.byte) : ResumeFacts :=
  match pdf_pages data with
  | Returned pages =>
      _extract_information
        (fold_left (fun text page => text +:+ (page +:+ newline)) pages "")
  | Raised e => _extract_information ("PDF parsing error: " +:+ e)
  end.

Definition _parse_docx (data : list Byte.byte) : ResumeFacts :=
  match docx_paragraphs data with
  | Returned paragraphs => _extract_information (join newline paragraphs)
  | Raised e => _extract_information ("DOCX parsing error: " +:+ e)
  end.

Definition _parse_txt (data : list Byte.byte) : ResumeFacts :=
  match decode_utf8 data with
  | Returned text => _extract_information text
  | Raised e => _extract_information ("TXT parsing error: " +:+ e)
  end.

(** [file.name.split('.')[-1].lower()] *)
Definition file_extension (name : ustr) : ustr :=
  lower (last_item (split "." name)).

(** [parse_resume]: [None] is Python's [None], what a function returns when
    it ends without a [return]. *)
Definition parse_resume (file : resume_input) : option ResumeFacts :=
  match file with
  | Upload name data =>
      let file_extension := file_extension name in
      if ustr_eqb file_extension "pdf" then Some (_parse_pdf data)
      else if ustr_eqb file_extension "docx" then Some (_parse_docx data)
      else if ustr_eqb file_extension "txt" then Some (_parse_txt data)
      else None
  | Text text => Some (_extract_information text)
  end.
End ResumeParser.

(** ** [analyzer.py]: class [ResumeAnalyzer] *)

(** A [ChatGroq] client: the model it names and the key it was given. *)
Record ChatGroq : Type := {
  model_name : ustr;
  api_key : ustr
}.

(** [_safe_json_parse]: the bare [except] turns every exception of
    [json.loads] into the default. *)
Definition _safe_json_parse (text : ustr) (default : json) : json :=
  let start := find "{" text in
  let end_ := (rfind "}" text + 1)%Z in
  if (start >=? 0)%Z && (end_ >? start)%Z then
    let json_str := slice text start end_ in
    match json_loads json_str with
    | Some parsed => parsed
    | None => default
    end
  else default.

(** A word between double quotes. *)
Definition quoted (s : ustr) : ustr :=
  str [dquote] +:+ s +:+ str [dquote].

(** The prompt of [job_match_analysis], its two fields filled in; a doubled
    brace of the template is one brace of the prompt. *)
Definition job_match_prompt (resume_text job_description : ustr) : ustr :=
  newline +:+
  "        Analyze the match between resume and job description. Return ONLY valid JSON:" +:+ newline +:+
  "        " +:+ newline +:+
  "        RESUME: " +:+ resume_text +:+ newline +:+
  "        JOB: " +:+ job_description +:+ newline +:+
  "        " +:+ newline +:+
  "        JSON structure:" +:+ newline +:+
  "        {" +:+ newline +:+
  "            " +:+ quoted "match_score" +:+ ": 85," +:+ newline +:+
  "            " +:+ quoted "category_scores" +:+ ": {" +:+ newline +:+
  "                " +:+ quoted "skills" +:+ ": 90," +:+ newline +:+
  "                " +:+ quoted "experience" +:+ ": 80," +:+ newline +:+
  "                " +:+ quoted "education" +:+ ": 85," +:+ newline +:+
  "                " +:+ quoted "culture_fit" +:+ ": 75" +:+ newline +:+
  "            }," +:+ newline +:+
  "            " +:+ quoted "strengths" +:+ ": [" +:+ quoted "Strong technical skills" +:+ ", "
    +:+ quoted "Relevant experience" +:+ "]," +:+ newline +:+
  "            " +:+ quoted "improvements" +:+ ": [" +:+ quoted "Gain leadership experience" +:+ ", "
    +:+ quoted "Learn specific technology" +:+ "]" +:+ newline +:+
  "        }" +:+ newline +:+
  "        ".

(** The default of [job_match_analysis]. *)
Definition job_match_default : json :=
  JObj
    [ ("match_score", JInt 70);
      ("category_scores",
        JObj [ ("skills", JInt 75);
               ("experience", JInt 65);
               ("education", JInt 70);
               ("culture_fit", JInt 60) ]);
      ("strengths",
        JArr [ JStr "Good foundational skills";
               JStr "Relevant educational background" ]);
      ("improvements",
        JArr [ JStr "Gain more industry experience";
               JStr "Develop missing technical skills" ]) ].

Definition fast_model : ustr := "llama-3.1-8b-instant".
Definition powerful_model : ustr := "llama-3.1-70b-versatile".

Section ResumeAnalyzer.
(** [self.groq_api_key], read from the environment by [__init__]: [None]
    when the variable is not set. *)
Variable groq_api_key : option ustr.

(** The text of the [GroqError] the client library raises when it is given
    no key. *)
Variable groq_error : ustr.

(** The completion backend: [llm.invoke(prompt)] on the state of the
    outside world returns the content of the completion or raises, and
    leaves a new state. *)
Variable World : Type.
Variable invoke : ChatGroq -> ustr -> World -> outcome ustr * World.

(** What a call can change: the outside world, and the lines printed. *)
Record state : Type := {
  backend : World;
  stdout : list ustr
}.

(** [ChatGroq(model_name=..., api_key=self.groq_api_key)]: without a key the
    constructor raises (the library looks for the key in the environment
    next, where [__init__] found none). *)
Definition new_ChatGroq (model : ustr) : outcome ChatGroq :=
  match groq_api_key with
  | Some key => Returned {| model_name := model; api_key := key |}
  | None => Raised groq_error
  end.

(** [_get_llm] *)
Definition _get_llm (choice : ustr) : outcome ChatGroq :=
  if contains "8B" choice || contains "Fast" choice then
    new_ChatGroq fast_model
  else if contains "70B" choice || contains "Powerful" choice then
    new_ChatGroq powerful_model
  else
    new_ChatGroq fast_model.

(** The [except] branch of [_get_safe_llm]: a line is printed and a client
    of the lightweight model is built, outside any [try]. *)
Definition fall_back (e : ustr) (w : World) (printed : list ustr)
  : outcome ChatGroq * state :=
  (new_ChatGroq fast_model,
   {| backend := w;
      stdout := printed ++
        ["Model unavailable, falling back to llama-3.1-8b-instant. Error: " +:+ e] |}).

(** [_get_safe_llm]: the [try] covers the construction of the client and
    the probe. *)
Definition _get_safe_llm (choice : ustr) (st : state)
  : outcome ChatGroq * state :=
  match _get_llm choice with
  | Raised e => fall_back e (backend st) (stdout st)
  | Returned llm =>
      let test_prompt := "Say 'test'" in
      match invoke llm test_prompt (backend st) with
      | (Returned _, w) =>
          (Returned llm, {| backend := w; stdout := stdout st |})
      | (Raised e, w) => fall_back e w (stdout st)
      end
  end.

(** [job_match_analysis]: neither an exception of [_get_safe_llm] nor one
    of the completion call is caught here. *)
Definition job_match_analysis (resume_text job_description llm_choice : ustr)
    (st : state) : outcome json * state :=
  match _get_safe_llm llm_choice st with
  | (Raised e, st1) => (Raised e, st1)
  | (Returned llm, st1) =>
      match invoke llm (job_match_prompt resume_text job_description)
              (backend st1) with
      | (Returned content, w) =>
          (Returned (_safe_json_parse content job_match_default),
           {| backend := w; stdout := stdout st1 |})
      | (Raised e, w) => (Raised e, {| backend := w; stdout := stdout st1 |})
      end
  end.
End ResumeAnalyzer.

#[global] Arguments backend {World} _.
#[global] Arguments stdout {World} _.

(** ** Regular expressions: what a match is *)

(** [Matches s r i j]: the pattern [r] matches the text [s] from position
    [i] to position [j].  The positions are those of the whole text, so that
    [\b] sees the characters around the match. *)
Inductive Matches (s : list char) : regex -> nat -> nat -> Prop :=
| M_Eps : forall i, Matches s Eps i i
| M_Class : forall p i a,
    nth_error s i = Some a -> p a = true -> Matches s (Class p) i (S i)
| M_Seq : forall r1 r2 i j k,
    Matches s r1 i j -> Matches s r2 j k -> Matches s (Seq r1 r2) i k
| M_AltL : forall r1 r2 i j, Matches s r1 i j -> Matches s (Alt r1 r2) i j
| M_AltR : forall r1 r2 i j, Matches s r2 i j -> Matches s (Alt r1 r2) i j
| M_StarNil : forall r i, Matches s (Star r) i i
| M_StarStep : forall r i j k,
    i < j -> Matches s r i j -> Matches s (Star r) j k -> Matches s (Star r) i k
| M_WordB : forall i, boundary s i = true -> Matches s WordB i i
| M_Group : forall n r i j, Matches s r i j -> Matches s (Group n r) i j.

(** [MatchesC s r i c j c']: the same, with the groups before ([c]) and
    after ([c']) the match. *)
Inductive MatchesC (s : list char) : regex -> nat -> caps -> nat -> caps -> Prop :=
| MC_Eps : forall i c, MatchesC s Eps i c i c
| MC_Class : forall p i a c,
    nth_error s i = Some a -> p a = true -> MatchesC s (Class p) i c (S i) c
| MC_Seq : forall r1 r2 i j k c c1 c2,
    MatchesC s r1 i c j c1 -> MatchesC s r2 j c1 k c2 ->
    MatchesC s (Seq r1 r2) i c k c2
| MC_AltL : forall r1 r2 i j c c',
    MatchesC s r1 i c j c' -> MatchesC s (Alt r1 r2) i c j c'
| MC_AltR : forall r1 r2 i j c c',
    MatchesC s r2 i c j c' -> MatchesC s (Alt r1 r2) i c j c'
| MC_StarNil : forall r i c, MatchesC s (Star r) i c i c
| MC_StarStep : forall r i j k c c1 c2,
    i < j -> MatchesC s r i c j c1 -> MatchesC s (Star r) j c1 k c2 ->
    MatchesC s (Star r) i c k c2
| MC_WordB : forall i c, boundary s i = true -> MatchesC s WordB i c i c
| MC_Group : forall n r i j c c',
    MatchesC s r i c j c' -> MatchesC s (Group n r) i c j ((n, (i, j)) :: c').

(** ** [analyzer.py]: the three other operations *)

(** The prompt of [analyze_resume]; [resume_data] is the text
    [json.dumps(resume_data)]. *)
Definition analyze_resume_prompt (resume_data : ustr) : ustr :=
  newline +:+
  "        Analyze this resume data and provide constructive feedback in JSON format:" +:+ newline +:+
  "        " +:+ newline +:+
  "        " +:+ resume_data +:+ newline +:+
  "        " +:+ newline +:+
  "        Return ONLY valid JSON with this exact structure:" +:+ newline +:+
  "        {" +:+ newline +:+
  "            " +:+ quoted "overall_score" +:+ ": 85," +:+ newline +:+
  "            " +:+ quoted "skills_score" +:+ ": 90," +:+ newline +:+
  "            " +:+ quoted "experience_level" +:+ ": " +:+ quoted "Mid-Level" +:+ "," +:+ newline +:+
  "            " +:+ quoted "skills_breakdown" +:+ ": {" +:+ newline +:+
  "                " +:+ quoted "technical_skills" +:+ ": 85," +:+ newline +:+
  "                " +:+ quoted "soft_skills" +:+ ": 80," +:+ newline +:+
  "                " +:+ quoted "industry_knowledge" +:+ ": 75" +:+ newline +:+
  "            }," +:+ newline +:+
  "            " +:+ quoted "recommendations" +:+ ": [" +:+ newline +:+
  "                " +:+ quoted "Add more quantifiable achievements" +:+ "," +:+ newline +:+
  "                " +:+ quoted "Include specific project outcomes" +:+ "," +:+ newline +:+
  "                " +:+ quoted "Expand on leadership experience" +:+ newline +:+
  "            ]" +:+ newline +:+
  "        }" +:+ newline +:+
  "        ".

(** The default of [analyze_resume]. *)
Definition analyze_resume_default : json :=
  JObj
    [ ("overall_score", JInt 75);
      ("skills_score", JInt 80);
      ("experience_level", JStr "Mid-Level");
      ("skills_breakdown",
        JObj [ ("technical_skills", JInt 75);
               ("soft_skills", JInt 70);
               ("industry_knowledge", JInt 65) ]);
      ("recommendations",
        JArr [ JStr "Focus on adding more specific achievements";
               JStr "Include metrics and numbers to quantify impact";
               JStr "Highlight leadership and collaboration experiences" ]) ].

(** The prompt of [skill_gap_analysis]. *)
Definition skill_gap_prompt (resume_text target_role : ustr) : ustr :=
  newline +:+
  "        Analyze skills gap for target role. Return ONLY valid JSON:" +:+ newline +:+
  "        " +:+ newline +:+
  "        RESUME: " +:+ resume_text +:+ newline +:+
  "        TARGET: " +:+ target_role +:+ newline +:+
  "        " +:+ newline +:+
  "        JSON structure:" +:+ newline +:+
  "        {" +:+ newline +:+
  "            " +:+ quoted "required_skills" +:+ ": [" +:+ quoted "Python" +:+ ", " +:+ quoted "SQL" +:+ ", " +:+ quoted "ML" +:+ "]," +:+ newline +:+
  "            " +:+ quoted "current_skills" +:+ ": [" +:+ quoted "Python" +:+ ", " +:+ quoted "SQL" +:+ "]," +:+ newline +:+
  "            " +:+ quoted "missing_skills" +:+ ": [" +:+ quoted "ML" +:+ ", " +:+ quoted "Data Viz" +:+ "]," +:+ newline +:+
  "            " +:+ quoted "learning_path" +:+ ": [" +:+ quoted "Take ML course" +:+ ", " +:+ quoted "Build projects" +:+ "]" +:+ newline +:+
  "        }" +:+ newline +:+
  "        ".

(** The default of [skill_gap_analysis]. *)
Definition skill_gap_default : json :=
  JObj
    [ ("required_skills",
        JArr [ JStr "Python"; JStr "SQL"; JStr "Machine Learning";
               JStr "Data Visualization" ]);
      ("current_skills", JArr [ JStr "Python"; JStr "SQL" ]);
      ("missing_skills",
        JArr [ JStr "Machine Learning"; JStr "Data Visualization" ]);
      ("learning_path",
        JArr [ JStr "Take online course in Machine Learning fundamentals";
               JStr "Learn data visualization with Tableau or Power BI";
               JStr "Build portfolio projects using these skills" ]) ].

(** The prompt of [generate_interview_questions]. *)
Definition interview_prompt (resume_text job_description : ustr) : ustr :=
  newline +:+
  "        Generate interview questions. Return ONLY valid JSON:" +:+ newline +:+
  "        " +:+ newline +:+
  "        RESUME: " +:+ resume_text +:+ newline +:+
  "        JOB: " +:+ job_description +:+ newline +:+
  "        " +:+ newline +:+
  "        JSON structure:" +:+ newline +:+
  "        {" +:+ newline +:+
  "            " +:+ quoted "technical_questions" +:+ ": [" +:+ quoted "Q1" +:+ ", " +:+ quoted "Q2" +:+ ", " +:+ quoted "Q3" +:+ ", " +:+ quoted "Q4" +:+ ", " +:+ quoted "Q5" +:+ "]," +:+ newline +:+
  "            " +:+ quoted "behavioral_questions" +:+ ": [" +:+ quoted "Q1" +:+ ", " +:+ quoted "Q2" +:+ ", " +:+ quoted "Q3" +:+ ", " +:+ quoted "Q4" +:+ ", " +:+ quoted "Q5" +:+ "]," +:+ newline +:+
  "            " +:+ quoted "company_questions" +:+ ": [" +:+ quoted "Q1" +:+ ", " +:+ quoted "Q2" +:+ ", " +:+ quoted "Q3" +:+ "]" +:+ newline +:+
  "        }" +:+ newline +:+
  "        ".

(** The default of [generate_interview_questions]. *)
Definition interview_default : json :=
  JObj
    [ ("technical_questions",
        JArr [ JStr "Explain your experience with the technologies mentioned in your resume";
               JStr "Describe a challenging technical problem you solved recently";
               JStr "How do you stay updated with the latest technologies in your field?";
               JStr "What development methodologies have you worked with?";
               JStr "Can you explain your experience with version control systems?" ]);
      ("behavioral_questions",
        JArr [ JStr "Tell me about a time you worked in a team under pressure";
               JStr "Describe a situation where you had to learn something new quickly";
               JStr "How do you handle conflicting priorities?";
               JStr "Tell me about a time you made a mistake and how you handled it";
               JStr "Describe your approach to mentoring junior team members" ]);
      ("company_questions",
        JArr [ JStr "Why are you interested in this type of role at our company?";
               JStr "What do you know about our industry and recent trends?";
               JStr "How do you see yourself contributing to our company's goals?" ]) ].

Section OtherOperations.
(** As for [job_match_analysis]: the key, the backend; and [json.dumps] on
    what [parse_resume] returned, which [analyze_resume] puts in its
    prompt. *)
Variable groq_api_key : option ustr.
Variable groq_error : ustr.
Variable World : Type.
Variable invoke : ChatGroq -> ustr -> World -> outcome ustr * World.
Variable json_dumps : option ResumeFacts -> ustr.

(** [analyze_resume] *)
Definition analyze_resume (resume_data : option ResumeFacts) (llm_choice : ustr)
    (st : state World) : outcome json * state World :=
  match _get_safe_llm groq_api_key groq_error World invoke llm_choice st with
  | (Raised e, st1) => (Raised e, st1)
  | (Returned llm, st1) =>
      match invoke llm (analyze_resume_prompt (json_dumps resume_data))
              (backend st1) with
      | (Returned content, w) =>
          (Returned (_safe_json_parse content analyze_resume_default),
           {| backend := w; stdout := stdout st1 |})
      | (Raised e, w) => (Raised e, {| backend := w; stdout := stdout st1 |})
      end
  end.

(** [skill_gap_analysis] *)
Definition skill_gap_analysis (resume_text target_role llm_choice : ustr)
    (st : state World) : outcome json * state World :=
  match _get_safe_llm groq_api_key groq_error World invoke llm_choice st with
  | (Raised e, st1) => (Raised e, st1)
  | (Returned llm, st1) =>
      match invoke llm (skill_gap_prompt resume_text target_role)
              (backend st1) with
      | (Returned content, w) =>
          (Returned (_safe_json_parse content skill_gap_default),
           {| backend := w; stdout := stdout st1 |})
      | (Raised e, w) => (Raised e, {| backend := w; stdout := stdout st1 |})
      end
  end.

(** [generate_interview_questions] *)
Definition generate_interview_questions
    (resume_text job_description llm_choice : ustr)
    (st : state World) : outcome json * state World :=
  match _get_safe_llm groq_api_key groq_error World invoke llm_choice st with
  | (Raised e, st1) => (Raised e, st1)
  | (Returned llm, st1) =>
      match invoke llm (interview_prompt resume_text job_description)
              (backend st1) with
      | (Returned content, w) =>
          (Returned (_safe_json_parse content interview_default),
           {| backend := w; stdout := stdout st1 |})
      | (Raised e, w) => (Raised e, {| backend := w; stdout := stdout st1 |})
      end
  end.
End OtherOperations.

End Program.

(** ** [visualizations.py] *)

Module Visualizations.

(** What a chart function hands to [go.Scatterpolar] and to
    [update_layout]: the figure is the record of these arguments. *)
Record Figure : Type := {
  r : list json;
  theta : list ustr;
  fill : ustr;
  name : option ustr;
  line_color : option ustr;
  radialaxis_visible : bool;
  radialaxis_range : Z * Z;
  showlegend : bool;
  title : ustr
}.

(** [values[0]]: an [IndexError] on the empty list. *)
Definition first_item {A : Type} (l : list A) : outcome A :=
  match l with
  | x :: _ => Returned x
  | [] => Raised "list index out of range"
  end.

(** [create_skill_chart]; the dictionary is the list of its items. *)
Definition create_skill_chart (skills_breakdown : list (ustr * json))
  : outcome Figure :=
  let categories := map fst skills_breakdown in
  let values := map snd skills_breakdown in
  match first_item values with
  | Raised e => Raised e
  | Returned v0 =>
      match first_item categories with
      | Raised e => Raised e
      | Returned c0 =>
          Returned
            {| r := values ++ [v0];
               theta := categories ++ [c0];
               fill := "toself";
               name := Some "Skills Score";
               line_color := None;
               radialaxis_visible := true;
               radialaxis_range := (0, 100)%Z;
               showlegend := false;
               title := "Skills Breakdown Radar Chart" |}
      end
  end.

(** [create_match_radar] *)
Definition create_match_radar (category_scores : list (ustr * json))
  : outcome Figure :=
  let categories := map fst category_scores in
  let values := map snd category_scores in
  match first_item values with
  | Raised e => Raised e
  | Returned v0 =>
      match first_item categories with
      | Raised e => Raised e
      | Returned c0 =>
          Returned
            {| r := values ++ [v0];
               theta := categories ++ [c0];
               fill := "toself";
               name := None;
               line_color := Some "blue";
               radialaxis_visible := true;
               radialaxis_range := (0, 100)%Z;
               showlegend := false;
               title := "Job Match Analysis" |}
      end
  end.

End Visualizations.

(** ** The words of the specification *)

Section Words.
Context {py : Python}.

(** A pattern that cannot match the empty text. *)
Fixpoint consuming (r : regex) : bool :=
  match r with
  | Eps => false
  | Class _ => true
  | Seq r1 r2 => consuming r1 || consuming r2
  | Alt r1 r2 => consuming r1 && consuming r2
  | Star _ => false
  | WordB => false
  | Group _ r1 => consuming r1
  end.

(** A pattern without capturing group. *)
Fixpoint groupless (r : regex) : bool :=
  match r with
  | Eps => true
  | Class _ => true
  | Seq r1 r2 => groupless r1 && groupless r2
  | Alt r1 r2 => groupless r1 && groupless r2
  | Star r1 => groupless r1
  | WordB => true
  | Group _ _ => false
  end.

(** The text has an opening brace with a closing brace somewhere after it. *)
Definition has_brace_pair (text : ustr) : Prop :=
  exists i j, i < j /\ nth_error (chars text) i = Some "{"%uchar
              /\ nth_error (chars text) j = Some "}"%uchar.

(** The text of a well-formed JSON object: from a brace to a brace, and
    [json.loads] makes a [dict] of it. *)
Definition is_json_object (s : ustr) : bool :=
  match chars s, json_loads s with
  | c :: _, Some (JObj _) =>
      char_eqb c "{" && char_eqb (List.last (chars s) c) "}"
  | _, _ => false
  end.

(** The places [(a, b)] where the text holds a well-formed JSON object
    [text[a:b]]. *)
Definition json_objects_in (text : ustr) : list (nat * nat) :=
  let n := length (chars text) in
  List.filter
    (fun ab => is_json_object (slice text (Z.of_nat (fst ab)) (Z.of_nat (snd ab))))
    (flat_map (fun a => map (fun b => (a, b)) (seq (S a) (n - a))) (seq 0 n)).

(** The last character of the text before an occurrence, if any, is not a
    word character; so for the first character of the text after it. *)
Definition not_word_before (pre : list char) : Prop :=
  match rev pre with
  | [] => True
  | c :: _ => is_word c = false
  end.

Definition not_word_after (post : list char) : Prop :=
  match post with
  | [] => True
  | c :: _ => is_word c = false
  end.

(** The term occurs in the text as a whole word, whatever the case of the
    letters of the text: the lower-cased text is [pre ++ term ++ post], and
    no word character touches the term. *)
Definition occurs_as_whole_word (term text : ustr) : Prop :=
  exists pre post,
    chars (lower text) = pre ++ chars term ++ post /\
    not_word_before pre /\ not_word_after post.

(** Every position from [i] up to [j], [j] excluded, holds a character of
    the class. *)
Definition all_between (p : char -> bool) (s : list char) (i j : nat) : Prop :=
  forall n, i <= n < j -> exists c, nth_error s n = Some c /\ p c = true.

(** Positions [a] to [e] of the text hold an integer followed by a mention
    of years: a run of digits that is not empty, then whitespace or none,
    then [year] or [yr]. *)
Definition year_mention (s : list char) (a e : nat) : Prop :=
  a < e /\ all_between is_decimal s a e /\
  exists w, e <= w /\ all_between is_space s e w /\
    (starts_with (chars "year") (skipn w s) = true \/
     starts_with (chars "yr") (skipn w s) = true).

(** The integer at positions [a] to [e] with [year] or [yr] right after its
    last digit, no whitespace between. *)
Definition immediately_followed (s : list char) (a e : nat) : Prop :=
  a < e /\ all_between is_decimal s a e /\
  (starts_with (chars "year") (skipn e s) = true \/
   starts_with (chars "yr") (skipn e s) = true).

(** The last character of a text is a word character; so for the first. *)
Definition ends_word (l : list char) : bool :=
  match rev l with
  | [] => false
  | c :: _ => is_word c
  end.

Definition begins_word (l : list char) : bool :=
  match l with
  | [] => false
  | c :: _ => is_word c
  end.

(** A text with every term of the skill vocabulary. *)
Definition every_skill : ustr := join " " skill_keywords.

(** Two completions: one wraps its object in prose, with a score outside
    any sensible range; the other holds one object and, in the prose after
    it, a closing brace. *)
Definition wrapped_object : ustr :=
  quoted "match_score" +:+ ": 420, " +:+ quoted "strengths" +:+ ": []".

Definition stray_brace_completion : ustr :=
  "{" +:+ quoted "match_score" +:+ ": 42} :-}".

(** The markers [_get_llm] looks for in a label. *)
Definition has_fast_marker (choice : ustr) : bool :=
  contains "8B" choice || contains "Fast" choice.
Definition has_powerful_marker (choice : ustr) : bool :=
  contains "70B" choice || contains "Powerful" choice.

(** A completion backend that answers every prompt with the same text, and
    one whose every call fails. *)
Definition constant_backend (answer : ustr)
  : ChatGroq -> ustr -> unit -> outcome ustr * unit :=
  fun _ _ w => (Returned answer, w).

Definition failing_backend (reason : ustr)
  : ChatGroq -> ustr -> unit -> outcome ustr * unit :=
  fun _ _ w => (Raised reason, w).

(** A backend that counts its calls and fails the first of them: the probe
    of [_get_safe_llm]. *)
Definition probe_failing_backend (reason answer : ustr)
  : ChatGroq -> ustr -> nat -> outcome ustr * nat :=
  fun _ _ calls =>
    match calls with
    | O => (Raised reason, 1)
    | S _ => (Returned answer, S calls)
    end.

(** Document readers for the examples: none understands its input. *)
Definition no_reader (A : Type) : list Byte.byte -> outcome A :=
  fun _ => Raised "unreadable".

(** The text a completion is coerced from is of no use: it has no brace
    pair, or [json.loads] refuses what its braces hold. *)
Definition unusable (content : ustr) : Prop :=
  ~ has_brace_pair content \/
  json_loads (slice content (find "{" content) (rfind "}" content + 1)) = None.

(** How an operation ends once the completion call is made: the coerced
    completion, or the exception of the call; [printed] is what has been
    printed so far. *)
Definition completed {World : Type} (default : json)
    (call : outcome ustr * World) (printed : list ustr)
  : outcome json * state World :=
  match call with
  | (Returned content, w) =>
      (Returned (_safe_json_parse content default),
       {| backend := w; stdout := printed |})
  | (Raised e, w) => (Raised e, {| backend := w; stdout := printed |})
  end.

(** The line [_get_safe_llm] prints when the probe fails. *)
Definition fallback_line (e : ustr) : ustr :=
  "Model unavailable, falling back to llama-3.1-8b-instant. Error: " +:+ e.

(** Serializers of the resume data for the examples: one that ignores it. *)
Definition no_dumps : option ResumeFacts -> ustr := fun _ => "null".

(** The shape of a text the email pattern matches: a local part, an at
    sign, a domain, a dot and two characters or more, each part made of the
    characters of its class. *)
Definition is_email_shaped (e : list char) : Prop :=
  exists local domain tld,
    e = local ++ "@"%uchar :: domain ++ "."%uchar :: tld /\
    local <> [] /\ Forall (fun c => email_local c = true) local /\
    domain <> [] /\ Forall (fun c => email_domain c = true) domain /\
    2 <= length tld /\ Forall (fun c => email_tld c = true) tld.

(** The shape of a text the phone pattern matches: at most one leading
    plus sign or parenthesis, a digit from 1 to 9, eight characters or more
    among digits, space, dot, hyphen and parentheses, and a last digit. *)
Definition is_phone_shaped (p : list char) : Prop :=
  exists lead first body last,
    p = lead ++ first :: body ++ [last] /\
    length lead <= 1 /\ Forall (fun c => phone_lead c = true) lead /\
    in_range 49 57 first = true /\
    8 <= length body /\ Forall (fun c => phone_body c = true) body /\
    is_digit last = true.





(** The way the three one-valued fields are read off [re.findall]. *)
Definition first_or (sentinel : ustr) (found : list ustr) : ustr :=
  match found with
  | first :: _ => first
  | [] => sentinel
  end.

(** The chart closes its polygon on the items of the dictionary: one point
    per item, in their order, and the first point once more at the end. *)
Definition closes_polygon (items : list (ustr * json))
    (fig : Visualizations.Figure) : Prop :=
  Visualizations.theta fig = map fst items ++ firstn 1 (map fst items) /\
  Visualizations.r fig = map snd items ++ firstn 1 (map snd items) /\
  length (Visualizations.r fig) = S (length items) /\
  length (Visualizations.theta fig) = S (length items) /\
  nth_error (Visualizations.r fig) (length items)
    = nth_error (Visualizations.r fig) 0 /\
  nth_error (Visualizations.theta fig) (length items)
    = nth_error (Visualizations.theta fig) 0.

(** A text made of whitespace only. *)
Definition all_space (l : list char) : Prop :=
  Forall (fun c => is_space c = true) l.

(** A character that is not whitespace. *)
Definition not_space (c : char) : bool := negb (is_space c).

(** A word of [str.split()]: not empty and without whitespace. *)
Definition is_token (w : list char) : Prop :=
  w <> [] /\ Forall (fun c => is_space c = false) w.

(** A text that is empty or ends with a newline; one that is empty or
    begins with a newline. *)
Definition newline_closed (P : list char) : Prop :=
  P = [] \/ exists P0, P = P0 ++ [10%N].

Definition newline_opened (Q : list char) : Prop :=
  Q = [] \/ exists Q0, Q = 10%N :: Q0.

End Words.

(** Case analysis on the comparisons of code points in the goal. *)
Ltac compare_codes :=
  repeat match goal with
  | |- context [N.leb ?a ?b] => destruct (N.leb_spec a b)
  | |- context [N.ltb ?a ?b] => destruct (N.ltb_spec a b)
  | |- context [N.eqb ?a ?b] => destruct (N.eqb_spec a b)
  end;
  simpl in *; try reflexivity; try discriminate; try lia.

(** An interpreter for the examples, whose texts are ASCII texts: its tables
    put no character above 127 in a class and leave it alone when
    lower-casing; its limits are those of CPython 3.11 as it starts. *)
#[program] Definition plain_python : Python := {|
  wide_alnum := fun _ => false;
  wide_space := fun _ => false;
  wide_decimal := fun _ => false;
  wide_lower := fun _ _ c => [c];
  int_max_str_digits := 4300;
  recursion_left := 990
|}.
Next Obligation.
  intros c H. discriminate.
Qed.
Next Obligation.
  intros s i c Hc [H | []]. subst c. discriminate.
Qed.
Next Obligation.
  intros s.
  assert (H : forall t i l,
             lower_from (fun _ _ c => [c]) t i l
             = map (fun c => if is_ascii c then lower_char c else c) l).
  { intros t i l. revert i.
    induction l as [|c l IH]; intros i; simpl; [reflexivity|].
    rewrite IH. now destruct (is_ascii c). }
  unfold lower_with. rewrite !H, map_map. apply map_ext. intros c.
  unfold lower_char, is_upper, in_range, is_ascii. compare_codes.
Qed.
Next Obligation.
  intros a b.
  assert (H : forall t i l,
             lower_from (fun _ _ c => [c]) t i l
             = map (fun c => if is_ascii c then lower_char c else c) l).
  { intros t i l. revert i.
    induction l as [|c l IH]; intros i; simpl; [reflexivity|].
    rewrite IH. now destruct (is_ascii c). }
  unfold lower_with. rewrite !H, map_app. reflexivity.
Qed.

(** * Properties *)

Section CoercerDefaultFacts.
Context {py : Python}.

(** ** Regular expressions: the matcher finds the matches *)

Section MatcherFacts.
Variable s : list char.

Lemma MatchesC_Matches r i c j c' :
  MatchesC s r i c j c' -> Matches s r i j.
Proof.
  induction 1; eauto using Matches.
Qed.

(** A match goes forward, and ends inside the text when it is not empty. *)
Lemma Matches_bounds r i j :
  Matches s r i j -> i <= j /\ (i < j -> j <= length s).
Proof.
  induction 1; try lia.
  assert (i < length s) by (apply nth_error_Some; congruence). lia.
Qed.

(** Soundness: an answer of the matcher comes from a match. *)
Lemma mtch_sound (R : Type) r :
  forall i c (k : nat -> caps -> option R) x,
    mtch s r i c k = Some x ->
    exists j c', MatchesC s r i c j c' /\ k j c' = Some x.
Proof.
  induction r as [| p | r1 IH1 r2 IH2 | r1 IH1 r2 IH2 | r1 IH1 | | n r1 IH1];
    intros i c k x H; simpl in H.
  - eauto using MatchesC.
  - destruct (nth_error s i) as [a|] eqn:Ha; [|discriminate].
    destruct (p a) eqn:Hp; [|discriminate].
    eauto using MatchesC.
  - apply IH1 in H as (j & c1 & H1 & H).
    apply IH2 in H as (j' & c2 & H2 & H).
    eauto using MatchesC.
  - destruct (mtch s r1 i c k) eqn:E.
    + inversion H; subst. apply IH1 in E as (j & c1 & H1 & E).
      eauto using MatchesC.
    + apply IH2 in H as (j & c1 & H1 & E').
      eauto using MatchesC.
  - remember (length s - i) as fuel eqn:Hfuel. clear Hfuel.
    revert i c H.
    induction fuel as [|fuel IHf]; intros i c H.
    + eauto using MatchesC.
    + match type of H with
      | match ?m with _ => _ end = _ => destruct m eqn:E
      end.
      * inversion H; subst.
        apply IH1 in E as (j & c1 & H1 & E).
        destruct (i <? j) eqn:Hij; [|discriminate].
        apply Nat.ltb_lt in Hij.
        apply IHf in E as (j' & c2 & H2 & E).
        eauto using MatchesC.
      * eauto using MatchesC.
  - destruct (boundary s i) eqn:Hb; [|discriminate].
    eauto using MatchesC.
  - apply IH1 in H as (j & c1 & H1 & H).
    eauto using MatchesC.
Qed.

(** Completeness: where a match exists and the rest of the match accepts
    its end, the matcher answers. *)
Lemma mtch_complete (R : Type) r :
  forall i j, Matches s r i j ->
  forall c (k : nat -> caps -> option R),
    (forall c', k j c' <> None) -> mtch s r i c k <> None.
Proof.
  induction r as [| p | r1 IH1 r2 IH2 | r1 IH1 r2 IH2 | r1 IH1 | | n r1 IH1];
    intros i j M c k Hk; simpl.
  - inversion M; subst. apply Hk.
  - inversion M as [| ? ? a Hn Hp | | | | | | |]; subst.
    rewrite Hn, Hp. apply Hk.
  - inversion M as [| | ? ? ? m ? M1 M2 | | | | | |]; subst.
    eapply IH1; [exact M1|]. intros c1.
    eapply IH2; eassumption.
  - destruct (mtch s r1 i c k) eqn:E; [discriminate|].
    inversion M as [| | | ? ? ? ? M1 | ? ? ? ? M2 | | | |]; subst.
    + exfalso. eapply IH1; eauto.
    + eapply IH2; eauto.
  - assert (Hfuel : length s - i <= length s - i) by lia.
    revert Hfuel. generalize (length s - i) at 2 3.
    intros fuel. revert i c M.
    induction fuel as [|fuel IHf]; intros i c M Hfuel.
    + inversion M as [| | | | | | ? ? m ? Hlt M1 M2 | |]; subst; [apply Hk|].
      exfalso. apply Matches_bounds in M1. lia.
    + match goal with
      | |- match ?m with _ => _ end <> _ => destruct m eqn:E
      end; [discriminate|].
      inversion M as [| | | | | | ? ? m ? Hlt M1 M2 | |]; subst; [apply Hk|].
      exfalso. eapply IH1; [exact M1 | | exact E].
      intros c1. simpl.
      assert (Hb : (i <? m) = true) by (apply Nat.ltb_lt; lia).
      rewrite Hb. apply IHf; [assumption | lia].
  - inversion M as [| | | | | | | ? Hb |]; subst. rewrite Hb. apply Hk.
  - inversion M as [| | | | | | | | ? ? ? ? M1]; subst.
    eapply IH1; [exact M1|]. intros c1. apply Hk.
Qed.

Lemma match_at_sound r i j c :
  match_at r s i = Some (j, c) -> MatchesC s r i [] j c.
Proof.
  unfold match_at. intros H.
  apply mtch_sound in H as (j' & c' & M & E).
  inversion E; subst. exact M.
Qed.

Lemma match_at_complete r i j :
  Matches s r i j -> match_at r s i <> None.
Proof.
  intros M. unfold match_at.
  eapply mtch_complete; [exact M|]. discriminate.
Qed.

(** The scan stops at the leftmost position where a match starts. *)
Lemma scan_some r n : forall i a b c,
  scan r s n i = Some (a, b, c) ->
  i <= a <= i + n /\ MatchesC s r a [] b c /\
  (forall a' b', i <= a' < a -> ~ Matches s r a' b').
Proof.
  induction n as [|n IH]; intros i a b c H; simpl in H.
  - destruct (match_at r s i) as [[j c0]|] eqn:E; [|discriminate].
    inversion H; subst. apply match_at_sound in E.
    split; [lia|]. split; [assumption|]. intros; lia.
  - destruct (match_at r s i) as [[j c0]|] eqn:E.
    + inversion H; subst. apply match_at_sound in E.
      split; [lia|]. split; [assumption|]. intros; lia.
    + apply IH in H as (Hr & M & Hleft).
      split; [lia|]. split; [assumption|].
      intros a' b' Ha M'.
      destruct (Nat.eq_dec a' i) as [->|Hne].
      * eapply match_at_complete; eauto.
      * eapply (Hleft a' b'); [lia | exact M'].
Qed.

Lemma scan_none r n : forall i,
  scan r s n i = None ->
  forall a b, i <= a <= i + n -> ~ Matches s r a b.
Proof.
  induction n as [|n IH]; intros i H a b Ha M; simpl in H.
  - destruct (match_at r s i) as [[j c0]|] eqn:E; [discriminate|].
    assert (a = i) by lia; subst.
    eapply match_at_complete; eauto.
  - destruct (match_at r s i) as [[j c0]|] eqn:E; [discriminate|].
    destruct (Nat.eq_dec a i) as [->|Hne].
    + eapply match_at_complete; eauto.
    + eapply (IH (S i) H a b); [lia | exact M].
Qed.

(** [re.search] from the start of the text. *)
Lemma search_from_some r a b c :
  search_from r s 0 = Some (a, b, c) ->
  MatchesC s r a [] b c /\ (forall a' b', Matches s r a' b' -> a <= a').
Proof.
  unfold search_from. intros H.
  apply scan_some in H as (_ & M & Hleft).
  split; [assumption|]. intros a' b' M'.
  destruct (le_lt_dec a a') as [|Hlt]; [assumption|].
  exfalso. eapply (Hleft a' b'); [lia | exact M'].
Qed.

Lemma search_from_none r :
  search_from r s 0 = None ->
  forall a b, a <= length s -> ~ Matches s r a b.
Proof.
  unfold search_from. intros H a b Ha.
  eapply scan_none; [exact H | lia].
Qed.

Lemma search_from_complete r a b :
  a <= length s -> Matches s r a b -> search_from r s 0 <> None.
Proof.
  intros Ha M E. eapply search_from_none; eauto.
Qed.
End MatcherFacts.

(** ** Texts and their characters *)

Lemma chars_str l : chars (str l) = l.
Proof. reflexivity. Qed.

Lemma str_chars s : str (chars s) = s.
Proof. now destruct s. Qed.

Lemma chars_inj a b : chars a = chars b -> a = b.
Proof.
  intros H. rewrite <- (str_chars a), <- (str_chars b). now rewrite H.
Qed.

Lemma chars_app a b : chars (a +:+ b) = chars a ++ chars b.
Proof. reflexivity. Qed.

Lemma chars_lower text :
  chars (lower text) = lower_with wide_lower (chars text).
Proof. reflexivity. Qed.

Lemma ustr_eqb_eq a b : ustr_eqb a b = true <-> a = b.
Proof. unfold ustr_eqb. apply bool_decide_eq_true. Qed.

Lemma ustr_eqb_neq a b : ustr_eqb a b = false <-> a <> b.
Proof. unfold ustr_eqb. apply bool_decide_eq_false. Qed.

Lemma char_eqb_eq a b : char_eqb a b = true <-> a = b.
Proof. apply N.eqb_eq. Qed.

Lemma char_eqb_refl a : char_eqb a a = true.
Proof. now apply char_eqb_eq. Qed.

Lemma char_eqb_neq a b : char_eqb a b = false <-> a <> b.
Proof. apply N.eqb_neq. Qed.

(** [needle in hay] holds exactly when [needle] is a contiguous part of [hay]. *)
Lemma starts_with_spec needle : forall hay,
  starts_with needle hay = true <-> exists post, hay = needle ++ post.
Proof.
  induction needle as [|a n IH]; intros hay; simpl.
  - split; eauto.
  - destruct hay as [|b h].
    + split; [discriminate | intros [post H]; discriminate].
    + rewrite andb_true_iff, char_eqb_eq, IH. split.
      * intros [-> [post ->]]. eauto.
      * intros [post H]. inversion H; subst. eauto.
Qed.

Lemma contains_chars_spec needle : forall hay,
  contains_chars needle hay = true <->
  exists pre post, hay = pre ++ needle ++ post.
Proof.
  induction hay as [|b h IH]; simpl.
  - rewrite orb_false_r, starts_with_spec. split.
    + intros [post H]. exists [], post. exact H.
    + intros (pre & post & H). destruct pre; simpl in H.
      * eauto.
      * discriminate.
  - rewrite orb_true_iff, starts_with_spec, IH. split.
    + intros [[post H] | (pre & post & H)].
      * exists [], post. exact H.
      * exists (b :: pre), post. simpl. now rewrite H.
    + intros (pre & post & H). destruct pre as [|c pre]; simpl in H.
      * left. eauto.
      * right. inversion H; subst. eauto.
Qed.

Lemma contains_spec needle hay :
  contains needle hay = true <->
  exists pre post, hay = pre +:+ needle +:+ post.
Proof.
  unfold contains. rewrite contains_chars_spec. split.
  - intros (pre & post & H). exists (str pre), (str post).
    rewrite <- (str_chars hay), H, <- (str_chars (_ +:+ _)).
    now rewrite !chars_app, !chars_str.
  - intros (pre & post & ->). exists (chars pre), (chars post).
    now rewrite ?chars_app.
Qed.

(** ** [find], [rfind] and slices *)

Lemma find_from_none c l : forall i,
  ~ In c l -> find_from c l i = (-1)%Z.
Proof.
  induction l as [|a l IH]; intros i H; simpl; [reflexivity|].
  destruct (char_eqb a c) eqn:E.
  - apply char_eqb_eq in E. subst. exfalso. apply H. now left.
  - apply IH. intros Hin. apply H. now right.
Qed.

Lemma find_from_first c pre post : forall i,
  ~ In c pre ->
  find_from c (pre ++ c :: post) i = (i + Z.of_nat (length pre))%Z.
Proof.
  induction pre as [|a pre IH]; intros i H; simpl.
  - rewrite char_eqb_refl. lia.
  - destruct (char_eqb a c) eqn:E.
    + apply char_eqb_eq in E. subst. exfalso. apply H. now left.
    + rewrite IH; [lia|]. intros Hin. apply H. now right.
Qed.

Lemma find_from_some c l : forall i n,
  (0 <= i)%Z -> find_from c l i = n -> (0 <= n)%Z ->
  nth_error l (Z.to_nat (n - i)) = Some c /\
  (forall m, m < Z.to_nat (n - i) -> nth_error l m <> Some c).
Proof.
  induction l as [|a l IH]; intros i n Hi H Hn; simpl in H; [lia|].
  destruct (char_eqb a c) eqn:E.
  - apply char_eqb_eq in E. subst. rewrite Z.sub_diag. simpl.
    split; [reflexivity | intros; lia].
  - assert (Hlt : (i + 1 <= n)%Z).
    { clear IH. revert H. generalize (i + 1)%Z as k. revert n Hn.
      induction l as [|b l IHl]; intros n Hn k H; simpl in H; [lia|].
      destruct (char_eqb b c); [lia|]. apply IHl in H; lia. }
    destruct (IH (i + 1)%Z n ltac:(lia) H Hn) as [H1 H2].
    replace (Z.to_nat (n - i)) with (S (Z.to_nat (n - (i + 1)))) by lia.
    split; [exact H1|].
    intros [|m] Hm; simpl.
    + apply char_eqb_neq in E. congruence.
    + apply H2. lia.
Qed.

Lemma rfind_from_range c l : forall i,
  (0 <= i)%Z ->
  rfind_from c l i = (-1)%Z \/ (i <= rfind_from c l i)%Z.
Proof.
  induction l as [|a l IH]; intros i Hi; simpl; [now left|].
  destruct (IH (i + 1)%Z ltac:(lia)) as [H | H].
  - rewrite H. simpl. destruct (char_eqb a c); [right; lia | now left].
  - destruct (0 <=? rfind_from c l (i + 1))%Z eqn:E; [right; lia|].
    apply Z.leb_gt in E. lia.
Qed.

Lemma rfind_from_none c l : forall i,
  ~ In c l -> rfind_from c l i = (-1)%Z.
Proof.
  induction l as [|a l IH]; intros i H; simpl; [reflexivity|].
  rewrite IH by (intros Hin; apply H; now right). simpl.
  destruct (char_eqb a c) eqn:E; [|reflexivity].
  apply char_eqb_eq in E. subst. exfalso. apply H. now left.
Qed.

Lemma rfind_from_last c pre post : forall i,
  (0 <= i)%Z -> ~ In c post ->
  rfind_from c (pre ++ c :: post) i = (i + Z.of_nat (length pre))%Z.
Proof.
  induction pre as [|a pre IH]; intros i Hi H; simpl.
  - rewrite rfind_from_none by assumption. simpl.
    rewrite char_eqb_refl. lia.
  - rewrite IH by (assumption || lia).
    destruct (0 <=? i + 1 + Z.of_nat (length pre))%Z eqn:E; [lia|].
    apply Z.leb_gt in E. lia.
Qed.

Lemma rfind_from_some c l : forall i n,
  (0 <= i)%Z -> rfind_from c l i = n -> (0 <= n)%Z ->
  (i <= n)%Z /\ nth_error l (Z.to_nat (n - i)) = Some c.
Proof.
  induction l as [|a l IH]; intros i n Hi H Hn; simpl in H; [lia|].
  destruct (0 <=? rfind_from c l (i + 1))%Z eqn:E.
  - apply Z.leb_le in E.
    destruct (IH (i + 1)%Z n ltac:(lia) H Hn) as [H1 H2].
    split; [lia|].
    replace (Z.to_nat (n - i)) with (S (Z.to_nat (n - (i + 1)))) by lia.
    exact H2.
  - destruct (char_eqb a c) eqn:E'; [|lia].
    apply char_eqb_eq in E'. subst. rewrite Z.sub_diag.
    split; [lia | reflexivity].
Qed.

(** The slice between two positions inside the text. *)
Lemma slice_middle pre mid post :
  slice (str (pre ++ mid ++ post))
        (Z.of_nat (length pre)) (Z.of_nat (length pre + length mid))
  = str mid.
Proof.
  unfold slice, len, clip. rewrite chars_str, !length_app.
  destruct (Z.of_nat (length pre) <? 0)%Z eqn:E1; [apply Z.ltb_lt in E1; lia|].
  destruct (Z.of_nat (length pre + length mid) <? 0)%Z eqn:E2;
    [apply Z.ltb_lt in E2; lia|].
  rewrite !Z.min_l by lia.
  rewrite Nat2Z.id.
  replace (Z.to_nat _) with (length mid) by lia.
  now rewrite drop_app_length, take_app_length.
Qed.

(** ** [json.loads]: the fuel of the model is enough *)

Lemma skip_ws_length l : length (skip_ws l) <= length l.
Proof.
  induction l as [|c l IH]; simpl; [lia|].
  destruct (is_json_ws c); simpl; lia.
Qed.

Lemma push_some c r w rest :
  push c r = Some (w, rest) -> exists w', r = Some (w', rest).
Proof.
  destruct r as [[w' rest']|]; simpl; [|discriminate].
  intros H. inversion H; subst. eauto.
Qed.

(** A string that is read ends with its closing quote: the rest is shorter. *)
Lemma scanstring_shorter : forall n l w rest,
  length l <= n -> scanstring l = Some (w, rest) -> length rest < length l.
Proof.
  induction n as [|n IH]; intros l w rest Hn H.
  - destruct l; [discriminate | simpl in Hn; lia].
  - destruct l as [|c l1]; [discriminate|].
    simpl in Hn. simpl in H.
    destruct (char_eqb c dquote).
    { inversion H; subst. simpl. lia. }
    destruct (char_eqb c backslash).
    + destruct l1 as [|e l2]; [discriminate|].
      destruct (char_eqb e "u").
      * destruct l2 as [|h1 [|h2 [|h3 [|h4 l3]]]]; try discriminate.
        destruct (hex4 h1 h2 h3 h4) as [uni|]; [|discriminate].
        simpl in Hn.
        assert (Hplain : forall w0, scanstring l3 = Some (w0, rest) ->
                                    length rest < length (c :: e :: h1 :: h2 :: h3 :: h4 :: l3)).
        { intros w0 H0. apply IH in H0; simpl; lia. }
        destruct (is_high_surrogate uni).
        -- destruct l3 as [|b [|v l4]];
             try (apply push_some in H as [w0 H]; eapply Hplain; exact H).
           destruct (char_eqb b backslash && char_eqb v "u").
           ++ destruct l4 as [|g1 [|g2 [|g3 [|g4 l5]]]]; try discriminate.
              destruct (hex4 g1 g2 g3 g4) as [uni2|]; [|discriminate].
              destruct (is_low_surrogate uni2).
              ** apply push_some in H as [w0 H].
                 apply IH in H; simpl in *; lia.
              ** apply push_some in H as [w0 H]. eapply Hplain; exact H.
           ++ apply push_some in H as [w0 H]. eapply Hplain; exact H.
        -- apply push_some in H as [w0 H]. eapply Hplain; exact H.
      * destruct (unescaped e); [|discriminate].
        apply push_some in H as [w0 H].
        apply IH in H; simpl in *; lia.
    + destruct (c <? 32)%N; [discriminate|].
      apply push_some in H as [w0 H].
      apply IH in H; simpl; lia.
Qed.

Lemma span_length p l : length (snd (span p l)) <= length l.
Proof.
  induction l as [|c l IH]; simpl; [lia|].
  destruct (p c); [|simpl; lia].
  destruct (span p l); simpl in *. lia.
Qed.

Lemma span_rest p l a b : span p l = (a, b) -> length b <= length l.
Proof.
  intros H. pose proof (span_length p l) as Hl. rewrite H in Hl. exact Hl.
Qed.

Lemma number_int_shorter l ds rest :
  number_int l = Some (ds, rest) -> length rest < length l.
Proof.
  unfold number_int. destruct l as [|c l']; [discriminate|].
  destruct (char_eqb c "0").
  - intros H. inversion H; subst. simpl. lia.
  - destruct (in_range 49 57 c); [|discriminate].
    destruct (span is_digit l') as [a b] eqn:E.
    intros H. inversion H; subst. apply span_rest in E. simpl. lia.
Qed.

Lemma number_frac_rest l frac rest :
  number_frac l = (frac, rest) -> length rest <= length l.
Proof.
  unfold number_frac. destruct l as [|c l']; [intros H; inversion H; subst; lia|].
  destruct (char_eqb c ".").
  - destruct (span is_digit l') as [a b] eqn:E. apply span_rest in E.
    destruct a; intros H; inversion H; subst; simpl; lia.
  - intros H; inversion H; subst; lia.
Qed.

Lemma number_exp_rest l exp rest :
  number_exp l = (exp, rest) -> length rest <= length l.
Proof.
  unfold number_exp. destruct l as [|c l']; [intros H; inversion H; subst; lia|].
  destruct (char_eqb c "e" || char_eqb c "E").
  - destruct l' as [|g r].
    + simpl. intros H; inversion H; subst; simpl; lia.
    + destruct (char_eqb g "-" || char_eqb g "+").
      * destruct (span is_digit r) as [a b] eqn:E. apply span_rest in E.
        destruct a; intros H; inversion H; subst; simpl; lia.
      * destruct (span is_digit (g :: r)) as [a b] eqn:E. apply span_rest in E.
        simpl in E.
        destruct a; intros H; inversion H; subst; simpl; lia.
  - intros H; inversion H; subst; lia.
Qed.

(** A number that is read has at least one digit: the rest is shorter. *)
Lemma match_number_shorter l v rest :
  match_number l = Some (v, rest) -> length rest < length l.
Proof.
  unfold match_number. intros H.
  assert (Hgen : forall neg l1, length l1 <= length l ->
            match number_int l1 with
            | Some (ds, l2) =>
                let (frac, l3) := number_frac l2 in
                let (exp, l4) := number_exp l3 in
                match frac, exp with
                | [], [] =>
                    if too_many_digits ds then None
                    else Some (JInt (if neg : bool then (- int_of_digits ds)%Z
                                     else int_of_digits ds), l4)
                | _, _ =>
                    Some (JFloat (str ((if neg then ["-"%uchar] else [])
                                       ++ ds ++ frac ++ exp)), l4)
                end
            | None => None
            end = Some (v, rest) -> length rest < length l).
  { intros neg l1 Hl1 H1.
    destruct (number_int l1) as [[ds l2]|] eqn:E1; [|discriminate].
    apply number_int_shorter in E1.
    destruct (number_frac l2) as [frac l3] eqn:E2. apply number_frac_rest in E2.
    destruct (number_exp l3) as [exp l4] eqn:E3. apply number_exp_rest in E3.
    destruct frac, exp; try destruct (too_many_digits ds);
      inversion H1; subst; lia. }
  destruct l as [|c l']; [discriminate|].
  destruct (char_eqb c "-").
  - apply (Hgen true l'); [simpl; lia | exact H].
  - apply (Hgen false (c :: l')); [lia | exact H].
Qed.

Lemma starts_with_length needle : forall hay,
  starts_with needle hay = true -> length needle <= length hay.
Proof.
  intros hay H. apply starts_with_spec in H as [post ->].
  rewrite length_app. lia.
Qed.

Lemma scan_constant_shorter l v rest :
  scan_constant l = Some (v, rest) -> length rest < length l.
Proof.
  unfold scan_constant. intros H.
  repeat match type of H with
  | (if starts_with ?n l then _ else _) = _ =>
      let E := fresh "E" in
      destruct (starts_with n l) eqn:E;
      [ apply starts_with_length in E; simpl in E;
        inversion H; subst; rewrite length_skipn; lia | ]
  | match match_number l with _ => _ end = _ =>
      let E := fresh "E" in
      destruct (match_number l) as [[v' r']|] eqn:E;
      [ inversion H; subst; eapply match_number_shorter; exact E | ]
  end.
  discriminate.
Qed.

Lemma scanstring_rest l w rest :
  scanstring l = Some (w, rest) -> length rest < length l.
Proof. apply (scanstring_shorter (length l)). lia. Qed.

Lemma skip_ws_cons l d l' : skip_ws l = d :: l' -> length l' < length l.
Proof.
  intros H. pose proof (skip_ws_length l) as Hl. rewrite H in Hl.
  simpl in Hl. lia.
Qed.

(** What any amount of fuel reads, twice the number of characters read is
    enough to read; and something is read. *)
Lemma fuel_enough f :
  (forall depth l v rest,
      scan_once f depth l = Some (v, rest) ->
      length rest < length l /\
      forall f', 2 * (length l - length rest) <= f' ->
                 scan_once f' depth l = Some (v, rest)) /\
  (forall depth l pairs v rest,
      object_members f depth l pairs = Some (v, rest) ->
      length rest < length l /\
      forall f', 2 * (length l - length rest) <= f' ->
                 object_members f' depth l pairs = Some (v, rest)) /\
  (forall depth l values v rest,
      array_items f depth l values = Some (v, rest) ->
      length rest < length l /\
      forall f', 2 * (length l - length rest) <= f' ->
                 array_items f' depth l values = Some (v, rest)).
Proof.
  induction f as [|f (IHs & IHo & IHa)].
  { repeat split; intros; discriminate. }
  split; [|split].
  - intros depth l v rest H. cbn [scan_once] in H.
    destruct l as [|c l1]; [discriminate|].
    destruct (char_eqb c dquote) eqn:E1.
    { destruct (scanstring l1) as [[w r]|] eqn:Es; [|discriminate].
      inversion H; subst. pose proof (scanstring_rest _ _ _ Es) as Hr.
      split; [simpl; lia|].
      intros [|f'] Hf'; [simpl in Hf'; lia|].
      cbn [scan_once]. now rewrite E1, Es. }
    destruct (char_eqb c "{") eqn:E2.
    { destruct depth as [|inner]; [discriminate|].
      destruct (skip_ws l1) as [|d l2] eqn:Ew; [discriminate|].
      pose proof (skip_ws_cons _ _ _ Ew) as Hw.
      destruct (char_eqb d "}") eqn:E3.
      - inversion H; subst. split; [simpl; lia|].
        intros [|f'] Hf'; [simpl in Hf'; lia|].
        cbn [scan_once]. now rewrite E1, E2, Ew, E3.
      - destruct (char_eqb d dquote) eqn:E4; [|discriminate].
        apply IHo in H as [Hr Hf]. split; [simpl; lia|].
        intros [|f'] Hf'; [simpl in Hf'; lia|].
        cbn [scan_once]. rewrite E1, E2, Ew, E3, E4.
        apply Hf. simpl in Hf'. lia. }
    destruct (char_eqb c "[") eqn:E3.
    { destruct depth as [|inner]; [discriminate|].
      destruct (skip_ws l1) as [|d l2] eqn:Ew; [discriminate|].
      pose proof (skip_ws_cons _ _ _ Ew) as Hw.
      destruct (char_eqb d "]") eqn:E4.
      - inversion H; subst. split; [simpl; lia|].
        intros [|f'] Hf'; [simpl in Hf'; lia|].
        cbn [scan_once]. now rewrite E1, E2, E3, Ew, E4.
      - apply IHa in H as [Hr Hf]. simpl in Hr. split; [simpl; lia|].
        intros [|f'] Hf'; [simpl in Hf'; lia|].
        cbn [scan_once]. rewrite E1, E2, E3, Ew, E4.
        apply Hf. simpl in Hf' |- *. lia. }
    pose proof (scan_constant_shorter _ _ _ H) as Hr.
    split; [exact Hr|].
    intros [|f'] Hf'; [lia|].
    cbn [scan_once]. now rewrite E1, E2, E3.
  - intros depth l pairs v rest H. cbn [object_members] in H.
    destruct (scanstring l) as [[key l1]|] eqn:Es; [|discriminate].
    pose proof (scanstring_rest _ _ _ Es) as Hs.
    destruct (skip_ws l1) as [|c l2] eqn:Ew1; [discriminate|].
    pose proof (skip_ws_cons _ _ _ Ew1) as Hw1.
    destruct (char_eqb c ":") eqn:E1; [|discriminate].
    destruct (scan_once f depth (skip_ws l2)) as [[value l3]|] eqn:Ev;
      [|discriminate].
    apply IHs in Ev as [Hv Hfv].
    pose proof (skip_ws_length l2) as Hw2.
    cbv zeta in H.
    destruct (skip_ws l3) as [|d l4] eqn:Ew3; [discriminate|].
    pose proof (skip_ws_cons _ _ _ Ew3) as Hw3.
    destruct (char_eqb d "}") eqn:E2.
    { inversion H; subst. split; [lia|].
      intros [|f'] Hf'; [lia|].
      cbn [object_members]. rewrite Es, Ew1, E1, Hfv by lia.
      cbv zeta. now rewrite Ew3, E2. }
    destruct (char_eqb d ",") eqn:E3; [|discriminate].
    destruct (skip_ws l4) as [|q l5] eqn:Ew4; [discriminate|].
    pose proof (skip_ws_cons _ _ _ Ew4) as Hw4.
    destruct (char_eqb q dquote) eqn:E4; [|discriminate].
    apply IHo in H as [Hr Hf]. split; [lia|].
    intros [|f'] Hf'; [lia|].
    cbn [object_members]. rewrite Es, Ew1, E1, Hfv by lia.
    cbv zeta. rewrite Ew3, E2, E3, Ew4, E4. apply Hf. lia.
  - intros depth l values v rest H. cbn [array_items] in H.
    destruct (scan_once f depth l) as [[value l1]|] eqn:Ev; [|discriminate].
    apply IHs in Ev as [Hv Hfv].
    cbv zeta in H.
    destruct (skip_ws l1) as [|d l2] eqn:Ew; [discriminate|].
    pose proof (skip_ws_cons _ _ _ Ew) as Hw.
    destruct (char_eqb d "]") eqn:E1.
    { inversion H; subst. split; [lia|].
      intros [|f'] Hf'; [lia|].
      cbn [array_items]. rewrite Hfv by lia. cbv zeta. now rewrite Ew, E1. }
    destruct (char_eqb d ",") eqn:E2; [|discriminate].
    apply IHa in H as [Hr Hf].
    pose proof (skip_ws_length l2) as Hw2.
    split; [lia|].
    intros [|f'] Hf'; [lia|].
    cbn [array_items]. rewrite Hfv by lia. cbv zeta. rewrite Ew, E1, E2.
    apply Hf. lia.
Qed.

(** [json_loads] does not fail for want of fuel: what [scan_once] reads with
    any fuel, it reads with the fuel [json_loads] gives it. *)
Lemma json_loads_fuel_enough s f depth v rest :
  scan_once f depth (skip_ws (chars s)) = Some (v, rest) ->
  scan_once (2 * length (chars s) + 2) depth (skip_ws (chars s))
  = Some (v, rest).
Proof.
  intros H. destruct (fuel_enough f) as (Hs & _ & _).
  apply Hs in H as [Hr Hf]. apply Hf.
  pose proof (skip_ws_length (chars s)). lia.
Qed.

(** ** The result coercer: [_safe_json_parse] *)

(** Without a brace pair the guard of [_safe_json_parse] fails. *)
Lemma no_pair_guard text :
  ~ has_brace_pair text ->
  ((find "{" text >=? 0)%Z && (rfind "}" text + 1 >? find "{" text)%Z) = false.
Proof.
  intros Hno.
  destruct (find "{" text >=? 0)%Z eqn:E1; [|reflexivity].
  destruct (rfind "}" text + 1 >? find "{" text)%Z eqn:E2; [|reflexivity].
  exfalso. apply Hno.
  apply Z.geb_le in E1. apply Z.gtb_lt in E2.
  unfold find in *. unfold rfind in *.
  destruct (find_from_some "{"%uchar (chars text) 0%Z _ ltac:(lia) eq_refl E1) as [Hs _].
  destruct (rfind_from_some "}"%uchar (chars text) 0%Z _ ltac:(lia) eq_refl ltac:(lia))
    as [_ He].
  rewrite Z.sub_0_r in Hs, He.
  exists (Z.to_nat (find_from "{"%uchar (chars text) 0)),
         (Z.to_nat (rfind_from "}"%uchar (chars text) 0)).
  split; [|split; assumption].
  assert (Hne : Z.to_nat (find_from "{"%uchar (chars text) 0)
                <> Z.to_nat (rfind_from "}"%uchar (chars text) 0)).
  { intros Heq. rewrite Heq in Hs. rewrite Hs in He. discriminate. }
  lia.
Qed.

Lemma coerce_no_pair text default :
  ~ has_brace_pair text -> _safe_json_parse text default = default.
Proof.
  intros H. unfold _safe_json_parse. now rewrite no_pair_guard.
Qed.

Lemma coerce_unparsable text default :
  json_loads (slice text (find "{" text) (rfind "}" text + 1)) = None ->
  _safe_json_parse text default = default.
Proof.
  intros H. unfold _safe_json_parse. rewrite H. now destruct (_ && _).
Qed.

(** The object between a prose without opening brace and a prose without
    closing brace is what [_safe_json_parse] hands to [json.loads]. *)
Lemma coerce_finds_object pre mid post :
  ~ In "{"%uchar (chars pre) -> ~ In "}"%uchar (chars post) ->
  let text := pre +:+ ("{" +:+ mid +:+ "}") +:+ post in
  (find "{" text >=? 0)%Z && (rfind "}" text + 1 >? find "{" text)%Z = true /\
  slice text (find "{" text) (rfind "}" text + 1) = "{" +:+ mid +:+ "}".
Proof.
  intros Hpre Hpost text.
  assert (Hc : chars text = chars pre ++ "{"%uchar :: chars mid ++ "}"%uchar :: chars post).
  { unfold text. rewrite ?chars_app. simpl. now rewrite <- app_assoc. }
  assert (Hf : find "{" text = Z.of_nat (length (chars pre))).
  { unfold find. rewrite Hc, find_from_first by assumption. lia. }
  assert (Hr : rfind "}" text
               = Z.of_nat (length (chars pre) + S (length (chars mid)))).
  { unfold rfind. rewrite Hc.
    change (chars pre ++ "{"%uchar :: chars mid ++ "}"%uchar :: chars post)
      with (chars pre ++ ("{"%uchar :: chars mid) ++ "}"%uchar :: chars post).
    rewrite app_assoc, rfind_from_last by (assumption || lia).
    rewrite length_app. simpl. lia. }
  rewrite Hf, Hr. split.
  - apply andb_true_iff. split; [apply Z.geb_le | apply Z.gtb_lt]; lia.
  - rewrite <- (str_chars text), Hc.
    replace (Z.of_nat (length (chars pre) + S (length (chars mid))) + 1)%Z
      with (Z.of_nat (length (chars pre)
                      + length ("{"%uchar :: chars mid ++ ["}"%uchar]))).
    2:{ simpl. rewrite length_app. simpl. lia. }
    assert (Hm : str ("{"%uchar :: chars mid ++ ["}"%uchar]) = "{" +:+ mid +:+ "}").
    { rewrite <- (str_chars (_ +:+ _)), !chars_app. reflexivity. }
    rewrite <- Hm. 
    replace (chars pre ++ "{"%uchar :: chars mid ++ "}"%uchar :: chars post)
      with (chars pre ++ ("{"%uchar :: chars mid ++ ["}"%uchar]) ++ chars post)
      by (simpl; now rewrite <- app_assoc).
    apply slice_middle.
Qed.

(** C1.  A completion without a brace pair, and more generally one whose
    text from the first opening brace to the last closing brace is not
    accepted by [json.loads], is coerced to the default, unchanged; and a
    [job_match_analysis] whose completion is such a text returns the literal
    default of the operation (match score 70, category scores 75, 65, 70 and
    60, the two strengths, the two improvements) as a value, not as an
    exception.  A completion is requested once [_get_safe_llm] has returned
    a client, which takes an API key. *)
Theorem coerce_falls_back_to_default :
  (forall text default,
      ~ has_brace_pair text \/
      json_loads (slice text (find "{" text) (rfind "}" text + 1)) = None ->
      _safe_json_parse text default = default) /\
  (forall key error World
          (invoke : ChatGroq -> ustr -> World -> outcome ustr * World)
          resume_text job_description llm_choice st llm st1 content w,
      _get_safe_llm (Some key) error World invoke llm_choice st
        = (Returned llm, st1) ->
      invoke llm (job_match_prompt resume_text job_description) (backend st1)
        = (Returned content, w) ->
      ~ has_brace_pair content \/
      json_loads (slice content (find "{" content) (rfind "}" content + 1)) = None ->
      fst (job_match_analysis (Some key) error World invoke
             resume_text job_description llm_choice st)
      = Returned
          (JObj
             [ ("match_score", JInt 70);
               ("category_scores",
                 JObj [ ("skills", JInt 75);
                        ("experience", JInt 65);
                        ("education", JInt 70);
                        ("culture_fit", JInt 60) ]);
               ("strengths",
                 JArr [ JStr "Good foundational skills";
                        JStr "Relevant educational background" ]);
               ("improvements",
                 JArr [ JStr "Gain more industry experience";
                        JStr "Develop missing technical skills" ]) ])).
Proof.
  assert (A : forall text default,
      ~ has_brace_pair text \/
      json_loads (slice text (find "{" text) (rfind "}" text + 1)) = None ->
      _safe_json_parse text default = default).
  { intros text default [H | H];
      [now apply coerce_no_pair | now apply coerce_unparsable]. }
  split; [exact A|].
  intros key error World invoke resume_text job_description llm_choice st
         llm st1 content w Hready Hcall Hprose.
  unfold job_match_analysis. rewrite Hready, Hcall. simpl.
  f_equal. now apply A.
Qed.

(** A prose without any brace. *)
Lemma plain_prose_has_no_pair :
  ~ has_brace_pair "The candidate looks like a good match.".
Proof.
  intros (i & j & _ & Hi & _).
  assert (Hin : In "{"%uchar (chars "The candidate looks like a good match."))
    by (eapply nth_error_In; exact Hi).
  vm_compute in Hin. intuition discriminate.
Qed.

End CoercerDefaultFacts.

Section CoercerDefaultExamples.
#[local] Existing Instance plain_python.

Lemma coerce_falls_back_to_default_witness :
  _safe_json_parse "The candidate looks like a good match." JNull = JNull /\
  fst (job_match_analysis (Some "gsk_example_key") "no key" unit
         (constant_backend "The candidate looks like a good match.")
         "resume" "job" "Groq (Llama-3.1-8B - Fast)"
         {| backend := tt; stdout := [] |})
  = Returned job_match_default.
Proof.
  split.
  - apply (proj1 coerce_falls_back_to_default).
    left. exact plain_prose_has_no_pair.
  - apply (proj2 coerce_falls_back_to_default "gsk_example_key" "no key" unit
             (constant_backend "The candidate looks like a good match.")
             "resume" "job" "Groq (Llama-3.1-8B - Fast)"
             {| backend := tt; stdout := [] |}
             {| model_name := fast_model; api_key := "gsk_example_key" |}
             {| backend := tt; stdout := [] |}
             "The candidate looks like a good match." tt).
    + reflexivity.
    + reflexivity.
    + left. exact plain_prose_has_no_pair.
Defined.

End CoercerDefaultExamples.

Section CoercerObjectFacts.
Context {py : Python}.

(** C2, as the code has it.  When the prose before the object has no
    opening brace and the prose after it has no closing brace, the text the
    coercer parses is the object, and what [json.loads] makes of it is
    returned as it is: it is not compared with the default and no number is
    clamped; [job_match_analysis], once it has its client, returns it as its
    value. *)
Theorem coerce_returns_object_between_prose :
  (forall pre mid post default parsed,
      ~ In "{"%uchar (chars pre) -> ~ In "}"%uchar (chars post) ->
      json_loads ("{" +:+ mid +:+ "}") = Some parsed ->
      _safe_json_parse (pre +:+ ("{" +:+ mid +:+ "}") +:+ post) default = parsed) /\
  (forall key error World
          (invoke : ChatGroq -> ustr -> World -> outcome ustr * World)
          resume_text job_description llm_choice st llm st1
          pre mid post parsed w,
      _get_safe_llm (Some key) error World invoke llm_choice st
        = (Returned llm, st1) ->
      invoke llm (job_match_prompt resume_text job_description) (backend st1)
        = (Returned (pre +:+ ("{" +:+ mid +:+ "}") +:+ post), w) ->
      ~ In "{"%uchar (chars pre) -> ~ In "}"%uchar (chars post) ->
      json_loads ("{" +:+ mid +:+ "}") = Some parsed ->
      fst (job_match_analysis (Some key) error World invoke
             resume_text job_description llm_choice st) = Returned parsed).
Proof.
  assert (A : forall pre mid post default parsed,
      ~ In "{"%uchar (chars pre) -> ~ In "}"%uchar (chars post) ->
      json_loads ("{" +:+ mid +:+ "}") = Some parsed ->
      _safe_json_parse (pre +:+ ("{" +:+ mid +:+ "}") +:+ post) default = parsed).
  { intros pre mid post default parsed Hpre Hpost Hp.
    destruct (coerce_finds_object pre mid post Hpre Hpost) as [Hg Hs].
    unfold _safe_json_parse. rewrite Hg, Hs, Hp. reflexivity. }
  split; [exact A|].
  intros key error World invoke resume_text job_description llm_choice st
         llm st1 pre mid post parsed w Hready Hcall Hpre Hpost Hp.
  unfold job_match_analysis. rewrite Hready, Hcall. simpl.
  f_equal. now apply A.
Qed.

End CoercerObjectFacts.

Section CoercerObjectExamples.
#[local] Existing Instance plain_python.

Lemma coerce_returns_object_between_prose_witness :
  _safe_json_parse
    ("Here is the result: " +:+ ("{" +:+ wrapped_object +:+ "}") +:+ " Regards.")
    job_match_default
  = JObj [ ("match_score", JInt 420); ("strengths", JArr []) ] /\
  fst (job_match_analysis (Some "gsk_example_key") "no key" unit
         (constant_backend
            ("Here is the result: " +:+ ("{" +:+ wrapped_object +:+ "}") +:+ " Regards."))
         "resume" "job" "Groq (Llama-3.1-70B - Powerful)"
         {| backend := tt; stdout := [] |})
  = Returned (JObj [ ("match_score", JInt 420); ("strengths", JArr []) ]).
Proof.
  split.
  - apply (proj1 coerce_returns_object_between_prose).
    + vm_compute. intuition discriminate.
    + vm_compute. intuition discriminate.
    + vm_compute. reflexivity.
  - apply (proj2 coerce_returns_object_between_prose
             "gsk_example_key" "no key" unit
             (constant_backend
                ("Here is the result: " +:+ ("{" +:+ wrapped_object +:+ "}")
                 +:+ " Regards."))
             "resume" "job" "Groq (Llama-3.1-70B - Powerful)"
             {| backend := tt; stdout := [] |}
             {| model_name := powerful_model; api_key := "gsk_example_key" |}
             {| backend := tt; stdout := [] |}
             "Here is the result: " wrapped_object " Regards."
             (JObj [ ("match_score", JInt 420); ("strengths", JArr []) ]) tt).
    + reflexivity.
    + reflexivity.
    + vm_compute. intuition discriminate.
    + vm_compute. intuition discriminate.
    + vm_compute. reflexivity.
Defined.

(** C2, as the specification states it, fails: this completion holds exactly
    one well-formed JSON object, followed by a prose with a closing brace;
    the coercer parses the text up to that last brace, [json.loads] refuses
    it, and the default comes back instead of the object. *)
Lemma coerce_loses_object_before_stray_brace :
  json_objects_in stray_brace_completion = [(0, 19)] /\
  json_loads (slice stray_brace_completion 0 19)
    = Some (JObj [ ("match_score", JInt 42) ]) /\
  _safe_json_parse stray_brace_completion job_match_default = job_match_default /\
  job_match_default <> JObj [ ("match_score", JInt 42) ].
Proof.
  split; [vm_compute; reflexivity|].
  split; [vm_compute; reflexivity|].
  split; [vm_compute; reflexivity|].
  discriminate.
Qed.

End CoercerObjectExamples.

(** ** The model selector: [_get_llm] and [_get_safe_llm] *)

Section ModelPolicyFacts.
Context {py : Python}.

(** C7.  With an API key, [_get_llm] never raises, and the client it
    returns depends on the label by the policy of the source, its tests in
    their order: a label with an [8B] or [Fast] marker gives the
    lightweight model; failing that, a label with a [70B] or [Powerful]
    marker gives the heavyweight model; any other label gives the
    lightweight model.  The two labels of the interface give distinct
    clients, and an unrecognized label gives the lightweight one. *)
Theorem get_llm_policy :
  forall key error choice,
    (exists llm, _get_llm (Some key) error choice = Returned llm) /\
    (has_fast_marker choice = true ->
       _get_llm (Some key) error choice
       = Returned {| model_name := "llama-3.1-8b-instant"; api_key := key |}) /\
    (has_fast_marker choice = false -> has_powerful_marker choice = true ->
       _get_llm (Some key) error choice
       = Returned {| model_name := "llama-3.1-70b-versatile"; api_key := key |}) /\
    (has_fast_marker choice = false -> has_powerful_marker choice = false ->
       _get_llm (Some key) error choice
       = Returned {| model_name := "llama-3.1-8b-instant"; api_key := key |}) /\
    _get_llm (Some key) error "Groq (Llama-3.1-8B - Fast)"
      <> _get_llm (Some key) error "Groq (Llama-3.1-70B - Powerful)" /\
    _get_llm (Some key) error "unrecognized label"
      = Returned {| model_name := "llama-3.1-8b-instant"; api_key := key |}.
Proof.
  intros key error choice.
  unfold _get_llm, has_fast_marker, has_powerful_marker, new_ChatGroq.
  split; [|split; [|split; [|split; [|split]]]].
  - destruct (_ || _); [eauto|]. destruct (_ || _); eauto.
  - intros ->. reflexivity.
  - intros -> ->. reflexivity.
  - intros -> ->. reflexivity.
  - vm_compute. discriminate.
  - reflexivity.
Qed.

End ModelPolicyFacts.

Section ModelPolicyExamples.
#[local] Existing Instance plain_python.

Lemma get_llm_policy_witness :
  _get_llm (Some "gsk_example_key") "no key" "Groq (Llama-3.1-8B - Fast)"
    = Returned {| model_name := "llama-3.1-8b-instant";
                  api_key := "gsk_example_key" |} /\
  _get_llm (Some "gsk_example_key") "no key" "Groq (Llama-3.1-70B - Powerful)"
    = Returned {| model_name := "llama-3.1-70b-versatile";
                  api_key := "gsk_example_key" |} /\
  _get_llm (Some "gsk_example_key") "no key" "something else"
    = Returned {| model_name := "llama-3.1-8b-instant";
                  api_key := "gsk_example_key" |}.
Proof.
  split; [|split].
  - apply (proj1 (proj2 (get_llm_policy "gsk_example_key" "no key"
                           "Groq (Llama-3.1-8B - Fast)"))).
    reflexivity.
  - apply (proj1 (proj2 (proj2 (get_llm_policy "gsk_example_key" "no key"
                                  "Groq (Llama-3.1-70B - Powerful)"))));
      reflexivity.
  - apply (proj1 (proj2 (proj2 (proj2 (get_llm_policy "gsk_example_key" "no key"
                                         "something else")))));
      reflexivity.
Defined.

End ModelPolicyExamples.

Section SafeModelFacts.
Context {py : Python}.

(** C4.  With an API key, [_get_safe_llm] never raises and always returns
    a client, of one of the two models.  When the probe raises, whatever the
    exception, the client is the lightweight one, the backend has been
    called once (its state is the one the probe left) and the exception
    only shows in the line printed; when the probe returns, the client is
    the one [_get_llm] chose. *)
Theorem get_safe_llm_always_returns :
  forall key error World
         (invoke : ChatGroq -> ustr -> World -> outcome ustr * World)
         choice st,
    let ready := _get_safe_llm (Some key) error World invoke choice st in
    (exists llm,
        fst ready = Returned llm /\ api_key llm = key /\
        (model_name llm = "llama-3.1-8b-instant" \/
         model_name llm = "llama-3.1-70b-versatile")) /\
    (forall llm e w,
        _get_llm (Some key) error choice = Returned llm ->
        invoke llm "Say 'test'" (backend st) = (Raised e, w) ->
        fst ready
        = Returned {| model_name := "llama-3.1-8b-instant"; api_key := key |} /\
        backend (snd ready) = w /\
        stdout (snd ready) = stdout st ++
          ["Model unavailable, falling back to llama-3.1-8b-instant. Error: " +:+ e]) /\
    (forall llm a w,
        _get_llm (Some key) error choice = Returned llm ->
        invoke llm "Say 'test'" (backend st) = (Returned a, w) ->
        fst ready = Returned llm /\
        backend (snd ready) = w /\ stdout (snd ready) = stdout st).
Proof.
  intros key error World invoke choice st ready. subst ready.
  unfold _get_safe_llm.
  assert (Hl : exists llm, _get_llm (Some key) error choice = Returned llm /\
                 api_key llm = key /\
                 (model_name llm = "llama-3.1-8b-instant" \/
                  model_name llm = "llama-3.1-70b-versatile")).
  { unfold _get_llm, new_ChatGroq. destruct (_ || _); [eauto 6|].
    destruct (_ || _); eauto 6. }
  destruct Hl as (llm0 & -> & Hk & Hm).
  destruct (invoke llm0 "Say 'test'" (backend st)) as [[a | e] w] eqn:E; simpl.
  - split; [|split].
    + eauto.
    + intros llm e w' H. inversion H; subst. rewrite E. discriminate.
    + intros llm a' w' H. inversion H; subst. rewrite E.
      intros H'. inversion H'; subst. auto.
  - split; [|split].
    + eexists. split; [reflexivity|]. simpl. auto.
    + intros llm e' w' H. inversion H; subst. rewrite E.
      intros H'. inversion H'; subst. auto.
    + intros llm a' w' H. inversion H; subst. rewrite E. discriminate.
Qed.

End SafeModelFacts.

Section SafeModelExamples.
#[local] Existing Instance plain_python.

Lemma get_safe_llm_always_returns_witness :
  fst (_get_safe_llm (Some "gsk_example_key") "no key" unit
         (failing_backend "model decommissioned")
         "Groq (Llama-3.1-70B - Powerful)" {| backend := tt; stdout := [] |})
  = Returned {| model_name := "llama-3.1-8b-instant";
                api_key := "gsk_example_key" |}.
Proof.
  apply (proj1 (proj2 (get_safe_llm_always_returns "gsk_example_key" "no key"
           unit (failing_backend "model decommissioned")
           "Groq (Llama-3.1-70B - Powerful)" {| backend := tt; stdout := [] |}))
           {| model_name := "llama-3.1-70b-versatile";
              api_key := "gsk_example_key" |}
           "model decommissioned" tt).
  - reflexivity.
  - reflexivity.
Defined.

End SafeModelExamples.

(** ** The fact extractor *)

Section EdgeInputsFacts.
Context {py : Python}.

(** C8.  On the empty text every detected fact is its sentinel or empty,
    and both counts are 0. *)
Theorem extract_empty_text :
  _extract_information ""
  = {| email := "Not found";
       phone := "Not found";
       skills := [];
       education := [];
       experience_years := "Not specified";
       raw_text := "";
       word_count := 0;
       character_count := 0 |}.
Proof. vm_compute. reflexivity. Qed.

(** C9.  An upload whose extension is none of [pdf], [docx] and [txt] falls
    through the dispatch of [parse_resume]: no facts, no exception, no
    placeholder text, whatever the document readers would do. *)
Theorem parse_resume_unknown_extension :
  forall pdf_pages docx_paragraphs decode_utf8 name data,
    file_extension name <> "pdf" ->
    file_extension name <> "docx" ->
    file_extension name <> "txt" ->
    parse_resume pdf_pages docx_paragraphs decode_utf8 (Upload name data) = None.
Proof.
  intros pdf_pages docx_paragraphs decode_utf8 name data Hp Hd Ht.
  unfold parse_resume.
  apply ustr_eqb_neq in Hp, Hd, Ht.
  now rewrite Hp, Hd, Ht.
Qed.

End EdgeInputsFacts.

Section EdgeInputsExamples.
#[local] Existing Instance plain_python.

Lemma parse_resume_unknown_extension_witness :
  parse_resume (no_reader (list ustr)) (no_reader (list ustr))
    (no_reader ustr) (Upload "resume.final.RTF" []) = None.
Proof.
  apply parse_resume_unknown_extension; vm_compute; discriminate.
Defined.

End EdgeInputsExamples.

(** ** Regular expressions: facts about the patterns of the extractor *)

Section EmailFacts.
Context {py : Python}.

Section PatternFacts.
Variable s : list char.

Lemma consuming_forward r i j :
  Matches s r i j -> consuming r = true -> i < j.
Proof.
  induction 1 as [| | r1 r2 i j k M1 IH1 M2 IH2 | | | | | |];
    simpl; intros Hc; try discriminate; try lia; auto.
  - apply Matches_bounds in M1 as [H1 _].
    apply Matches_bounds in M2 as [H2 _].
    apply orb_true_iff in Hc as [Hc | Hc]; [apply IH1 in Hc | apply IH2 in Hc]; lia.
  - apply andb_true_iff in Hc as [Hc _]. auto.
  - apply andb_true_iff in Hc as [_ Hc]. auto.
Qed.

(** A match of a consuming pattern starts inside the text. *)
Lemma consuming_inside r i j :
  Matches s r i j -> consuming r = true -> i < length s.
Proof.
  intros M Hc. pose proof (consuming_forward _ _ _ M Hc) as Hlt.
  apply Matches_bounds in M as [_ Hb]. specialize (Hb Hlt). lia.
Qed.

Lemma groupless_caps r i c j c' :
  MatchesC s r i c j c' -> groupless r = true -> c' = c.
Proof.
  induction 1 as [| | r1 r2 i j k c c1 c2 M1 IH1 M2 IH2 | | | |
                  r i j k c c1 c2 Hlt M1 IH1 M2 IH2 | |];
    simpl; intros Hg; try reflexivity; try discriminate; auto.
  - apply andb_true_iff in Hg as [H1 H2].
    rewrite (IH2 H2). auto.
  - apply andb_true_iff in Hg as [H1 _]. auto.
  - apply andb_true_iff in Hg as [_ H2]. auto.
  - rewrite (IH2 Hg). auto.
Qed.

Lemma Matches_star_class p i j :
  Matches s (Star (Class p)) i j <-> i <= j /\ all_between p s i j.
Proof.
  split.
  - intros M. remember (Star (Class p)) as r eqn:Er.
    induction M as [| | | | | r i | r i j k Hlt M1 _ M2 IH2 | |];
      try discriminate.
    + split; [lia|]. intros n Hn. lia.
    + inversion Er; subst.
      destruct (IH2 eq_refl) as [Hle Hall].
      inversion M1 as [| ? ? a Ha Hp | | | | | | |]; subst.
      split; [lia|]. intros n Hn.
      destruct (Nat.eq_dec n i) as [->|Hne]; [eauto|].
      apply Hall. lia.
  - intros [Hle Hall].
    remember (j - i) as d eqn:Ed. revert i Hle Hall Ed.
    induction d as [|d IH]; intros i Hle Hall Ed.
    + assert (j = i) by lia. subst. constructor.
    + destruct (Hall i ltac:(lia)) as (c & Hn & Hp).
      apply M_StarStep with (j := S i);
        [lia | apply M_Class with (a := c); assumption |].
      apply IH; [lia | | lia]. intros n Hn'. apply Hall. lia.
Qed.

Lemma Matches_plus_class p i j :
  Matches s (Plus (Class p)) i j <-> i < j /\ all_between p s i j.
Proof.
  unfold Plus. split.
  - intros M. inversion M as [| | ? ? ? m ? M1 M2 | | | | | |]; subst.
    inversion M1 as [| ? ? a Hn Hp | | | | | | |]; subst.
    apply Matches_star_class in M2 as [Hle Hall].
    split; [lia|]. intros n Hn'.
    destruct (Nat.eq_dec n i) as [->|Hne]; [eauto|].
    apply Hall. lia.
  - intros [Hlt Hall].
    destruct (Hall i ltac:(lia)) as (c & Hn & Hp).
    apply M_Seq with (j := S i); [apply M_Class with (a := c); assumption|].
    apply Matches_star_class. split; [lia|].
    intros n Hn'. apply Hall. lia.
Qed.

Lemma skipn_cons_inv : forall (l : list char) i c rest,
  skipn i l = c :: rest -> nth_error l i = Some c /\ skipn (S i) l = rest.
Proof.
  induction l as [|a l IH]; intros i c rest H.
  - destruct i; discriminate.
  - destruct i as [|i]; simpl in H.
    + inversion H; subst. split; reflexivity.
    + apply IH in H. exact H.
Qed.

Lemma skipn_nth_error : forall (l : list char) i c,
  nth_error l i = Some c -> skipn i l = c :: skipn (S i) l.
Proof.
  induction l as [|a l IH]; intros i c H.
  - destruct i; discriminate.
  - destruct i as [|i]; simpl in H.
    + inversion H; subst. reflexivity.
    + apply IH in H. exact H.
Qed.

Lemma starts_with_skipn_cons c l i :
  starts_with (c :: l) (skipn i s) = true <->
  nth_error s i = Some c /\ starts_with l (skipn (S i) s) = true.
Proof.
  split.
  - intros H. destruct (skipn i s) as [|b rest] eqn:E; simpl in H;
      [discriminate|].
    apply andb_true_iff in H as [Hc Hl].
    apply char_eqb_eq in Hc. subst b.
    apply skipn_cons_inv in E as [Hn Hr]. now rewrite Hr.
  - intros [Hn Hl]. rewrite (skipn_nth_error _ _ _ Hn). simpl.
    now rewrite char_eqb_refl.
Qed.

(** A literal matches where the text continues with it. *)
Lemma Matches_Lit l : forall i j,
  Matches s (Lit l) i j <->
  j = i + length l /\ starts_with l (skipn i s) = true.
Proof.
  induction l as [|c l IH]; intros i j; simpl Lit.
  - split.
    + intros M. inversion M; subst. split; [simpl; lia | reflexivity].
    + intros [-> _]. simpl. rewrite Nat.add_0_r. constructor.
  - split.
    + intros M. inversion M as [| | ? ? ? m ? M1 M2 | | | | | |]; subst.
      inversion M1 as [| ? ? a Hn Hp | | | | | | |]; subst.
      apply char_eqb_eq in Hp. subst a.
      apply IH in M2 as [-> Hs].
      split; [simpl; lia|].
      apply starts_with_skipn_cons. auto.
    + intros [-> Hs]. apply starts_with_skipn_cons in Hs as [Hn Hs].
      apply M_Seq with (j := S i).
      * apply M_Class with (a := c); [exact Hn | apply char_eqb_refl].
      * apply IH. split; [simpl; lia | exact Hs].
Qed.

Lemma starts_with_skipn_app l1 l2 i :
  starts_with (l1 ++ l2) (skipn i s) = true ->
  starts_with l1 (skipn i s) = true.
Proof.
  rewrite !starts_with_spec. intros [post H].
  exists (l2 ++ post). now rewrite H, <- app_assoc.
Qed.
End PatternFacts.

(** ** Regular expressions: the text of a match *)

Section MatchTexts.
Variable s : list char.

Lemma between_app i j k :
  i <= j -> j <= k -> between s i k = between s i j ++ between s j k.
Proof.
  intros Hij Hjk. unfold between.
  replace (k - i) with ((j - i) + (k - j)) by lia.
  rewrite <- take_take_drop, drop_drop.
  now replace (i + (j - i)) with j by lia.
Qed.

Lemma between_cons i j c :
  nth_error s i = Some c -> i < j -> between s i j = c :: between s (S i) j.
Proof.
  intros Hn Hlt. unfold between.
  rewrite (skipn_nth_error _ _ _ Hn).
  replace (j - i) with (S (j - S i)) by lia. reflexivity.
Qed.

Lemma between_empty i : between s i i = [].
Proof. unfold between. now rewrite Nat.sub_diag. Qed.

(** The text of a run of characters of a class. *)
Lemma all_between_text p i j :
  i <= j -> all_between p s i j ->
  length (between s i j) = j - i /\
  Forall (fun c => p c = true) (between s i j).
Proof.
  intros Hle Hall. remember (j - i) as d eqn:Ed. revert i Hle Hall Ed.
  induction d as [|d IH]; intros i Hle Hall Ed.
  - assert (j = i) by lia. subst. rewrite between_empty. split; [reflexivity|].
    constructor.
  - destruct (Hall i ltac:(lia)) as (c & Hn & Hp).
    rewrite (between_cons _ _ _ Hn) by lia.
    destruct (IH (S i) ltac:(lia)) as [Hl Hf].
    + intros n Hn'. apply Hall. lia.
    + lia.
    + split; [simpl; lia | now constructor].
Qed.

(** A match ends inside the text. *)
Lemma between_part i j :
  i <= j -> j <= length s ->
  s = firstn i s ++ between s i j ++ skipn j s.
Proof.
  intros Hij Hj. unfold between.
  rewrite <- (take_drop i s) at 1. f_equal.
  rewrite <- (take_drop (j - i) (drop i s)) at 1. f_equal.
  rewrite drop_drop. now replace (i + (j - i)) with j by lia.
Qed.

Lemma Matches_part r i j :
  Matches s r i j -> i <= length s ->
  exists pre post, s = pre ++ between s i j ++ post.
Proof.
  intros M Hi. apply Matches_bounds in M as [Hle Hin].
  exists (firstn i s), (skipn j s). apply between_part; [exact Hle|].
  destruct (Nat.eq_dec i j) as [->|Hne]; [exact Hi | apply Hin; lia].
Qed.

Lemma Matches_Chr c i j :
  Matches s (Chr c) i j -> j = S i /\ between s i j = [c].
Proof.
  intros M. inversion M as [| ? ? a Hn Hp | | | | | | |]; subst.
  apply char_eqb_eq in Hp. subst a. split; [reflexivity|].
  rewrite (between_cons _ _ _ Hn) by lia. now rewrite between_empty.
Qed.

Lemma Matches_rep_class p n : forall i j,
  Matches s (Rep n (Class p)) i j -> j = i + n /\ all_between p s i j.
Proof.
  induction n as [|n IH]; intros i j M; simpl in M.
  - inversion M; subst. split; [lia|]. intros k Hk. lia.
  - inversion M as [| | ? ? ? m ? M1 M2 | | | | | |]; subst.
    inversion M1 as [| ? ? a Hn Hp | | | | | | |]; subst.
    apply IH in M2 as [-> Hall]. split; [lia|].
    intros k Hk. destruct (Nat.eq_dec k i) as [->|Hne]; [eauto|].
    apply Hall. lia.
Qed.

Lemma Matches_atleast_class p n i j :
  Matches s (AtLeast n (Class p)) i j -> i + n <= j /\ all_between p s i j.
Proof.
  unfold AtLeast. intros M.
  inversion M as [| | ? ? ? m ? M1 M2 | | | | | |]; subst.
  apply Matches_rep_class in M1 as [-> H1].
  apply Matches_star_class in M2 as [Hle H2].
  split; [lia|]. intros k Hk.
  destruct (le_lt_dec (i + n) k); [apply H2 | apply H1]; lia.
Qed.

(** What the email pattern matches has the shape of an address. *)
Lemma email_pattern_shape a b :
  Matches s email_pattern a b -> is_email_shaped (between s a b).
Proof.
  unfold email_pattern. intros M.
  inversion M as [| | ? ? ? m0 ? MB M1 | | | | | |]; subst.
  inversion MB; subst.
  inversion M1 as [| | ? ? ? m1 ? ML M2 | | | | | |]; subst.
  inversion M2 as [| | ? ? ? m2 ? MA M3 | | | | | |]; subst.
  inversion M3 as [| | ? ? ? m3 ? MD M4 | | | | | |]; subst.
  inversion M4 as [| | ? ? ? m4 ? MP M5 | | | | | |]; subst.
  inversion M5 as [| | ? ? ? m5 ? MT MB2 | | | | | |]; subst.
  inversion MB2; subst.
  apply Matches_plus_class in ML as [Hl1 Hl2].
  apply Matches_Chr in MA as [-> Hat].
  apply Matches_plus_class in MD as [Hd1 Hd2].
  apply Matches_Chr in MP as [-> Hdot].
  apply Matches_atleast_class in MT as [Ht1 Ht2].
  destruct (all_between_text email_local m0 m1 ltac:(lia) Hl2) as [Ll Fl].
  destruct (all_between_text email_domain (S m1) m3 ltac:(lia) Hd2) as [Ld Fd].
  destruct (all_between_text email_tld (S m3) b ltac:(lia) Ht2) as [Lt Ft].
  exists (between s m0 m1), (between s (S m1) m3), (between s (S m3) b).
  split.
  - rewrite (between_app m0 m1 b) by lia. f_equal.
    rewrite (between_app m1 (S m1) b), Hat by lia. simpl. f_equal.
    rewrite (between_app (S m1) m3 b) by lia. f_equal.
    rewrite (between_app m3 (S m3) b), Hdot by lia. reflexivity.
  - repeat split; try assumption; try lia.
    + intros E. rewrite E in Ll. simpl in Ll. lia.
    + intros E. rewrite E in Ld. simpl in Ld. lia.
Qed.

(** What the phone pattern matches has the shape of a number. *)
Lemma phone_pattern_shape a b :
  Matches s phone_pattern a b -> is_phone_shaped (between s a b).
Proof.
  unfold phone_pattern. intros M.
  inversion M as [| | ? ? ? m0 ? MO M1 | | | | | |]; subst.
  inversion M1 as [| | ? ? ? m1 ? MF M2 | | | | | |]; subst.
  inversion M2 as [| | ? ? ? m2 ? MB ML | | | | | |]; subst.
  inversion MF as [| ? ? f Hf Hpf | | | | | | |]; subst.
  inversion ML as [| ? ? l Hl Hpl | | | | | | |]; subst.
  apply Matches_atleast_class in MB as [Hb1 Hb2].
  destruct (all_between_text phone_body (S m0) m2 ltac:(lia) Hb2) as [Lb Fb].
  assert (Hlead : length (between s a m0) <= 1 /\
                  Forall (fun c => phone_lead c = true) (between s a m0)).
  { unfold Opt in MO.
    inversion MO as [| | | ? ? ? ? MC | ? ? ? ? ME | | | |]; subst.
    - inversion MC as [| ? ? c Hc Hpc | | | | | | |]; subst.
      rewrite (between_cons _ _ _ Hc), between_empty by lia.
      split; [simpl; lia | now repeat constructor].
    - inversion ME; subst. rewrite between_empty. split; [simpl; lia | constructor]. }
  destruct Hlead as [Hl1 Hl2].
  exists (between s a m0), f, (between s (S m0) m2), l.
  split.
  - assert (a <= m0).
    { apply Matches_bounds in MO. tauto. }
    rewrite (between_app a m0 (S m2)) by lia. f_equal.
    rewrite (between_cons _ _ _ Hf) by lia. f_equal.
    rewrite (between_app (S m0) m2 (S m2)) by lia. f_equal.
    rewrite (between_cons _ _ _ Hl) by lia. now rewrite between_empty.
  - repeat split; try assumption; lia.
Qed.













End MatchTexts.

(** ** [re.findall]: its first element *)

Lemma findall_no_match groups r text :
  search_from r (chars text) 0 = None -> findall groups r text = [].
Proof.
  intros H. unfold findall. simpl. now rewrite H.
Qed.

Lemma findall_first_match groups r text m :
  search_from r (chars text) 0 = Some m ->
  exists rest,
    findall groups r text = str (reported groups (chars text) m) :: rest.
Proof.
  intros H. unfold findall. simpl. rewrite H.
  destruct m as [[a b] c]. simpl. eauto.
Qed.

(** No decimal digit is whitespace. *)
Lemma space_is_not_decimal c : is_space c = true -> is_decimal c = false.
Proof.
  unfold is_space, is_decimal. destruct (is_ascii c).
  - unfold is_digit, in_range. compare_codes.
  - intros H. destruct (wide_decimal c) eqn:E; [|reflexivity].
    apply decimal_not_space in E. congruence.
Qed.

(** Lower-casing brings no backslash in. *)
Lemma lower_from_backslash s l : forall i,
  In backslash (lower_from wide_lower s i l) -> In backslash l.
Proof.
  induction l as [|c l IH]; intros i H; simpl in H; [exact H|].
  apply in_app_or in H as [H | H].
  - destruct (is_ascii c) eqn:E.
    + destruct H as [H | []]. left.
      unfold lower_char, is_upper, in_range, backslash in *.
      revert H. compare_codes.
    + exfalso. exact (lower_no_backslash s i c E H).
  - right. eapply IH. exact H.
Qed.

Lemma lower_backslash text :
  In backslash (chars (lower text)) -> In backslash (chars text).
Proof. apply lower_from_backslash. Qed.

(** ** The years of experience *)

Section YearMentions.
Variable s : list char.

Lemma year_word_starts w j :
  Matches s year_word w j ->
  starts_with (chars "year") (skipn w s) = true \/
  starts_with (chars "yr") (skipn w s) = true.
Proof.
  intros M. unfold year_word in M.
  inversion M as [| | | ? ? ? ? M1 | ? ? ? ? M1 | | | |]; subst;
    inversion M1 as [| | ? ? ? m ? ML MO | | | | | |]; subst.
  - apply (Matches_Lit s (chars "year")) in ML as [_ Hs]. auto.
  - apply (Matches_Lit s (chars "yr")) in ML as [_ Hs]. auto.
Qed.

Lemma year_word_matches w :
  starts_with (chars "year") (skipn w s) = true \/
  starts_with (chars "yr") (skipn w s) = true ->
  exists j, Matches s year_word w j.
Proof.
  intros [H | H].
  - exists (w + length (chars "year")). apply M_AltL.
    apply M_Seq with (j := w + length (chars "year")).
    + apply Matches_Lit. auto.
    + apply M_AltR. constructor.
  - exists (w + length (chars "yr")). apply M_AltR.
    apply M_Seq with (j := w + length (chars "yr")).
    + apply Matches_Lit. auto.
    + apply M_AltR. constructor.
Qed.

Lemma experience_pattern_mention a b :
  Matches s experience_pattern a b <->
  exists e, year_mention s a e /\
    exists w, Matches s (Star (Class is_space)) e w /\ Matches s year_word w b.
Proof.
  unfold experience_pattern. fold year_word. split.
  - intros M.
    inversion M as [| | ? ? ? e ? MG MR | | | | | |]; subst.
    inversion MG as [| | | | | | | | ? ? ? ? MD]; subst.
    inversion MR as [| | ? ? ? w ? MS MY | | | | | |]; subst.
    exists e. split; [|eauto].
    apply Matches_plus_class in MD as [Hlt Hd].
    pose proof MS as MS'.
    apply Matches_star_class in MS' as [Hle Hsp].
    split; [exact Hlt|]. split; [exact Hd|].
    exists w. split; [exact Hle|]. split; [exact Hsp|].
    eapply year_word_starts; eassumption.
  - intros (e & (Hlt & Hd & _) & w & MS & MY).
    apply M_Seq with (j := e).
    + apply M_Group. apply Matches_plus_class. auto.
    + apply M_Seq with (j := w); assumption.
Qed.

Lemma mention_matches a e :
  year_mention s a e -> exists b, Matches s experience_pattern a b.
Proof.
  intros Hm. pose proof Hm as (Hlt & Hd & w & Hle & Hsp & Hy).
  destruct (year_word_matches w Hy) as [b MY].
  exists b. apply experience_pattern_mention.
  exists e. split; [exact Hm|].
  exists w. split; [|exact MY].
  apply Matches_star_class. auto.
Qed.

(** The groups of a match: group 1 is the integer of the mention. *)
Lemma experience_pattern_group a b c :
  MatchesC s experience_pattern a [] b c ->
  exists e, c = [(1, (a, e))] /\ year_mention s a e.
Proof.
  intros MC. unfold experience_pattern in MC.
  inversion MC as [| | ? ? ? e ? ? c1 ? MG MR | | | | | |]; subst.
  inversion MG as [| | | | | | | | ? ? ? ? ? c0 MD]; subst.
  pose proof (groupless_caps _ _ _ _ _ _ MD eq_refl) as ->.
  pose proof (groupless_caps _ _ _ _ _ _ MR eq_refl) as ->.
  exists e. split; [reflexivity|].
  apply MatchesC_Matches in MD, MR.
  apply Matches_plus_class in MD as [Hlt Hd].
  inversion MR as [| | ? ? ? w ? MS MY | | | | | |]; subst.
  apply Matches_star_class in MS as [Hle Hsp].
  split; [exact Hlt|]. split; [exact Hd|].
  exists w. split; [exact Hle|]. split; [exact Hsp|].
  eapply year_word_starts; eassumption.
Qed.

(** The integer of a mention ends where the digits end. *)
Lemma mention_end_not_digit a e :
  year_mention s a e ->
  exists c, nth_error s e = Some c /\ is_decimal c = false.
Proof.
  intros (Hlt & Hd & w & Hle & Hsp & Hy).
  destruct (Nat.eq_dec e w) as [->|Hne].
  - destruct Hy as [Hy | Hy];
      apply starts_with_skipn_cons in Hy as [Hn _];
      eexists; (split; [exact Hn | reflexivity]).
  - destruct (Hsp e ltac:(lia)) as (c & Hn & Hc).
    exists c. split; [exact Hn | now apply space_is_not_decimal].
Qed.

Lemma mention_end_unique a e e' :
  year_mention s a e -> year_mention s a e' -> e = e'.
Proof.
  intros H H'.
  destruct (mention_end_not_digit _ _ H) as (c & Hn & Hc).
  destruct (mention_end_not_digit _ _ H') as (c' & Hn' & Hc').
  destruct H as (Hlt & Hd & _). destruct H' as (Hlt' & Hd' & _).
  destruct (lt_eq_lt_dec e e') as [[Hl | He] | Hl]; [| exact He |].
  - destruct (Hd' e ltac:(lia)) as (d & Hnd & Hdd). congruence.
  - destruct (Hd e' ltac:(lia)) as (d & Hnd & Hdd). congruence.
Qed.
End YearMentions.

(** A consuming pattern that [re.search] does not find matches nowhere. *)
Lemma no_match_anywhere r s :
  consuming r = true -> search_from r s 0 = None ->
  forall i j, ~ Matches s r i j.
Proof.
  intros Hc Hs i j M.
  eapply (search_from_none s r Hs i j); [|exact M].
  pose proof (consuming_inside s r i j M Hc). lia.
Qed.


(** ** The fact extractor: email *)



End EmailFacts.

Section EmailExamples.
#[local] Existing Instance plain_python.




End EmailExamples.

(** ** The fact extractor: years of experience *)

Section ExperienceFacts.
Context {py : Python}.

(** C6, as the code has it.  On the text in lower case: when no integer is
    followed, after whitespace or none, by [year] or [yr], the field is the
    sentinel [Not specified]; otherwise it is the integer of the leftmost
    such mention, whatever mentions come after it. *)
Theorem extract_experience_first_mention :
  forall text,
    let s := chars (lower text) in
    ((forall a e, ~ year_mention s a e) ->
       experience_years (_extract_information text) = "Not specified") /\
    (forall a e,
       year_mention s a e ->
       (forall a' e', year_mention s a' e' -> a <= a') ->
       experience_years (_extract_information text) = str (between s a e)).
Proof.
  intros text s. unfold _extract_information. simpl. fold s.
  destruct (search_from experience_pattern s 0) as [[[a0 b0] c0]|] eqn:E.
  - destruct (findall_first_match true experience_pattern (lower text) _ E)
      as [rest Hf].
    rewrite Hf. fold s. apply search_from_some in E as [MC Hleft].
    apply experience_pattern_group in MC as (e0 & -> & Hm0). split.
    + intros Hno. exfalso. exact (Hno _ _ Hm0).
    + intros a e Hm Hfirst.
      destruct (mention_matches s a e Hm) as [b M].
      assert (a = a0).
      { apply Nat.le_antisymm; [exact (Hfirst _ _ Hm0) | exact (Hleft _ _ M)]. }
      subst a0.
      rewrite (mention_end_unique s a e e0 Hm Hm0). reflexivity.
  - rewrite (findall_no_match true experience_pattern (lower text) E). split.
    + reflexivity.
    + intros a e Hm _. exfalso.
      destruct (mention_matches s a e Hm) as [b M].
      exact (no_match_anywhere experience_pattern s eq_refl E a b M).
Qed.

End ExperienceFacts.

Section ExperienceExamples.
#[local] Existing Instance plain_python.

Lemma extract_experience_first_mention_witness :
  experience_years (_extract_information "Fresh graduate, eager to learn")
    = "Not specified" /\
  experience_years (_extract_information "7 Years of Java, then 2 yrs of Go")
    = str (between (chars (lower "7 Years of Java, then 2 yrs of Go")) 0 1).
Proof.
  split.
  - apply (proj1 (extract_experience_first_mention "Fresh graduate, eager to learn")).
    intros a e Hm. apply mention_matches in Hm as [b M].
    revert M. apply no_match_anywhere; vm_compute; reflexivity.
  - apply (proj2 (extract_experience_first_mention "7 Years of Java, then 2 yrs of Go")).
    + split; [lia|]. split.
      * intros n Hn. assert (n = 0) by lia. subst n.
        eexists. split; reflexivity.
      * exists 2. split; [lia|]. split.
        -- intros n Hn. assert (n = 1) by lia. subst n.
           eexists. split; reflexivity.
        -- left. reflexivity.
    + intros a' e' _. lia.
Defined.

(** C6, as the specification states it, fails twice.  The sentinel of the
    code has a capital letter; and whitespace may stand between the integer
    and the word: in the second text the field is the 3 at the start, which
    no [year] follows immediately, while the 5 has one right after it. *)
Lemma experience_sentinel_and_whitespace :
  (forall a e, ~ year_mention (chars (lower "Fresh graduate, eager to learn")) a e) /\
  experience_years (_extract_information "Fresh graduate, eager to learn")
    <> "not specified" /\
  experience_years (_extract_information "3 years 5years") = "3" /\
  ~ immediately_followed (chars (lower "3 years 5years")) 0 1 /\
  immediately_followed (chars (lower "3 years 5years")) 8 9.
Proof.
  split; [|split; [|split; [|split]]].
  - intros a e Hm. apply mention_matches in Hm as [b M].
    revert M. apply no_match_anywhere; vm_compute; reflexivity.
  - vm_compute. discriminate.
  - vm_compute. reflexivity.
  - intros (_ & _ & [H | H]); vm_compute in H; discriminate.
  - split; [lia|]. split.
    + intros n Hn. assert (n = 8) by lia. subst n.
      eexists. split; reflexivity.
    + left. reflexivity.
Qed.

End ExperienceExamples.

(** ** The keyword loops *)

Section SkillsFacts.
Context {py : Python}.

(** [re.escape] protects a text so that the pattern denotes the text. *)
Lemma escaped_literal_escape keyword :
  escaped_literal (chars (re_escape keyword)) = chars keyword.
Proof.
  unfold re_escape. rewrite chars_str.
  induction (chars keyword) as [|c l IH]; [reflexivity|].
  simpl flat_map. destruct (is_special c) eqn:E; simpl.
  - rewrite ?char_eqb_refl. now rewrite IH.
  - destruct (char_eqb c backslash) eqn:Eb.
    + apply char_eqb_eq in Eb. subst c. vm_compute in E. discriminate.
    + now rewrite IH.
Qed.

Lemma word_pattern_escape keyword :
  word_pattern (re_escape keyword) = Seq WordB (Seq (Lit (chars keyword)) WordB).
Proof.
  unfold word_pattern. now rewrite escaped_literal_escape.
Qed.

Lemma boundary_inside s i : boundary s i = true -> i <= length s.
Proof.
  unfold boundary, is_word_at. intros H.
  destruct (le_lt_dec i (length s)) as [|Hlt]; [assumption|]. exfalso.
  assert (H1 : nth_error s i = None) by (apply nth_error_None; lia).
  rewrite H1 in H. destruct i as [|p]; [discriminate|].
  assert (H2 : nth_error s p = None) by (apply nth_error_None; lia).
  rewrite H2 in H. discriminate.
Qed.

(** [\b] between two parts of a text. *)
Lemma boundary_split pre post :
  boundary (pre ++ post) (length pre) = xorb (ends_word pre) (begins_word post).
Proof.
  unfold boundary. f_equal.
  - destruct pre as [|a pre'] using rev_ind; [reflexivity|].
    rewrite length_app. simpl. rewrite Nat.add_1_r.
    unfold is_word_at, ends_word.
    rewrite <- app_assoc, nth_error_app2, Nat.sub_diag by lia. simpl.
    now rewrite rev_unit.
  - unfold is_word_at, begins_word.
    rewrite nth_error_app2, Nat.sub_diag by lia. now destruct post.
Qed.

Lemma ends_word_app pre l :
  l <> [] -> ends_word (pre ++ l) = ends_word l.
Proof.
  intros Hl. unfold ends_word. rewrite rev_app_distr.
  destruct (rev l) as [|c r] eqn:E; [|reflexivity].
  exfalso. apply Hl. apply (f_equal (@rev char)) in E.
  now rewrite rev_involutive in E.
Qed.

Lemma begins_word_app l post :
  l <> [] -> begins_word (l ++ post) = begins_word l.
Proof. intros Hl. destruct l; [congruence | reflexivity]. Qed.

(** What the test of the keyword loops finds: the keyword in the lowered
    text, with [\b] holding on both sides. *)
Lemma keyword_found_iff text keyword :
  keyword_found text keyword = true <->
  exists pre post,
    chars (lower text) = pre ++ chars keyword ++ post /\
    xorb (ends_word pre) (begins_word (chars keyword ++ post)) = true /\
    xorb (ends_word (pre ++ chars keyword)) (begins_word post) = true.
Proof.
  unfold keyword_found, search.
  rewrite word_pattern_escape.
  set (s := chars (lower text)).
  set (r := Seq WordB (Seq (Lit (chars keyword)) WordB)).
  split.
  - destruct (search_from r s 0) as [[[a b] c]|] eqn:E; [|discriminate].
    intros _. apply search_from_some in E as [MC _].
    apply MatchesC_Matches in MC. unfold r in MC.
    inversion MC as [| | ? ? ? m ? MB MR | | | | | |]; subst.
    inversion MB as [| | | | | | | ? Hb1 |]; subst.
    inversion MR as [| | ? ? ? m' ? ML MB2 | | | | | |]; subst.
    inversion MB2 as [| | | | | | | ? Hb2 |]; subst.
    apply Matches_Lit in ML as [-> Hs].
    apply starts_with_spec in Hs as [post Hpost].
    pose proof (boundary_inside _ _ Hb1) as Hle.
    assert (Hsplit : s = firstn m s ++ chars keyword ++ post).
    { rewrite <- Hpost. symmetry. apply firstn_skipn. }
    assert (Hlen : length (firstn m s) = m) by (rewrite length_firstn; lia).
    exists (firstn m s), post. split; [exact Hsplit|]. split.
    + rewrite <- boundary_split, <- Hsplit, Hlen. exact Hb1.
    + rewrite <- boundary_split, <- app_assoc, <- Hsplit, length_app, Hlen.
      exact Hb2.
  - intros (pre & post & Hsplit & Hb1 & Hb2).
    assert (M : Matches s r (length pre) (length pre + length (chars keyword))).
    { unfold r. apply M_Seq with (j := length pre).
      - constructor. rewrite Hsplit, boundary_split. exact Hb1.
      - apply M_Seq with (j := length pre + length (chars keyword)).
        + apply Matches_Lit. split; [reflexivity|].
          apply starts_with_spec. exists post.
          rewrite Hsplit. now rewrite drop_app_length.
        + constructor.
          rewrite Hsplit, app_assoc, <- length_app, boundary_split. exact Hb2. }
    destruct (search_from r s 0) eqn:E; [reflexivity|]. exfalso.
    eapply (search_from_none s r E); [|exact M].
    rewrite Hsplit, length_app. lia.
Qed.

(** A keyword that is found stands in the lowered text. *)
Lemma keyword_found_inside text keyword :
  keyword_found text keyword = true ->
  exists pre post, chars (lower text) = pre ++ chars keyword ++ post.
Proof.
  intros H. apply keyword_found_iff in H as (pre & post & H & _). eauto.
Qed.

(** For a keyword that begins and ends with a word character, the test of
    the loops is the whole-word occurrence of the specification. *)
Lemma keyword_found_whole_word text keyword :
  begins_word (chars keyword) = true -> ends_word (chars keyword) = true ->
  keyword_found text keyword = true <-> occurs_as_whole_word keyword text.
Proof.
  intros Hb He.
  assert (Hne : chars keyword <> []) by (intros E; rewrite E in Hb; discriminate).
  rewrite keyword_found_iff. unfold occurs_as_whole_word. split.
  - intros (pre & post & Hsplit & H1 & H2).
    rewrite begins_word_app, Hb in H1 by assumption.
    rewrite ends_word_app, He in H2 by assumption.
    exists pre, post. split; [exact Hsplit|].
    unfold not_word_before, not_word_after.
    unfold ends_word in H1. unfold begins_word in H2.
    split.
    + destruct (rev pre); [exact I|]. now destruct (is_word n).
    + destruct post; [exact I|]. now destruct (is_word n).
  - intros (pre & post & Ht & Hpre & Hpost).
    exists pre, post. split; [exact Ht|].
    rewrite begins_word_app, Hb by assumption.
    rewrite ends_word_app, He by assumption.
    unfold not_word_before in Hpre. unfold not_word_after in Hpost.
    unfold ends_word, begins_word. split.
    + destruct (rev pre); [reflexivity|]. now rewrite Hpre.
    + destruct post; [reflexivity|]. now rewrite Hpost.
Qed.

(** ** The fact extractor: skills *)

Lemma skills_extract text :
  skills (_extract_information text)
  = List.filter (fun skill => keyword_found text skill) skill_keywords.
Proof. reflexivity. Qed.

Lemma education_extract text :
  education (_extract_information text)
  = list_set (List.filter (fun keyword => keyword_found text keyword)
                education_keywords).
Proof. reflexivity. Qed.

Lemma skill_keywords_are_words :
  forall term, In term skill_keywords ->
    begins_word (chars term) = true /\ ends_word (chars term) = true.
Proof.
  assert (H : forallb (fun k => begins_word (chars k) && ends_word (chars k))
                skill_keywords = true) by (vm_compute; reflexivity).
  intros term Hin.
  apply andb_true_iff. exact (proj1 (forallb_forall _ _) H term Hin).
Qed.

Lemma skill_keywords_distinct : List.NoDup skill_keywords.
Proof.
  apply (proj1 (NoDup_ListNoDup skill_keywords)).
  apply (bool_decide_unpack (NoDup skill_keywords)). vm_compute. exact I.
Qed.

(** C3, as the code has it.  The skills of a text are terms of the skill
    vocabulary, which has 38 terms: exactly those that occur in the text as
    whole words, whatever the case of its letters; and none comes twice. *)
Theorem extract_skills_whole_words :
  forall text,
    length skill_keywords = 38 /\
    (forall term,
        In term (skills (_extract_information text)) <->
        In term skill_keywords /\ occurs_as_whole_word term text) /\
    List.NoDup (skills (_extract_information text)).
Proof.
  intros text. split; [reflexivity|].
  rewrite skills_extract. split.
  - intros term. rewrite filter_In. split.
    + intros [Hin Hf]. split; [exact Hin|].
      destruct (skill_keywords_are_words term Hin) as [Hb He].
      now apply keyword_found_whole_word.
    + intros [Hin Ho]. split; [exact Hin|].
      destruct (skill_keywords_are_words term Hin) as [Hb He].
      now apply keyword_found_whole_word.
  - apply List.NoDup_filter. exact skill_keywords_distinct.
Qed.

End SkillsFacts.

Section SkillsExamples.
#[local] Existing Instance plain_python.

Lemma extract_skills_whole_words_witness :
  In "sql" (skills (_extract_information "Ten years of SQL, and some NoSQL.")).
Proof.
  apply (proj1 (proj2 (extract_skills_whole_words
                         "Ten years of SQL, and some NoSQL."))).
  split.
  - vm_compute. tauto.
  - exists (chars "ten years of "), (chars ", and some nosql.").
    split; [reflexivity|]. split; reflexivity.
Defined.

(** C3, as the specification states it, fails on the size of the
    vocabulary: no set of 35 terms holds the skills of every text, since a
    text with every term of the vocabulary has 38 distinct skills. *)
Lemma skills_exceed_35_terms :
  ~ exists vocabulary : list ustr,
      length vocabulary = 35 /\
      forall text term,
        In term (skills (_extract_information text)) -> In term vocabulary.
Proof.
  intros (vocabulary & Hlen & Hsub).
  assert (Hall : skills (_extract_information every_skill) = skill_keywords)
    by (vm_compute; reflexivity).
  assert (Hincl : incl skill_keywords vocabulary).
  { intros term Hin. apply (Hsub every_skill). now rewrite Hall. }
  pose proof (List.NoDup_incl_length skill_keywords_distinct Hincl) as Hle.
  rewrite Hlen in Hle. vm_compute in Hle. lia.
Qed.

End SkillsExamples.

(** ** The fact extractor: education *)

Section EducationFacts.
Context {py : Python}.

Lemma list_set_In l keyword : In keyword (list_set l) <-> In keyword l.
Proof.
  unfold list_set.
  rewrite <- !list_elem_of_In, elem_of_elements, elem_of_list_to_set.
  reflexivity.
Qed.

Lemma list_set_NoDup l : List.NoDup (list_set l).
Proof.
  unfold list_set. apply NoDup_ListNoDup. apply NoDup_elements.
Qed.

(** A keyword with a backslash is not found in a text without one. *)
Lemma backslash_keyword_not_found text keyword :
  ~ In backslash (chars text) -> In backslash (chars keyword) ->
  keyword_found text keyword = false.
Proof.
  intros Hno Hin.
  destruct (keyword_found text keyword) eqn:E; [|reflexivity]. exfalso.
  apply keyword_found_inside in E as (pre & post & Hs).
  apply Hno. apply lower_backslash. rewrite Hs.
  apply in_or_app. right. apply in_or_app. now left.
Qed.

(** C10.  In a text without backslash the two keywords written with a
    backslash are never found: escaped once more by [re.escape], each
    denotes its own three characters, the backslash among them.  So the
    education signals are among the six other keywords, and the set makes
    each of them come once, [phd] too. *)
Theorem extract_education_without_backslash :
  forall text,
    ~ In backslash (chars text) ->
    (forall keyword,
        In keyword (education (_extract_information text)) ->
        In keyword ["bachelor"; "master"; "phd"; "degree"; "university"; "college"]) /\
    List.NoDup (education (_extract_information text)) /\
    keyword_found text "b\." = false /\
    keyword_found text "m\." = false /\
    escaped_literal (chars (re_escape "b\.")) = ["b"%uchar; backslash; "."%uchar] /\
    escaped_literal (chars (re_escape "m\.")) = ["m"%uchar; backslash; "."%uchar].
Proof.
  intros text Hno.
  assert (Hb : keyword_found text "b\." = false)
    by (apply backslash_keyword_not_found; [exact Hno | vm_compute; tauto]).
  assert (Hm : keyword_found text "m\." = false)
    by (apply backslash_keyword_not_found; [exact Hno | vm_compute; tauto]).
  split; [|split; [|split; [|split; [|split]]]];
    try assumption; try reflexivity.
  - intros keyword Hin. rewrite education_extract in Hin.
    apply (proj1 (list_set_In _ _)) in Hin.
    apply (proj1 (filter_In _ _ _)) in Hin as [Hin Hf].
    unfold education_keywords in Hin.
    destruct Hin as [<- | [<- | [<- | [<- | [<- | [<- | [<- | [<- | [<- | []]]]]]]]]];
      try (cbn [In]; tauto); congruence.
  - rewrite education_extract. apply list_set_NoDup.
Qed.

End EducationFacts.

Section EducationExamples.
#[local] Existing Instance plain_python.

Lemma extract_education_without_backslash_witness :
  List.NoDup
    (education (_extract_information
       "PhD in physics, University of Leeds; B.Sc. and M.Sc. before")) /\
  keyword_found "PhD in physics, University of Leeds; B.Sc. and M.Sc. before"
    "b\." = false.
Proof.
  split.
  - apply (extract_education_without_backslash
             "PhD in physics, University of Leeds; B.Sc. and M.Sc. before").
    vm_compute. intuition discriminate.
  - apply (extract_education_without_backslash
             "PhD in physics, University of Leeds; B.Sc. and M.Sc. before").
    vm_compute. intuition discriminate.
Defined.

(** ** The scenarios of the specification *)

(** The resume of the end-to-end scenario of the fact extractor. *)
Example extract_john_doe :
  let facts := _extract_information
                 "John Doe john@x.com Python SQL 5 years experience" in
  email facts = "john@x.com" /\
  skills facts = ["python"; "sql"] /\
  experience_years facts = "5".
Proof. vm_compute. repeat split. Qed.

(** A job match on a backend whose first call, the probe, fails: the
    heavyweight model was asked for, the completion is a prose, the result
    is the default; the backend has been called twice and one line has been
    printed. *)
Example job_match_after_failed_probe :
  job_match_analysis (Some "gsk_example_key") "no key" nat
    (probe_failing_backend "rate limit" "Looks like a fair match.")
    "resume" "job" "Groq (Llama-3.1-70B - Powerful)"
    {| backend := 0; stdout := [] |}
  = (Returned job_match_default,
     {| backend := 2;
        stdout := ["Model unavailable, falling back to llama-3.1-8b-instant. Error: rate limit"] |}).
Proof. vm_compute. reflexivity. Qed.

End EducationExamples.

(** * Further properties of the code *)

(** ** The result coercer: what it can return *)

Section CoercerProseFacts.
Context {py : Python}.

Lemma object_members_dict f : forall depth l pairs v rest,
  object_members f depth l pairs = Some (v, rest) -> exists d, v = JObj d.
Proof.
  induction f as [|f IH]; intros depth l pairs v rest H; [discriminate|].
  cbn [object_members] in H.
  destruct (scanstring l) as [[key l1]|]; [|discriminate].
  destruct (skip_ws l1) as [|c l2]; [discriminate|].
  destruct (char_eqb c ":"); [|discriminate].
  destruct (scan_once f depth (skip_ws l2)) as [[value l3]|]; [|discriminate].
  cbv zeta in H.
  destruct (skip_ws l3) as [|d l4]; [discriminate|].
  destruct (char_eqb d "}"); [inversion H; eauto|].
  destruct (char_eqb d ","); [|discriminate].
  destruct (skip_ws l4) as [|q l5]; [discriminate|].
  destruct (char_eqb q dquote); [|discriminate].
  eapply IH; exact H.
Qed.

Lemma json_loads_brace s l v :
  chars s = "{"%uchar :: l -> json_loads s = Some v -> exists d, v = JObj d.
Proof.
  intros Hs H. unfold json_loads in H. rewrite Hs in H.
  change (skip_ws ("{"%uchar :: l)) with ("{"%uchar :: l) in H.
  replace (2 * length ("{"%uchar :: l) + 2) with (S (2 * length l + 3)) in H
    by (simpl; lia).
  cbn [scan_once] in H.
  change (char_eqb "{" dquote) with false in H.
  change (char_eqb "{" "{") with true in H. cbv iota in H.
  destruct recursion_left as [|inner]; [discriminate|].
  destruct (skip_ws l) as [|d l2]; [discriminate|].
  destruct (char_eqb d "}").
  - destruct (skip_ws l2); inversion H; eauto.
  - destruct (char_eqb d dquote); [|discriminate].
    destruct (object_members _ _ l2 []) as [[v' rest]|] eqn:E; [|discriminate].
    apply object_members_dict in E as [d' ->].
    destruct (skip_ws rest); inversion H; eauto.
Qed.

(** Under the guard of [_safe_json_parse] the slice starts at a brace. *)
Lemma guarded_slice_starts_with_brace text :
  (find "{" text >=? 0)%Z && (rfind "}" text + 1 >? find "{" text)%Z = true ->
  exists l,
    chars (slice text (find "{" text) (rfind "}" text + 1)) = "{"%uchar :: l.
Proof.
  intros Hg. apply andb_true_iff in Hg as [H1 H2].
  apply Z.geb_le in H1. apply Z.gtb_lt in H2.
  destruct (find_from_some "{"%uchar (chars text) 0%Z (find "{" text)
              ltac:(lia) eq_refl H1) as [Hn _].
  rewrite Z.sub_0_r in Hn.
  assert (Hlt : Z.to_nat (find "{" text) < length (chars text))
    by (apply nth_error_Some; congruence).
  unfold slice, clip, len.
  destruct (find "{" text <? 0)%Z eqn:E1; [apply Z.ltb_lt in E1; lia|].
  destruct (rfind "}" text + 1 <? 0)%Z eqn:E2; [apply Z.ltb_lt in E2; lia|].
  rewrite chars_str, (Z.min_l (find "{" text)) by lia.
  rewrite (skipn_nth_error _ _ _ Hn).
  remember (Z.to_nat (Z.min (rfind "}" text + 1) (Z.of_nat (length (chars text)))
                      - find "{" text)) as k eqn:Ek.
  destruct k as [|k]; [exfalso; clear - Ek Hlt H1 H2; lia|]. simpl. eauto.
Qed.

(** X1.  Whatever the completion, [_safe_json_parse] returns the default or
    a dictionary: the text it parses starts with a brace, and what
    [json.loads] makes of such a text is a [dict]. *)
Theorem coerce_default_or_dict :
  forall text default,
    _safe_json_parse text default = default \/
    exists d, _safe_json_parse text default = JObj d.
Proof.
  intros text default. unfold _safe_json_parse.
  destruct ((find "{" text >=? 0)%Z && (rfind "}" text + 1 >? find "{" text)%Z)
    eqn:Hg; [|now left].
  destruct (guarded_slice_starts_with_brace text Hg) as [l Hl].
  destruct (json_loads _) as [v|] eqn:E; [|now left].
  right. eapply json_loads_brace; eassumption.
Qed.

(** ** The result coercer: prose around the text *)

Lemma find_from_bounds c l : forall i,
  In c l -> (i <= find_from c l i < i + Z.of_nat (length l))%Z.
Proof.
  induction l as [|a l IH]; intros i Hin; [destruct Hin|].
  simpl find_from. destruct (char_eqb a c) eqn:E.
  - simpl length. lia.
  - destruct Hin as [-> | Hin]; [rewrite char_eqb_refl in E; discriminate|].
    specialize (IH (i + 1)%Z Hin). simpl length. lia.
Qed.

Lemma find_from_app_in c l1 l2 : forall i,
  In c l1 -> find_from c (l1 ++ l2) i = find_from c l1 i.
Proof.
  induction l1 as [|a l1 IH]; intros i Hin; [destruct Hin|].
  simpl. destruct (char_eqb a c) eqn:E; [reflexivity|].
  destruct Hin as [-> | Hin]; [rewrite char_eqb_refl in E; discriminate|].
  now apply IH.
Qed.

Lemma find_from_app_out c l1 l2 : forall i,
  ~ In c l1 ->
  find_from c (l1 ++ l2) i = find_from c l2 (i + Z.of_nat (length l1))%Z.
Proof.
  induction l1 as [|a l1 IH]; intros i Hno; simpl.
  - now rewrite Z.add_0_r.
  - destruct (char_eqb a c) eqn:E.
    + apply char_eqb_eq in E. subst. exfalso. apply Hno. now left.
    + rewrite IH by (intros H; apply Hno; now right).
      f_equal. lia.
Qed.

Lemma find_from_shift c l : forall i k,
  In c l -> find_from c l (i + k)%Z = (find_from c l i + k)%Z.
Proof.
  induction l as [|a l IH]; intros i k Hin; [destruct Hin|].
  simpl. destruct (char_eqb a c) eqn:E; [reflexivity|].
  destruct Hin as [-> | Hin]; [rewrite char_eqb_refl in E; discriminate|].
  replace (i + k + 1)%Z with (i + 1 + k)%Z by lia. now apply IH.
Qed.

Lemma rfind_from_bounds c l : forall i,
  (0 <= i)%Z ->
  rfind_from c l i = (-1)%Z \/
  (i <= rfind_from c l i < i + Z.of_nat (length l))%Z.
Proof.
  induction l as [|a l IH]; intros i Hi; simpl rfind_from; [now left|].
  destruct (IH (i + 1)%Z ltac:(lia)) as [H | H].
  - rewrite H. simpl. destruct (char_eqb a c); [right; simpl length; lia | now left].
  - destruct (0 <=? rfind_from c l (i + 1))%Z eqn:E;
      [right; simpl length; lia|].
    apply Z.leb_gt in E. lia.
Qed.

Lemma rfind_from_found c l : forall i,
  (0 <= i)%Z -> In c l -> (i <= rfind_from c l i < i + Z.of_nat (length l))%Z.
Proof.
  induction l as [|a l IH]; intros i Hi Hin; [destruct Hin|].
  simpl rfind_from. simpl length.
  destruct (in_dec N.eq_dec c l) as [Hl | Hl].
  - specialize (IH (i + 1)%Z ltac:(lia) Hl).
    destruct (0 <=? rfind_from c l (i + 1))%Z eqn:E; [lia|].
    apply Z.leb_gt in E. lia.
  - rewrite rfind_from_none by assumption. simpl.
    destruct Hin as [-> | Hin]; [|contradiction].
    rewrite char_eqb_refl. lia.
Qed.

Lemma rfind_from_app_out c l1 l2 : forall i,
  ~ In c l2 -> rfind_from c (l1 ++ l2) i = rfind_from c l1 i.
Proof.
  induction l1 as [|a l1 IH]; intros i Hno; simpl.
  - now apply rfind_from_none.
  - now rewrite IH.
Qed.

Lemma rfind_from_app_in c l1 l2 : forall i,
  (0 <= i)%Z -> In c l2 ->
  rfind_from c (l1 ++ l2) i = rfind_from c l2 (i + Z.of_nat (length l1))%Z.
Proof.
  induction l1 as [|a l1 IH]; intros i Hi Hin; simpl.
  - now rewrite Z.add_0_r.
  - rewrite IH by (assumption || lia).
    pose proof (rfind_from_found c l2 (i + 1 + Z.of_nat (length l1))%Z
                  ltac:(lia) Hin) as Hb.
    destruct (0 <=? _)%Z eqn:E; [f_equal; lia|].
    apply Z.leb_gt in E. lia.
Qed.

Lemma rfind_from_shift c l : forall i k,
  (0 <= i)%Z -> (0 <= k)%Z -> In c l ->
  rfind_from c l (i + k)%Z = (rfind_from c l i + k)%Z.
Proof.
  induction l as [|a l IH]; intros i k Hi Hk Hin; [destruct Hin|].
  simpl rfind_from.
  destruct (in_dec N.eq_dec c l) as [Hl | Hl].
  - replace (i + k + 1)%Z with (i + 1 + k)%Z by lia.
    rewrite IH by (assumption || lia).
    pose proof (rfind_from_found c l (i + 1)%Z ltac:(lia) Hl) as Hb.
    destruct (0 <=? rfind_from c l (i + 1) + k)%Z eqn:E1;
      [|apply Z.leb_gt in E1; lia].
    destruct (0 <=? rfind_from c l (i + 1))%Z eqn:E2;
      [reflexivity | apply Z.leb_gt in E2; lia].
  - rewrite !rfind_from_none by assumption. simpl.
    destruct Hin as [-> | Hin]; [|contradiction].
    now rewrite char_eqb_refl.
Qed.

(** A slice inside the middle part of a text is a slice of that part. *)
Lemma slice_inside pre mid post a b :
  (0 <= a <= b)%Z -> (b <= Z.of_nat (length mid))%Z ->
  slice (str (pre ++ mid ++ post))
        (Z.of_nat (length pre) + a) (Z.of_nat (length pre) + b)
  = slice (str mid) a b.
Proof.
  intros Ha Hb. unfold slice, clip, len. rewrite !chars_str, !length_app.
  repeat match goal with
  | |- context [(?x <? 0)%Z] =>
      let E := fresh "E" in
      destruct (x <? 0)%Z eqn:E; [apply Z.ltb_lt in E; lia|]
  end.
  rewrite !Z.min_l by lia.
  replace (Z.to_nat (Z.of_nat (length pre) + a)) with (length pre + Z.to_nat a)
    by lia.
  replace (Z.to_nat (Z.of_nat (length pre) + b - (Z.of_nat (length pre) + a)))
    with (Z.to_nat (b - a)) by lia.
  rewrite <- drop_drop, drop_app_length.
  f_equal.
  rewrite <- (take_drop (Z.to_nat a) mid) at 1.
  rewrite <- app_assoc, drop_app_length'
    by (rewrite length_take; lia).
  rewrite take_app_le; [reflexivity|].
  rewrite length_drop. lia.
Qed.

Lemma coerce_prose :
  forall pre text post default,
    ~ In "{"%uchar (chars pre) -> ~ In "}"%uchar (chars post) ->
    _safe_json_parse (pre +:+ text +:+ post) default
    = _safe_json_parse text default.
Proof.
  intros pre text post default Hpre Hpost.
  set (P := chars pre). set (T := chars text). set (Q := chars post).
  assert (Hw : pre +:+ text +:+ post = str (P ++ T ++ Q)).
  { rewrite <- (str_chars (pre +:+ text +:+ post)), !chars_app. reflexivity. }
  assert (Hfw : find "{" (pre +:+ text +:+ post)
                = find_from "{"%uchar (T ++ Q) (Z.of_nat (length P))).
  { unfold find. rewrite Hw, chars_str.
    now rewrite find_from_app_out by assumption. }
  assert (Hrw : rfind "}" (pre +:+ text +:+ post) = rfind_from "}"%uchar (P ++ T) 0).
  { unfold rfind. rewrite Hw, chars_str, (app_assoc P T Q).
    now rewrite rfind_from_app_out by assumption. }
  pose proof (rfind_from_bounds "}"%uchar (P ++ T) 0%Z ltac:(lia)) as HrPT.
  rewrite length_app in HrPT.
  unfold _safe_json_parse. rewrite Hfw, Hrw.
  destruct (in_dec N.eq_dec "{"%uchar T) as [Ho | Ho].
  - pose proof (find_from_bounds "{"%uchar T 0%Z Ho) as Hf0.
    change (find_from "{"%uchar T 0) with (find "{" text) in Hf0.
    assert (HF : find_from "{"%uchar (T ++ Q) (Z.of_nat (length P))
                 = (Z.of_nat (length P) + find "{" text)%Z).
    { rewrite find_from_app_in by assumption.
      replace (Z.of_nat (length P)) with (0 + Z.of_nat (length P))%Z at 1 by lia.
      rewrite find_from_shift by assumption.
      change (find_from "{"%uchar T 0) with (find "{" text). lia. }
    rewrite HF.
    destruct (in_dec N.eq_dec "}"%uchar T) as [Hc | Hc].
    + pose proof (rfind_from_found "}"%uchar T 0%Z ltac:(lia) Hc) as Hr0.
      change (rfind_from "}"%uchar T 0) with (rfind "}" text) in Hr0.
      assert (HR : rfind_from "}"%uchar (P ++ T) 0
                   = (Z.of_nat (length P) + rfind "}" text)%Z).
      { rewrite rfind_from_app_in by (assumption || lia).
        rewrite rfind_from_shift by (assumption || lia).
        change (rfind_from "}"%uchar T 0) with (rfind "}" text). lia. }
      rewrite HR.
      destruct ((find "{" text >=? 0)%Z
                && (rfind "}" text + 1 >? find "{" text)%Z) eqn:G.
      * apply andb_true_iff in G as [G1 G2].
        apply Z.geb_le in G1. apply Z.gtb_lt in G2.
        replace ((Z.of_nat (length P) + find "{" text >=? 0)%Z
                 && (Z.of_nat (length P) + rfind "}" text + 1
                     >? Z.of_nat (length P) + find "{" text)%Z) with true.
        2:{ symmetry. apply andb_true_iff.
            split; [apply Z.geb_le | apply Z.gtb_lt]; lia. }
        rewrite Hw.
        replace (Z.of_nat (length P) + rfind "}" text + 1)%Z
          with (Z.of_nat (length P) + (rfind "}" text + 1))%Z by lia.
        rewrite slice_inside by lia.
        unfold T. now rewrite str_chars.
      * replace ((Z.of_nat (length P) + find "{" text >=? 0)%Z
                 && (Z.of_nat (length P) + rfind "}" text + 1
                     >? Z.of_nat (length P) + find "{" text)%Z) with false;
          [reflexivity|].
        symmetry. apply andb_false_iff in G. apply andb_false_iff.
        destruct G as [G | G].
        -- rewrite Z.geb_leb in G. apply Z.leb_gt in G. lia.
        -- right. rewrite Z.gtb_ltb in G. apply Z.ltb_ge in G.
           rewrite Z.gtb_ltb. apply Z.ltb_ge. lia.
    + rewrite rfind_from_app_out by assumption.
      assert (HrT : rfind "}" text = (-1)%Z)
        by (unfold rfind; now apply rfind_from_none).
      rewrite HrT.
      pose proof (rfind_from_bounds "}"%uchar P 0%Z ltac:(lia)) as HrP.
      replace ((find "{" text >=? 0)%Z && (-1 + 1 >? find "{" text)%Z)
        with false.
      2:{ symmetry. apply andb_false_iff. right.
          rewrite Z.gtb_ltb. apply Z.ltb_ge. lia. }
      replace ((Z.of_nat (length P) + find "{" text >=? 0)%Z
               && (rfind_from "}"%uchar P 0 + 1
                   >? Z.of_nat (length P) + find "{" text)%Z) with false;
        [reflexivity|].
      symmetry. apply andb_false_iff. right.
      rewrite Z.gtb_ltb. apply Z.ltb_ge. lia.
  - assert (HfT : find "{" text = (-1)%Z)
      by (unfold find; now apply find_from_none).
    rewrite HfT. simpl ((-1 >=? 0)%Z && _).
    destruct (in_dec N.eq_dec "{"%uchar Q) as [Hq | Hq].
    + rewrite find_from_app_out by assumption.
      pose proof (find_from_bounds "{"%uchar Q
                    (Z.of_nat (length P) + Z.of_nat (length T))%Z Hq) as HfQ.
      replace ((find_from "{"%uchar Q (Z.of_nat (length P) + Z.of_nat (length T)) >=? 0)%Z
               && (rfind_from "}"%uchar (P ++ T) 0 + 1
                   >? find_from "{"%uchar Q (Z.of_nat (length P) + Z.of_nat (length T)))%Z)
        with false; [reflexivity|].
      symmetry. apply andb_false_iff. right.
      rewrite Z.gtb_ltb. apply Z.ltb_ge. lia.
    + rewrite find_from_none.
      * reflexivity.
      * intros H. apply in_app_or in H. tauto.
Qed.

(** X2.  A prose before the text without opening brace and a prose after it
    without closing brace change nothing to what the coercer returns. *)
Theorem coerce_ignores_brace_free_prose :
  forall pre text post default,
    ~ In "{"%uchar (chars pre) -> ~ In "}"%uchar (chars post) ->
    _safe_json_parse (pre +:+ text +:+ post) default
    = _safe_json_parse text default.
Proof. exact coerce_prose. Qed.

End CoercerProseFacts.

Section CoercerProseExamples.
#[local] Existing Instance plain_python.

Lemma coerce_ignores_brace_free_prose_witness :
  _safe_json_parse ("Sure! " +:+ ("{" +:+ wrapped_object +:+ "}") +:+ " Bye.") JNull
  = _safe_json_parse ("{" +:+ wrapped_object +:+ "}") JNull.
Proof.
  apply coerce_ignores_brace_free_prose; vm_compute; intuition discriminate.
Defined.

End CoercerProseExamples.

(** ** The result coercer: a stray brace in the prose *)

Section StrayBraceFacts.
Context {py : Python}.

Lemma skip_ws_firstn l d r :
  skip_ws l = d :: r ->
  forall k, skip_ws (firstn k l) = [] \/ exists t, skip_ws (firstn k l) = d :: t.
Proof.
  induction l as [|c l IH]; intros H k; [discriminate|].
  destruct k as [|k]; [now left|].
  simpl in H |- *.
  destruct (is_json_ws c).
  - now apply IH.
  - inversion H; subst. right. eauto.
Qed.

(** [json.loads] refuses a text that opens a brace on something that is
    neither a key nor the closing brace. *)
Lemma json_loads_bad_member l d t :
  (skip_ws l = [] \/ skip_ws l = d :: t) ->
  d <> dquote -> d <> "}"%uchar ->
  json_loads (str ("{"%uchar :: l)) = None.
Proof.
  intros Hl Hq Hb. unfold json_loads. rewrite chars_str.
  change (skip_ws ("{"%uchar :: l)) with ("{"%uchar :: l).
  replace (2 * length ("{"%uchar :: l) + 2) with (S (2 * length l + 3))
    by (simpl; lia).
  cbn [scan_once].
  change (char_eqb "{" dquote) with false.
  change (char_eqb "{" "{") with true. cbv iota.
  destruct recursion_left as [|inner]; [reflexivity|].
  destruct Hl as [-> | ->]; [reflexivity|].
  apply char_eqb_neq in Hq, Hb. now rewrite Hb, Hq.
Qed.

Lemma chars_slice_from_start s b :
  chars (slice s 0 b) = firstn (Z.to_nat (clip b (len s))) (chars s).
Proof.
  unfold slice. rewrite chars_str.
  assert (H0 : clip 0 (len s) = 0%Z).
  { unfold clip, len. simpl. lia. }
  rewrite H0, Z.sub_0_r. reflexivity.
Qed.

Lemma coerce_stray_brace_alone rest d t default :
  skip_ws (chars rest) = d :: t -> d <> dquote -> d <> "}"%uchar ->
  _safe_json_parse ("{" +:+ rest) default = default.
Proof.
  intros Hs Hq Hb. unfold _safe_json_parse.
  assert (Hf : find "{" ("{" +:+ rest) = 0%Z) by reflexivity.
  rewrite Hf.
  destruct ((0 >=? 0)%Z && (rfind "}" ("{" +:+ rest) + 1 >? 0)%Z) eqn:G;
    [|reflexivity].
  apply andb_true_iff in G as [_ G]. apply Z.gtb_lt in G.
  assert (Hj : json_loads (slice ("{" +:+ rest) 0 (rfind "}" ("{" +:+ rest) + 1))
               = None).
  { rewrite <- (str_chars (slice _ _ _)), chars_slice_from_start.
    assert (Hc : chars ("{" +:+ rest) = "{"%uchar :: chars rest) by reflexivity.
    rewrite Hc.
    assert (Hk : 0 < Z.to_nat (clip (rfind "}" ("{" +:+ rest) + 1)
                                 (len ("{" +:+ rest)))).
    { unfold clip, len. rewrite Hc. simpl length.
      destruct (_ <? 0)%Z eqn:E; [apply Z.ltb_lt in E; lia | lia]. }
    destruct (Z.to_nat _) as [|k]; [lia|]. simpl firstn.
    apply (json_loads_bad_member _ d
             (match skip_ws (firstn k (chars rest)) with
              | _ :: t' => t' | [] => [] end)); try assumption.
    destruct (skip_ws_firstn _ _ _ Hs k) as [-> | [t' ->]]; auto. }
  now rewrite Hj.
Qed.

(** X3.  A stray opening brace in the prose makes the coercer give up: when
    the first brace of the completion opens on something that is neither a
    quoted key nor a closing brace, the default is returned, whatever
    object follows. *)
Theorem coerce_defaults_on_stray_brace :
  forall pre rest d t default,
    ~ In "{"%uchar (chars pre) ->
    skip_ws (chars rest) = d :: t -> d <> dquote -> d <> "}"%uchar ->
    _safe_json_parse (pre +:+ "{" +:+ rest) default = default.
Proof.
  intros pre rest d t default Hpre Hs Hq Hb.
  assert (He : pre +:+ "{" +:+ rest = pre +:+ ("{" +:+ rest) +:+ "").
  { rewrite <- (str_chars (pre +:+ "{" +:+ rest)),
            <- (str_chars (pre +:+ ("{" +:+ rest) +:+ "")).
    rewrite ?chars_app. simpl. now rewrite app_nil_r. }
  rewrite He, coerce_prose by (assumption || (simpl; tauto)).
  eapply coerce_stray_brace_alone; eassumption.
Qed.

End StrayBraceFacts.

Section StrayBraceExamples.
#[local] Existing Instance plain_python.

Lemma coerce_defaults_on_stray_brace_witness :
  _safe_json_parse
    ("Scores are in " +:+ "{" +:+ ("percent} and the result is {"
                                   +:+ wrapped_object +:+ "}"))
    job_match_default
  = job_match_default.
Proof.
  apply (coerce_defaults_on_stray_brace "Scores are in "
           ("percent} and the result is {" +:+ wrapped_object +:+ "}")
           "p"%uchar
           (chars ("ercent} and the result is {" +:+ wrapped_object +:+ "}"))).
  - vm_compute. intuition discriminate.
  - reflexivity.
  - discriminate.
  - discriminate.
Defined.

End StrayBraceExamples.

(** ** The analysis operations *)

Section OperationsFallBackFacts.
Context {py : Python}.

Lemma unusable_default content default :
  unusable content -> _safe_json_parse content default = default.
Proof.
  intros [H | H]; [now apply coerce_no_pair | now apply coerce_unparsable].
Qed.

(** Every operation is [_get_safe_llm] followed, when it returns a client,
    by one completion call. *)
Lemma analyze_resume_ready key error World invoke dumps data choice
    (st : state World) llm st1 :
  _get_safe_llm key error World invoke choice st = (Returned llm, st1) ->
  analyze_resume key error World invoke dumps data choice st
  = completed analyze_resume_default
      (invoke llm (analyze_resume_prompt (dumps data)) (backend st1))
      (stdout st1).
Proof.
  intros H. unfold analyze_resume, completed. rewrite H.
  destruct (invoke llm _ (backend st1)) as [[c | e] w]; reflexivity.
Qed.

Lemma job_match_ready key error World invoke resume job choice
    (st : state World) llm st1 :
  _get_safe_llm key error World invoke choice st = (Returned llm, st1) ->
  job_match_analysis key error World invoke resume job choice st
  = completed job_match_default
      (invoke llm (job_match_prompt resume job) (backend st1)) (stdout st1).
Proof.
  intros H. unfold job_match_analysis, completed. rewrite H.
  destruct (invoke llm _ (backend st1)) as [[c | e] w]; reflexivity.
Qed.

Lemma skill_gap_ready key error World invoke resume role choice
    (st : state World) llm st1 :
  _get_safe_llm key error World invoke choice st = (Returned llm, st1) ->
  skill_gap_analysis key error World invoke resume role choice st
  = completed skill_gap_default
      (invoke llm (skill_gap_prompt resume role) (backend st1)) (stdout st1).
Proof.
  intros H. unfold skill_gap_analysis, completed. rewrite H.
  destruct (invoke llm _ (backend st1)) as [[c | e] w]; reflexivity.
Qed.

Lemma interview_ready key error World invoke resume job choice
    (st : state World) llm st1 :
  _get_safe_llm key error World invoke choice st = (Returned llm, st1) ->
  generate_interview_questions key error World invoke resume job choice st
  = completed interview_default
      (invoke llm (interview_prompt resume job) (backend st1)) (stdout st1).
Proof.
  intros H. unfold generate_interview_questions, completed. rewrite H.
  destruct (invoke llm _ (backend st1)) as [[c | e] w]; reflexivity.
Qed.

Lemma completed_unusable {World : Type} default content (w : World) printed :
  unusable content ->
  completed default (Returned content, w) printed
  = (Returned default, {| backend := w; stdout := printed |}).
Proof.
  intros H. unfold completed. now rewrite unusable_default.
Qed.

(** What [_get_safe_llm] does with an API key. *)
Lemma get_llm_with_key key error choice :
  exists llm,
    _get_llm (Some key) error choice = Returned llm /\ api_key llm = key.
Proof.
  unfold _get_llm, new_ChatGroq.
  destruct (_ || _); [eauto|]. destruct (_ || _); eauto.
Qed.

Lemma get_safe_llm_probe key error World
    (invoke : ChatGroq -> ustr -> World -> outcome ustr * World)
    choice (st : state World) llm :
  _get_llm (Some key) error choice = Returned llm ->
  _get_safe_llm (Some key) error World invoke choice st
  = match invoke llm "Say 'test'" (backend st) with
    | (Returned _, w) => (Returned llm, {| backend := w; stdout := stdout st |})
    | (Raised e, w) =>
        (Returned {| model_name := "llama-3.1-8b-instant"; api_key := key |},
         {| backend := w; stdout := stdout st ++ [fallback_line e] |})
    end.
Proof.
  intros H. unfold _get_safe_llm. rewrite H.
  destruct (invoke llm _ (backend st)) as [[a | e] w]; reflexivity.
Qed.

(** X4.  The three other operations fall back like [job_match_analysis]:
    once the client is there, on a completion of no use, each returns its
    own default as a value. *)
Theorem other_operations_fall_back :
  forall key error World
         (invoke : ChatGroq -> ustr -> World -> outcome ustr * World)
         dumps choice (st : state World) llm st1 content w,
    unusable content ->
    _get_safe_llm (Some key) error World invoke choice st
      = (Returned llm, st1) ->
    (forall data,
        invoke llm (analyze_resume_prompt (dumps data)) (backend st1)
          = (Returned content, w) ->
        fst (analyze_resume (Some key) error World invoke dumps data choice st)
          = Returned analyze_resume_default) /\
    (forall resume role,
        invoke llm (skill_gap_prompt resume role) (backend st1)
          = (Returned content, w) ->
        fst (skill_gap_analysis (Some key) error World invoke
               resume role choice st)
          = Returned skill_gap_default) /\
    (forall resume job,
        invoke llm (interview_prompt resume job) (backend st1)
          = (Returned content, w) ->
        fst (generate_interview_questions (Some key) error World invoke
               resume job choice st)
          = Returned interview_default).
Proof.
  intros key error World invoke dumps choice st llm st1 content w Hu Hr.
  split; [|split].
  - intros data H. rewrite (analyze_resume_ready _ _ _ _ _ _ _ _ _ _ Hr).
    now rewrite H, completed_unusable.
  - intros resume role H. rewrite (skill_gap_ready _ _ _ _ _ _ _ _ _ _ Hr).
    now rewrite H, completed_unusable.
  - intros resume job H. rewrite (interview_ready _ _ _ _ _ _ _ _ _ _ Hr).
    now rewrite H, completed_unusable.
Qed.

Lemma plain_prose_unusable : unusable "I would rather not answer in JSON.".
Proof.
  left. intros (i & j & _ & Hi & _).
  assert (Hin : In "{"%uchar (chars "I would rather not answer in JSON."))
    by (eapply nth_error_In; exact Hi).
  vm_compute in Hin. intuition discriminate.
Qed.

End OperationsFallBackFacts.

Section OperationsFallBackExamples.
#[local] Existing Instance plain_python.

Lemma other_operations_fall_back_witness :
  fst (analyze_resume (Some "gsk_example_key") "no key" unit
         (constant_backend "I would rather not answer in JSON.") no_dumps
         None "Groq (Llama-3.1-8B - Fast)" {| backend := tt; stdout := [] |})
    = Returned analyze_resume_default /\
  fst (skill_gap_analysis (Some "gsk_example_key") "no key" unit
         (constant_backend "I would rather not answer in JSON.")
         "resume" "Data Scientist" "Groq (Llama-3.1-8B - Fast)"
         {| backend := tt; stdout := [] |})
    = Returned skill_gap_default /\
  fst (generate_interview_questions (Some "gsk_example_key") "no key" unit
         (constant_backend "I would rather not answer in JSON.")
         "General candidate" "job" "Groq (Llama-3.1-8B - Fast)"
         {| backend := tt; stdout := [] |})
    = Returned interview_default.
Proof.
  destruct (other_operations_fall_back "gsk_example_key" "no key" unit
              (constant_backend "I would rather not answer in JSON.") no_dumps
              "Groq (Llama-3.1-8B - Fast)" {| backend := tt; stdout := [] |}
              {| model_name := fast_model; api_key := "gsk_example_key" |}
              {| backend := tt; stdout := [] |}
              "I would rather not answer in JSON." tt plain_prose_unusable
              eq_refl)
    as (H1 & H2 & H3).
  split; [|split].
  - apply H1. reflexivity.
  - apply H2. reflexivity.
  - apply H3. reflexivity.
Defined.

End OperationsFallBackExamples.

Section OperationsErrorsFacts.
Context {py : Python}.

(** X5.  No operation catches the exception of its completion call: it
    comes out as it is, and after [_get_safe_llm] nothing more is
    printed. *)
Theorem operations_propagate_backend_error :
  forall key error World
         (invoke : ChatGroq -> ustr -> World -> outcome ustr * World)
         dumps choice (st : state World) llm st1 e w,
    _get_safe_llm (Some key) error World invoke choice st
      = (Returned llm, st1) ->
    let failed := (Raised e, {| backend := w; stdout := stdout st1 |}) in
    (forall data,
        invoke llm (analyze_resume_prompt (dumps data)) (backend st1)
          = (Raised e, w) ->
        analyze_resume (Some key) error World invoke dumps data choice st
          = failed) /\
    (forall resume job,
        invoke llm (job_match_prompt resume job) (backend st1) = (Raised e, w) ->
        job_match_analysis (Some key) error World invoke resume job choice st
          = failed) /\
    (forall resume role,
        invoke llm (skill_gap_prompt resume role) (backend st1) = (Raised e, w) ->
        skill_gap_analysis (Some key) error World invoke resume role choice st
          = failed) /\
    (forall resume job,
        invoke llm (interview_prompt resume job) (backend st1) = (Raised e, w) ->
        generate_interview_questions (Some key) error World invoke
          resume job choice st
          = failed).
Proof.
  intros key error World invoke dumps choice st llm st1 e w Hr failed.
  split; [|split; [|split]].
  - intros data H. rewrite (analyze_resume_ready _ _ _ _ _ _ _ _ _ _ Hr).
    now rewrite H.
  - intros resume job H. rewrite (job_match_ready _ _ _ _ _ _ _ _ _ _ Hr).
    now rewrite H.
  - intros resume role H. rewrite (skill_gap_ready _ _ _ _ _ _ _ _ _ _ Hr).
    now rewrite H.
  - intros resume job H. rewrite (interview_ready _ _ _ _ _ _ _ _ _ _ Hr).
    now rewrite H.
Qed.

End OperationsErrorsFacts.

Section OperationsErrorsExamples.
#[local] Existing Instance plain_python.

Lemma operations_propagate_backend_error_witness :
  job_match_analysis (Some "gsk_example_key") "no key" unit
    (failing_backend "quota exceeded")
    "resume" "job" "Groq (Llama-3.1-70B - Powerful)"
    {| backend := tt; stdout := [] |}
  = (Raised "quota exceeded",
     {| backend := tt; stdout := [fallback_line "quota exceeded"] |}).
Proof.
  apply (proj1 (proj2 (operations_propagate_backend_error
           "gsk_example_key" "no key" unit
           (failing_backend "quota exceeded") no_dumps
           "Groq (Llama-3.1-70B - Powerful)" {| backend := tt; stdout := [] |}
           {| model_name := fast_model; api_key := "gsk_example_key" |}
           {| backend := tt; stdout := [fallback_line "quota exceeded"] |}
           "quota exceeded" tt eq_refl))).
  reflexivity.
Defined.

End OperationsErrorsExamples.

Section OperationsModelFacts.
Context {py : Python}.

(** X6.  The model that gets the completion request.  When the probe
    raises, every operation sends its prompt to [llama-3.1-8b-instant],
    whatever the label asked for, on the state the probe left, after the
    one line printed; when the probe returns, to the model of the label. *)
Theorem completion_model_after_probe :
  forall key error World
         (invoke : ChatGroq -> ustr -> World -> outcome ustr * World)
         dumps choice (st : state World) llm w,
    _get_llm (Some key) error choice = Returned llm ->
    let fast := {| model_name := "llama-3.1-8b-instant"; api_key := key |} in
    let probe := invoke llm "Say 'test'" (backend st) in
    (forall e, probe = (Raised e, w) ->
       (forall data,
           analyze_resume (Some key) error World invoke dumps data choice st
           = completed analyze_resume_default
               (invoke fast (analyze_resume_prompt (dumps data)) w)
               (stdout st ++ [fallback_line e])) /\
       (forall resume job,
           job_match_analysis (Some key) error World invoke resume job choice st
           = completed job_match_default
               (invoke fast (job_match_prompt resume job) w)
               (stdout st ++ [fallback_line e])) /\
       (forall resume role,
           skill_gap_analysis (Some key) error World invoke resume role choice st
           = completed skill_gap_default
               (invoke fast (skill_gap_prompt resume role) w)
               (stdout st ++ [fallback_line e])) /\
       (forall resume job,
           generate_interview_questions (Some key) error World invoke
             resume job choice st
           = completed interview_default
               (invoke fast (interview_prompt resume job) w)
               (stdout st ++ [fallback_line e]))) /\
    (forall reply, probe = (Returned reply, w) ->
       (forall data,
           analyze_resume (Some key) error World invoke dumps data choice st
           = completed analyze_resume_default
               (invoke llm (analyze_resume_prompt (dumps data)) w)
               (stdout st)) /\
       (forall resume job,
           job_match_analysis (Some key) error World invoke resume job choice st
           = completed job_match_default
               (invoke llm (job_match_prompt resume job) w)
               (stdout st)) /\
       (forall resume role,
           skill_gap_analysis (Some key) error World invoke resume role choice st
           = completed skill_gap_default
               (invoke llm (skill_gap_prompt resume role) w)
               (stdout st)) /\
       (forall resume job,
           generate_interview_questions (Some key) error World invoke
             resume job choice st
           = completed interview_default
               (invoke llm (interview_prompt resume job) w)
               (stdout st))).
Proof.
  intros key error World invoke dumps choice st llm w Hl fast probe.
  pose proof (get_safe_llm_probe key error World invoke choice st llm Hl) as Hs.
  fold probe in Hs.
  split.
  - intros e Hp. rewrite Hp in Hs.
    repeat split; intros.
    + now rewrite (analyze_resume_ready _ _ _ _ _ _ _ _ _ _ Hs).
    + now rewrite (job_match_ready _ _ _ _ _ _ _ _ _ _ Hs).
    + now rewrite (skill_gap_ready _ _ _ _ _ _ _ _ _ _ Hs).
    + now rewrite (interview_ready _ _ _ _ _ _ _ _ _ _ Hs).
  - intros reply Hp. rewrite Hp in Hs.
    repeat split; intros.
    + now rewrite (analyze_resume_ready _ _ _ _ _ _ _ _ _ _ Hs).
    + now rewrite (job_match_ready _ _ _ _ _ _ _ _ _ _ Hs).
    + now rewrite (skill_gap_ready _ _ _ _ _ _ _ _ _ _ Hs).
    + now rewrite (interview_ready _ _ _ _ _ _ _ _ _ _ Hs).
Qed.

(** X21.  Without an API key nothing is requested from the backend: the
    constructor of the client raises for every label, [_get_safe_llm]
    catches that, prints its line and raises in turn when it builds the
    client it falls back to, and every operation ends with that
    exception. *)
Theorem operations_raise_without_key :
  forall error World
         (invoke : ChatGroq -> ustr -> World -> outcome ustr * World)
         dumps choice (st : state World),
    let after :=
      {| backend := backend st;
         stdout := stdout st ++ [fallback_line error] |} in
    _get_llm None error choice = Raised error /\
    _get_safe_llm None error World invoke choice st = (Raised error, after) /\
    (forall data,
        analyze_resume None error World invoke dumps data choice st
          = (Raised error, after)) /\
    (forall resume job,
        job_match_analysis None error World invoke resume job choice st
          = (Raised error, after)) /\
    (forall resume role,
        skill_gap_analysis None error World invoke resume role choice st
          = (Raised error, after)) /\
    (forall resume job,
        generate_interview_questions None error World invoke
          resume job choice st = (Raised error, after)).
Proof.
  intros error World invoke dumps choice st after.
  assert (Hl : _get_llm None error choice = Raised error).
  { unfold _get_llm, new_ChatGroq.
    destruct (_ || _); [reflexivity|]. destruct (_ || _); reflexivity. }
  assert (Hs : _get_safe_llm None error World invoke choice st
               = (Raised error, after)).
  { unfold _get_safe_llm. rewrite Hl. reflexivity. }
  split; [exact Hl|]. split; [exact Hs|].
  repeat split; intros.
  - unfold analyze_resume. now rewrite Hs.
  - unfold job_match_analysis. now rewrite Hs.
  - unfold skill_gap_analysis. now rewrite Hs.
  - unfold generate_interview_questions. now rewrite Hs.
Qed.

End OperationsModelFacts.

Section OperationsModelExamples.
#[local] Existing Instance plain_python.

Lemma completion_model_after_probe_witness :
  job_match_analysis (Some "gsk_example_key") "no key" nat
    (probe_failing_backend "model retired" "ok")
    "resume" "job" "Groq (Llama-3.1-70B - Powerful)"
    {| backend := 0; stdout := [] |}
  = completed job_match_default
      (probe_failing_backend "model retired" "ok"
         {| model_name := "llama-3.1-8b-instant"; api_key := "gsk_example_key" |}
         (job_match_prompt "resume" "job") 1)
      ([] ++ [fallback_line "model retired"]).
Proof.
  apply (proj1 (completion_model_after_probe "gsk_example_key" "no key" nat
                  (probe_failing_backend "model retired" "ok") no_dumps
                  "Groq (Llama-3.1-70B - Powerful)"
                  {| backend := 0; stdout := [] |}
                  {| model_name := "llama-3.1-70b-versatile";
                     api_key := "gsk_example_key" |}
                  1 eq_refl) "model retired").
  reflexivity.
Defined.

End OperationsModelExamples.

(** ** The model selector: labels without capital letter *)

Section LowercaseLabelsFacts.
Context {py : Python}.

Lemma contains_char needle hay c :
  contains needle hay = true -> In c (chars needle) -> In c (chars hay).
Proof.
  unfold contains. intros H Hin.
  apply contains_chars_spec in H as (pre & post & ->).
  apply in_or_app. right. apply in_or_app. now left.
Qed.

(** X7.  The markers of [_get_llm] are looked for as they are written,
    capital letters included: a label without a capital letter from A to Z
    carries none of them and, with an API key, resolves to the lightweight
    model, also when it names the other one. *)
Theorem lowercase_label_resolves_to_fast :
  forall key error choice,
    (forall c, In c (chars choice) -> is_upper c = false) ->
    has_fast_marker choice = false /\
    has_powerful_marker choice = false /\
    _get_llm (Some key) error choice
    = Returned {| model_name := "llama-3.1-8b-instant"; api_key := key |}.
Proof.
  intros key error choice Hl.
  assert (Hno : forall marker c,
             In c (chars marker) -> is_upper c = true ->
             contains marker choice = false).
  { intros marker c Hin Hu.
    destruct (contains marker choice) eqn:E; [|reflexivity].
    pose proof (Hl c (contains_char _ _ _ E Hin)). congruence. }
  assert (H1 : contains "8B" choice = false)
    by (apply (Hno "8B" "B"%uchar); [simpl; tauto | reflexivity]).
  assert (H2 : contains "Fast" choice = false)
    by (apply (Hno "Fast" "F"%uchar); [simpl; tauto | reflexivity]).
  assert (H3 : contains "70B" choice = false)
    by (apply (Hno "70B" "B"%uchar); [simpl; tauto | reflexivity]).
  assert (H4 : contains "Powerful" choice = false)
    by (apply (Hno "Powerful" "P"%uchar); [simpl; tauto | reflexivity]).
  unfold has_fast_marker, has_powerful_marker, _get_llm, new_ChatGroq.
  rewrite H1, H2, H3, H4. auto.
Qed.

End LowercaseLabelsFacts.

Section LowercaseLabelsExamples.
#[local] Existing Instance plain_python.

Lemma lowercase_label_resolves_to_fast_witness :
  _get_llm (Some "gsk_example_key") "no key" "groq (llama-3.1-70b - powerful)"
  = Returned {| model_name := "llama-3.1-8b-instant";
                api_key := "gsk_example_key" |}.
Proof.
  apply (lowercase_label_resolves_to_fast "gsk_example_key" "no key"
           "groq (llama-3.1-70b - powerful)").
  intros c Hin. vm_compute in Hin.
  repeat (destruct Hin as [<- | Hin]; [reflexivity|]). destruct Hin.
Defined.

End LowercaseLabelsExamples.

Section EmailShapeFacts.
Context {py : Python}.

(** ** The fact extractor: the one-valued fields *)

(** The first element of [re.findall] for a pattern without group that
    cannot match the empty text. *)
Lemma first_match_field r text sentinel :
  consuming r = true ->
  ((forall i j, ~ Matches (chars text) r i j) ->
     first_or sentinel (findall false r text) = sentinel) /\
  (forall i j, Matches (chars text) r i j ->
     exists a b,
       Matches (chars text) r a b /\
       (forall a' b', Matches (chars text) r a' b' -> a <= a') /\
       first_or sentinel (findall false r text) = str (between (chars text) a b)).
Proof.
  intros Hc.
  destruct (search_from r (chars text) 0) as [[[a b] c]|] eqn:E.
  - destruct (findall_first_match false r text _ E) as [rest Hf].
    rewrite Hf. apply search_from_some in E as [MC Hleft].
    apply MatchesC_Matches in MC. split.
    + intros Hno. exfalso. exact (Hno _ _ MC).
    + intros i j _. exists a, b. auto.
  - rewrite (findall_no_match false r text E). split.
    + reflexivity.
    + intros i j M. exfalso.
      exact (no_match_anywhere r (chars text) Hc E i j M).
Qed.

Lemma email_field text :
  email (_extract_information text)
  = first_or "Not found" (findall false email_pattern text).
Proof. reflexivity. Qed.

Lemma phone_field text :
  phone (_extract_information text)
  = first_or "Not found" (findall false phone_pattern text).
Proof. reflexivity. Qed.

Lemma experience_field text :
  experience_years (_extract_information text)
  = first_or "Not specified" (findall true experience_pattern (lower text)).
Proof. reflexivity. Qed.

Lemma email_shaped_has_at e : is_email_shaped e -> In "@"%uchar e.
Proof.
  intros (l & d & t & -> & _). apply in_or_app. right. now left.
Qed.

Lemma phone_shaped_length p : is_phone_shaped p -> 10 <= length p.
Proof.
  intros (lead & f & body & l & -> & _ & _ & _ & Hb & _).
  rewrite length_app. simpl. rewrite length_app. simpl. lia.
Qed.

Lemma match_is_part r text a b :
  consuming r = true -> Matches (chars text) r a b ->
  contains (str (between (chars text) a b)) text = true.
Proof.
  intros Hc M. unfold contains. rewrite chars_str.
  apply contains_chars_spec.
  pose proof (consuming_inside _ _ _ _ M Hc) as Hi.
  apply (Matches_part (chars text) r a b M). lia.
Qed.

(** X8.  The email of a text is the sentinel exactly when the pattern
    matches nowhere; otherwise it is a part of the text with the shape of
    an address, so that the sentinel is never mistaken for a result. *)
Theorem extract_email_shape :
  forall text,
    (email (_extract_information text) = "Not found" <->
     forall i j, ~ Matches (chars text) email_pattern i j) /\
    (email (_extract_information text) <> "Not found" ->
     is_email_shaped (chars (email (_extract_information text))) /\
     contains (email (_extract_information text)) text = true).
Proof.
  intros text. rewrite email_field.
  destruct (first_match_field email_pattern text "Not found" eq_refl)
    as [Hnone Hsome].
  assert (Hshape : forall i j, Matches (chars text) email_pattern i j ->
            is_email_shaped
              (chars (first_or "Not found" (findall false email_pattern text))) /\
            contains (first_or "Not found" (findall false email_pattern text))
              text = true).
  { intros i j M. destruct (Hsome i j M) as (a & b & Mab & _ & ->).
    rewrite chars_str. split.
    - now apply email_pattern_shape.
    - exact (match_is_part email_pattern text a b eq_refl Mab). }
  split; [split|].
  - intros Heq i j M. destruct (Hshape i j M) as [Hs _].
    rewrite Heq in Hs. apply email_shaped_has_at in Hs.
    vm_compute in Hs. intuition discriminate.
  - exact Hnone.
  - intros Hne.
    destruct (search_from email_pattern (chars text) 0) as [[[a b] c]|] eqn:E.
    + apply search_from_some in E as [MC _]. apply MatchesC_Matches in MC.
      exact (Hshape _ _ MC).
    + exfalso. apply Hne. apply Hnone.
      exact (no_match_anywhere email_pattern (chars text) eq_refl E).
Qed.

End EmailShapeFacts.

Section EmailShapeExamples.
#[local] Existing Instance plain_python.

Lemma extract_email_shape_witness :
  is_email_shaped
    (chars (email (_extract_information "Mail: j.doe+cv@mail.example.org, thanks"))) /\
  contains (email (_extract_information "Mail: j.doe+cv@mail.example.org, thanks"))
    "Mail: j.doe+cv@mail.example.org, thanks" = true.
Proof.
  apply (proj2 (extract_email_shape "Mail: j.doe+cv@mail.example.org, thanks")).
  vm_compute. discriminate.
Defined.

End EmailShapeExamples.

Section PhoneFacts.
Context {py : Python}.

(** X9.  The phone of a text is the sentinel exactly when the phone pattern
    matches nowhere; otherwise it is the text of a match at the leftmost
    position where one starts, a part of the text of ten characters or more
    with the shape of a number. *)
Theorem extract_phone_first_match :
  forall text,
    (phone (_extract_information text) = "Not found" <->
     forall i j, ~ Matches (chars text) phone_pattern i j) /\
    (forall i j, Matches (chars text) phone_pattern i j ->
       exists a b,
         Matches (chars text) phone_pattern a b /\
         (forall a' b', Matches (chars text) phone_pattern a' b' -> a <= a') /\
         phone (_extract_information text) = str (between (chars text) a b)) /\
    (phone (_extract_information text) <> "Not found" ->
     is_phone_shaped (chars (phone (_extract_information text))) /\
     10 <= length (chars (phone (_extract_information text))) /\
     contains (phone (_extract_information text)) text = true).
Proof.
  intros text. rewrite phone_field.
  destruct (first_match_field phone_pattern text "Not found" eq_refl)
    as [Hnone Hsome].
  assert (Hshape : forall i j, Matches (chars text) phone_pattern i j ->
            is_phone_shaped
              (chars (first_or "Not found" (findall false phone_pattern text))) /\
            10 <= length
              (chars (first_or "Not found" (findall false phone_pattern text))) /\
            contains (first_or "Not found" (findall false phone_pattern text))
              text = true).
  { intros i j M. destruct (Hsome i j M) as (a & b & Mab & _ & ->).
    rewrite chars_str.
    pose proof (phone_pattern_shape _ _ _ Mab) as Hs.
    split; [exact Hs|]. split; [now apply phone_shaped_length|].
    exact (match_is_part phone_pattern text a b eq_refl Mab). }
  split; [split|split].
  - intros Heq i j M. destruct (Hshape i j M) as (_ & Hl & _).
    rewrite Heq in Hl. vm_compute in Hl. lia.
  - exact Hnone.
  - exact Hsome.
  - intros Hne.
    destruct (search_from phone_pattern (chars text) 0) as [[[a b] c]|] eqn:E.
    + apply search_from_some in E as [MC _]. apply MatchesC_Matches in MC.
      exact (Hshape _ _ MC).
    + exfalso. apply Hne. apply Hnone.
      exact (no_match_anywhere phone_pattern (chars text) eq_refl E).
Qed.

End PhoneFacts.

Section PhoneExamples.
#[local] Existing Instance plain_python.

Lemma extract_phone_first_match_witness :
  is_phone_shaped
    (chars (phone (_extract_information "Call +44 (0)20 7946 0958 after 9am"))) /\
  10 <= length
    (chars (phone (_extract_information "Call +44 (0)20 7946 0958 after 9am"))) /\
  contains (phone (_extract_information "Call +44 (0)20 7946 0958 after 9am"))
    "Call +44 (0)20 7946 0958 after 9am" = true.
Proof.
  apply (proj2 (proj2 (extract_phone_first_match
                         "Call +44 (0)20 7946 0958 after 9am"))).
  vm_compute. discriminate.
Defined.

End PhoneExamples.

Section ExperienceDigitsFacts.
Context {py : Python}.

(** X10.  The years of experience are the sentinel exactly when the lowered
    text has no mention of years; otherwise they are a run of decimal
    digits that is not empty. *)
Theorem extract_experience_digits :
  forall text,
    (experience_years (_extract_information text) = "Not specified" <->
     forall a e, ~ year_mention (chars (lower text)) a e) /\
    (experience_years (_extract_information text) <> "Not specified" ->
     chars (experience_years (_extract_information text)) <> [] /\
     Forall (fun c => is_decimal c = true)
       (chars (experience_years (_extract_information text)))).
Proof.
  intros text. rewrite experience_field.
  set (s := chars (lower text)).
  destruct (search_from experience_pattern s 0) as [[[a0 b0] c0]|] eqn:E.
  - destruct (findall_first_match true experience_pattern (lower text) _ E)
      as [rest Hf].
    rewrite Hf. fold s. apply search_from_some in E as [MC _].
    apply experience_pattern_group in MC as (e0 & -> & Hm0).
    simpl first_or. simpl reported.
    destruct Hm0 as (Hlt & Hd & Hrest).
    destruct (all_between_text s is_decimal a0 e0 ltac:(lia) Hd) as [Hlen Hall].
    assert (Hne : between s a0 e0 <> []).
    { intros Hnil. rewrite Hnil in Hlen. simpl in Hlen. lia. }
    split; [split|].
    + intros Heq. exfalso.
      apply (f_equal chars) in Heq. rewrite chars_str in Heq.
      rewrite Heq in Hall. inversion Hall as [|c l Hc _]; subst.
      vm_compute in Hc. discriminate.
    + intros Hno. exfalso. apply (Hno a0 e0). repeat split; assumption.
    + intros _. rewrite chars_str. split; assumption.
  - rewrite (findall_no_match true experience_pattern (lower text) E).
    simpl first_or. split; [split|].
    + intros _ a e Hm. destruct (mention_matches s a e Hm) as [b M].
      exact (no_match_anywhere experience_pattern s eq_refl E a b M).
    + reflexivity.
    + intros Hne. exfalso. now apply Hne.
Qed.

End ExperienceDigitsFacts.

Section ExperienceDigitsExamples.
#[local] Existing Instance plain_python.

Lemma extract_experience_digits_witness :
  Forall (fun c => is_decimal c = true)
    (chars (experience_years (_extract_information "over 12 YRS in finance"))).
Proof.
  apply (proj2 (extract_experience_digits "over 12 YRS in finance")).
  vm_compute. discriminate.
Defined.

End ExperienceDigitsExamples.

(** ** The fact extractor: case, order, education *)

Section CaseInsensitiveFacts.
Context {py : Python}.

Lemma lower_idem text : lower (lower text) = lower text.
Proof.
  unfold lower. rewrite chars_str. f_equal. apply lower_idempotent.
Qed.

Lemma keyword_found_lowered text text' keyword :
  lower text = lower text' ->
  keyword_found text keyword = keyword_found text' keyword.
Proof. intros H. unfold keyword_found. now rewrite H. Qed.

(** X11.  Skills, education signals and years of experience are read off the
    lowered text only: two texts that differ by the case of their letters
    give the same three fields, and so does a text lowered beforehand. *)
Theorem extract_ignores_case :
  forall text text',
    lower text = lower text' ->
    skills (_extract_information text) = skills (_extract_information text') /\
    education (_extract_information text) = education (_extract_information text') /\
    experience_years (_extract_information text)
      = experience_years (_extract_information text') /\
    skills (_extract_information (lower text)) = skills (_extract_information text).
Proof.
  intros text text' H.
  assert (Hk : forall t t', lower t = lower t' ->
            List.filter (fun k => keyword_found t k) skill_keywords
            = List.filter (fun k => keyword_found t' k) skill_keywords).
  { intros t t' Ht. apply filter_ext. intros k.
    now apply keyword_found_lowered. }
  rewrite !skills_extract, !education_extract, !experience_field.
  split; [|split; [|split]].
  - now apply Hk.
  - f_equal. apply filter_ext. intros k. now apply keyword_found_lowered.
  - now rewrite H.
  - apply Hk. apply lower_idem.
Qed.

End CaseInsensitiveFacts.

Section CaseInsensitiveExamples.
#[local] Existing Instance plain_python.

Lemma extract_ignores_case_witness :
  skills (_extract_information "PYTHON and Sql, 3 YEARS")
  = skills (_extract_information "python AND sql, 3 years").
Proof.
  apply (proj1 (extract_ignores_case "PYTHON and Sql, 3 YEARS"
                  "python AND sql, 3 years" ltac:(vm_compute; reflexivity))).
Defined.

End CaseInsensitiveExamples.

Section VocabularyOrderFacts.
Context {py : Python}.

Lemma sublist_List_filter {A : Type} (f : A -> bool) (l : list A) :
  sublist (List.filter f l) l.
Proof.
  induction l as [|a l IH]; simpl; [constructor|].
  destruct (f a); now constructor.
Qed.

(** X12.  The skills come in the order of the vocabulary, not in the order
    of the text: the list of skills is the vocabulary with some terms left
    out. *)
Theorem extract_skills_in_vocabulary_order :
  forall text, sublist (skills (_extract_information text)) skill_keywords.
Proof.
  intros text. rewrite skills_extract. apply sublist_List_filter.
Qed.

(** X13.  In a text without backslash the education signals are exactly the
    keywords, among the six without backslash, that occur in the text as
    whole words, whatever the case of its letters. *)
Theorem extract_education_whole_words :
  forall text,
    ~ In backslash (chars text) ->
    forall keyword,
      In keyword (education (_extract_information text)) <->
      In keyword ["bachelor"; "master"; "phd"; "degree"; "university"; "college"] /\
      occurs_as_whole_word keyword text.
Proof.
  intros text Hno keyword.
  rewrite education_extract, list_set_In, filter_In.
  assert (Hb : keyword_found text "b\." = false)
    by (apply backslash_keyword_not_found; [exact Hno | vm_compute; tauto]).
  assert (Hm : keyword_found text "m\." = false)
    by (apply backslash_keyword_not_found; [exact Hno | vm_compute; tauto]).
  assert (Hw : forall k,
             In k ["bachelor"; "master"; "phd"; "degree"; "university"; "college"] ->
             keyword_found text k = true <-> occurs_as_whole_word k text).
  { intros k Hk. apply keyword_found_whole_word;
      cbn [In] in Hk;
      destruct Hk as [<- | [<- | [<- | [<- | [<- | [<- | []]]]]]]; reflexivity. }
  split.
  - intros [Hin Hf]. unfold education_keywords in Hin. cbn [In] in Hin.
    assert (Hsix : In keyword
              ["bachelor"; "master"; "phd"; "degree"; "university"; "college"]).
    { destruct Hin as [<- | [<- | [<- | [<- | [<- | [<- | [<- | [<- | [<- | []]]]]]]]]];
        try (cbn [In]; tauto); congruence. }
    split; [exact Hsix | now apply Hw].
  - intros [Hsix Ho]. split.
    + unfold education_keywords. cbn [In] in Hsix |- *. tauto.
    + now apply Hw.
Qed.

End VocabularyOrderFacts.

Section VocabularyOrderExamples.
#[local] Existing Instance plain_python.

Lemma extract_education_whole_words_witness :
  In "university"
    (education (_extract_information "Graduated from the UNIVERSITY of Bath")).
Proof.
  apply (proj2 (extract_education_whole_words
                  "Graduated from the UNIVERSITY of Bath"
                  ltac:(vm_compute; intuition discriminate) "university")).
  split; [cbn [In]; tauto|].
  exists (chars "graduated from the "), (chars " of bath").
  repeat split; reflexivity.
Defined.

End VocabularyOrderExamples.

(** ** The fact extractor: the counts *)

Section WordCountFacts.
Context {py : Python}.

Lemma split_ws_from_tokens l : forall cur,
  Forall (fun c => is_space c = false) cur ->
  Forall is_token (split_ws_from l cur).
Proof.
  induction l as [|a l IH]; intros cur Hcur; simpl.
  - destruct cur as [|c cur]; [constructor|].
    constructor; [|constructor]. split.
    + intros E. apply (f_equal (@length char)) in E.
      rewrite length_rev in E. discriminate.
    + apply Forall_rev. exact Hcur.
  - destruct (is_space a) eqn:Ea.
    + destruct cur as [|c cur]; [apply IH; constructor|].
      constructor; [|apply IH; constructor]. split.
      * intros E. apply (f_equal (@length char)) in E.
        rewrite length_rev in E. discriminate.
      * apply Forall_rev. exact Hcur.
    + apply IH. now constructor.
Qed.

Lemma split_ws_from_concat l : forall cur,
  concat (split_ws_from l cur) = rev cur ++ List.filter not_space l.
Proof.
  induction l as [|a l IH]; intros cur; simpl.
  - destruct cur; simpl; [reflexivity|]. now rewrite !app_nil_r.
  - unfold not_space at 1. destruct (is_space a) eqn:Ea; simpl.
    + destruct cur as [|c cur]; simpl; rewrite IH; reflexivity.
    + rewrite IH. simpl. now rewrite <- app_assoc.
Qed.

Lemma tokens_count (ws : list (list char)) :
  Forall is_token ws -> length ws <= length (concat ws).
Proof.
  induction 1 as [|w ws [Hne _] _ IH]; simpl; [lia|].
  rewrite length_app. destruct w; [congruence | simpl; lia].
Qed.

Lemma filter_length_le {A : Type} (f : A -> bool) (l : list A) :
  length (List.filter f l) <= length l.
Proof.
  induction l as [|a l IH]; simpl; [lia|]. destruct (f a); simpl; lia.
Qed.

Lemma split_ws_from_space_prefix sep l :
  all_space sep -> split_ws_from (sep ++ l) [] = split_ws_from l [].
Proof.
  induction 1 as [|c sep Hc _ IH]; simpl; [reflexivity|]. now rewrite Hc.
Qed.

Lemma split_ws_from_app a sep b : forall cur,
  all_space sep -> sep <> [] ->
  split_ws_from (a ++ sep ++ b) cur
  = split_ws_from a cur ++ split_ws_from b [].
Proof.
  intros cur Hs Hne. revert cur.
  induction a as [|x a IH]; intros cur.
  - destruct sep as [|c sep]; [congruence|].
    inversion Hs as [|? ? Hc Hs']; subst. simpl. rewrite Hc.
    rewrite (split_ws_from_space_prefix sep b Hs').
    destruct cur; reflexivity.
  - simpl. destruct (is_space x).
    + destruct cur; rewrite IH; reflexivity.
    + apply IH.
Qed.

Lemma word_count_tokens text :
  word_count (_extract_information text)
  = Z.of_nat (length (split_ws_from (chars text) [])).
Proof.
  unfold _extract_information, split_ws. cbn [word_count].
  now rewrite length_map.
Qed.

Lemma character_count_length text :
  character_count (_extract_information text) = Z.of_nat (length (chars text)).
Proof. reflexivity. Qed.

(** X14.  The words counted are the maximal runs without whitespace: no
    word is empty or holds whitespace, put end to end the words are the
    text without its whitespace, and there are no more words than
    characters. *)
Theorem split_words_are_the_text_without_space :
  forall text,
    Forall (fun w => is_token (chars w)) (split_ws text) /\
    concat (map chars (split_ws text)) = List.filter not_space (chars text) /\
    (0 <= word_count (_extract_information text)
       <= character_count (_extract_information text))%Z.
Proof.
  intros text.
  pose proof (split_ws_from_tokens (chars text) [] ltac:(constructor)) as Ht.
  pose proof (split_ws_from_concat (chars text) []) as Hc. simpl in Hc.
  assert (Hm : map chars (split_ws text) = split_ws_from (chars text) []).
  { unfold split_ws. rewrite map_map.
    rewrite (map_ext _ (fun w => w)) by (intros w; apply chars_str).
    apply map_id. }
  split; [|split].
  - rewrite <- Forall_map with (f := chars) (P := is_token). now rewrite Hm.
  - now rewrite Hm.
  - rewrite word_count_tokens, character_count_length.
    pose proof (tokens_count _ Ht) as Hle. rewrite Hc in Hle.
    pose proof (filter_length_le not_space (chars text)). lia.
Qed.

(** X15.  A text has no word exactly when it is made of whitespace only, the
    empty text included. *)
Theorem word_count_zero_iff_blank :
  forall text,
    word_count (_extract_information text) = 0%Z <-> all_space (chars text).
Proof.
  intros text. rewrite word_count_tokens.
  pose proof (split_ws_from_concat (chars text) []) as Hc. simpl in Hc.
  split.
  - intros H.
    assert (Hn : split_ws_from (chars text) [] = [])
      by (destruct (split_ws_from (chars text) []); [reflexivity | simpl in H; lia]).
    rewrite Hn in Hc. simpl in Hc.
    unfold all_space. apply List.Forall_forall. intros c Hin.
    destruct (is_space c) eqn:E; [reflexivity|]. exfalso.
    assert (Hf : In c (List.filter not_space (chars text))).
    { apply filter_In. split; [exact Hin|]. unfold not_space. now rewrite E. }
    rewrite <- Hc in Hf. destruct Hf.
  - intros H.
    rewrite <- (app_nil_r (chars text)),
            (split_ws_from_space_prefix (chars text) [] H).
    reflexivity.
Qed.

End WordCountFacts.

Section WordCountExamples.
#[local] Existing Instance plain_python.

Lemma word_count_zero_iff_blank_witness :
  word_count (_extract_information (" " +:+ newline +:+ "  ")) = 0%Z.
Proof.
  apply (proj2 (word_count_zero_iff_blank (" " +:+ newline +:+ "  "))).
  repeat constructor.
Defined.

End WordCountExamples.

Section WordCountSumFacts.
Context {py : Python}.

(** X16.  Whitespace between two texts keeps their words apart: the words of
    the whole are the words of the first part followed by those of the
    second, and the counts add up. *)
Theorem word_count_adds_over_whitespace :
  forall a sep b,
    all_space (chars sep) -> sep <> "" ->
    split_ws (a +:+ sep +:+ b) = split_ws a ++ split_ws b /\
    word_count (_extract_information (a +:+ sep +:+ b))
    = (word_count (_extract_information a)
       + word_count (_extract_information b))%Z.
Proof.
  intros a sep b Hs Hne.
  assert (Hc : chars sep <> []).
  { intros E. apply Hne. rewrite <- (str_chars sep), E. reflexivity. }
  assert (Hsplit : split_ws_from (chars (a +:+ sep +:+ b)) []
                   = split_ws_from (chars a) [] ++ split_ws_from (chars b) []).
  { rewrite ?chars_app. now apply split_ws_from_app. }
  split.
  - unfold split_ws. now rewrite Hsplit, map_app.
  - rewrite !word_count_tokens, Hsplit, length_app. lia.
Qed.

End WordCountSumFacts.

Section WordCountSumExamples.
#[local] Existing Instance plain_python.

Lemma word_count_adds_over_whitespace_witness :
  word_count (_extract_information ("Jane Doe" +:+ newline +:+ "Data engineer"))
  = (word_count (_extract_information "Jane Doe")
     + word_count (_extract_information "Data engineer"))%Z.
Proof.
  apply (proj2 (word_count_adds_over_whitespace "Jane Doe" newline
                  "Data engineer" ltac:(repeat constructor)
                  ltac:(discriminate))).
Defined.

End WordCountSumExamples.

(** ** The document adapter: the extension of a name *)

Section FileExtensionFacts.
Context {py : Python}.

Lemma split_on_nonempty sep l : split_on sep l <> [].
Proof.
  destruct l as [|a l]; simpl; [discriminate|].
  destruct (char_eqb a sep); [discriminate|].
  destruct (split_on sep l); discriminate.
Qed.

Lemma split_on_no_sep sep l : ~ In sep l -> split_on sep l = [l].
Proof.
  induction l as [|a l IH]; intros Hno; simpl; [reflexivity|].
  destruct (char_eqb a sep) eqn:E.
  - apply char_eqb_eq in E. subst. exfalso. apply Hno. now left.
  - rewrite IH by (intros H; apply Hno; now right). reflexivity.
Qed.

Lemma split_on_two_pieces sep l1 l2 :
  2 <= length (split_on sep (l1 ++ sep :: l2)).
Proof.
  induction l1 as [|a l1 IH]; simpl.
  - rewrite char_eqb_refl. simpl.
    pose proof (split_on_nonempty sep l2).
    destruct (split_on sep l2); [congruence | simpl; lia].
  - destruct (char_eqb a sep); simpl; [lia|].
    destruct (split_on sep (l1 ++ sep :: l2)); simpl in *; lia.
Qed.

(** The last piece of a split is what follows the last separator. *)
Lemma split_on_last sep l1 l2 d :
  List.last (split_on sep (l1 ++ sep :: l2)) d = List.last (split_on sep l2) d.
Proof.
  induction l1 as [|a l1 IH]; simpl.
  - rewrite char_eqb_refl.
    pose proof (split_on_nonempty sep l2).
    destruct (split_on sep l2); [congruence | reflexivity].
  - pose proof (split_on_two_pieces sep l1 l2) as H2.
    destruct (char_eqb a sep).
    + destruct (split_on sep (l1 ++ sep :: l2)) eqn:E; [simpl in H2; lia|].
      exact IH.
    + destruct (split_on sep (l1 ++ sep :: l2)) as [|w [|w' ws]] eqn:E;
        simpl in H2; try lia.
      exact IH.
Qed.

Lemma last_map_str (l : list (list char)) :
  l <> [] -> last_item (map str l) = str (List.last l []).
Proof.
  unfold last_item. induction l as [|a l IH]; intros Hne; [congruence|].
  destruct l as [|b l]; [reflexivity|].
  change (List.last (map str (a :: b :: l)) "")
    with (List.last (map str (b :: l)) "").
  rewrite IH by discriminate. reflexivity.
Qed.

Lemma file_extension_name stem ext :
  ~ In "."%uchar (chars ext) ->
  file_extension (stem +:+ "." +:+ ext) = lower ext.
Proof.
  intros Hno. unfold file_extension, split.
  rewrite last_map_str by apply split_on_nonempty.
  rewrite ?chars_app.
  change (chars "." ++ chars ext) with ("."%uchar :: chars ext).
  rewrite split_on_last, split_on_no_sep by assumption.
  simpl List.last. now rewrite str_chars.
Qed.

(** X17.  The extension of an upload is what follows the last dot of its
    name, in lower case; a name without dot is its own extension. *)
Theorem file_extension_after_last_dot :
  (forall stem ext,
      ~ In "."%uchar (chars ext) ->
      file_extension (stem +:+ "." +:+ ext) = lower ext) /\
  (forall name,
      ~ In "."%uchar (chars name) -> file_extension name = lower name).
Proof.
  split.
  - exact file_extension_name.
  - intros name Hno. unfold file_extension, split.
    rewrite split_on_no_sep by assumption. simpl.
    unfold last_item. simpl. now rewrite str_chars.
Qed.

End FileExtensionFacts.

Section FileExtensionExamples.
#[local] Existing Instance plain_python.

Lemma file_extension_after_last_dot_witness :
  file_extension ("jane.doe.cv" +:+ "." +:+ "PDF") = lower "PDF" /\
  file_extension "DOCX" = lower "DOCX".
Proof.
  split.
  - apply (proj1 file_extension_after_last_dot).
    vm_compute. intuition discriminate.
  - apply (proj2 file_extension_after_last_dot).
    vm_compute. intuition discriminate.
Defined.

End FileExtensionExamples.

(** ** The document adapter: uploads that are read *)

Section UploadFacts.
Context {py : Python}.

Section Uploads.
Variable pdf_pages : list Byte.byte -> outcome (list ustr).
Variable docx_paragraphs : list Byte.byte -> outcome (list ustr).
Variable decode_utf8 : list Byte.byte -> outcome ustr.

(** X18.  An upload named with one of the three extensions, in any letter
    case, always gives facts, also when its reader raises: the raw text of
    the facts is then a text that says so, with the message of the
    exception.  A text upload that decodes gives the facts of the text it
    holds, as if the text had been typed. *)
Theorem parse_resume_upload_gives_facts :
  forall stem ext data,
    ~ In "."%uchar (chars ext) ->
    let upload := Upload (stem +:+ "." +:+ ext) data in
    let parsed := parse_resume pdf_pages docx_paragraphs decode_utf8 upload in
    (lower ext = "pdf" ->
       exists facts, parsed = Some facts /\
         forall e, pdf_pages data = Raised e ->
                   raw_text facts = "PDF parsing error: " +:+ e) /\
    (lower ext = "docx" ->
       exists facts, parsed = Some facts /\
         forall e, docx_paragraphs data = Raised e ->
                   raw_text facts = "DOCX parsing error: " +:+ e) /\
    (lower ext = "txt" ->
       exists facts, parsed = Some facts /\
         (forall e, decode_utf8 data = Raised e ->
                    raw_text facts = "TXT parsing error: " +:+ e) /\
         (forall text, decode_utf8 data = Returned text ->
                       parsed = parse_resume pdf_pages docx_paragraphs decode_utf8
                                  (Text text))).
Proof.
  intros stem ext data Hno upload parsed.
  assert (He : file_extension (stem +:+ "." +:+ ext) = lower ext)
    by (now apply file_extension_name).
  unfold parsed, upload, parse_resume. rewrite He.
  split; [|split]; intros ->; simpl.
  - eexists. split; [reflexivity|]. intros e H.
    unfold _parse_pdf. rewrite H. reflexivity.
  - eexists. split; [reflexivity|]. intros e H.
    unfold _parse_docx. rewrite H. reflexivity.
  - eexists. split; [reflexivity|]. split.
    + intros e H. unfold _parse_txt. rewrite H. reflexivity.
    + intros text H. unfold _parse_txt. rewrite H. reflexivity.
Qed.
End Uploads.

End UploadFacts.

Section UploadExamples.
#[local] Existing Instance plain_python.

Lemma parse_resume_upload_gives_facts_witness :
  exists facts,
    parse_resume (no_reader (list ustr)) (no_reader (list ustr))
      (no_reader ustr) (Upload ("cv.2024" +:+ "." +:+ "Pdf") []) = Some facts /\
    forall e, no_reader (list ustr) [] = Raised e ->
              raw_text facts = "PDF parsing error: " +:+ e.
Proof.
  apply (proj1 (parse_resume_upload_gives_facts
                  (no_reader (list ustr)) (no_reader (list ustr))
                  (no_reader ustr) "cv.2024" "Pdf" []
                  ltac:(vm_compute; intuition discriminate))).
  reflexivity.
Defined.

End UploadExamples.

(** ** The document adapter: the skills of a page *)

Ltac by_chars :=
  apply chars_inj; rewrite ?chars_app; simpl;
  rewrite <- ?app_assoc, ?app_nil_r; try reflexivity.

Section PageSkillsFacts.
Context {py : Python}.

(** Between two newlines a text is lower-cased as it is alone. *)
Lemma lower_between_newlines P page Q :
  newline_closed P -> newline_opened Q ->
  exists LP LQ,
    lower_with wide_lower (P ++ page ++ Q)
    = LP ++ lower_with wide_lower page ++ LQ /\
    ends_word LP = false /\ begins_word LQ = false.
Proof.
  intros HP HQ.
  assert (Hright : exists LQ,
             lower_with wide_lower (page ++ Q)
             = lower_with wide_lower page ++ LQ /\ begins_word LQ = false).
  { destruct HQ as [-> | [Q0 ->]].
    - exists []. rewrite !app_nil_r. split; reflexivity.
    - exists (10%N :: lower_with wide_lower Q0).
      split; [apply lower_newline | reflexivity]. }
  destruct Hright as (LQ & Hr & HLQ).
  destruct HP as [-> | [P0 ->]].
  - exists [], LQ. simpl. auto.
  - exists (lower_with wide_lower P0 ++ [10%N]), LQ.
    split; [|split; [|exact HLQ]].
    + rewrite <- !app_assoc. simpl. rewrite lower_newline, Hr. reflexivity.
    + unfold ends_word. rewrite rev_app_distr. reflexivity.
Qed.

Lemma occurs_in_context term P a Q :
  occurs_as_whole_word term a ->
  newline_closed (chars P) -> newline_opened (chars Q) ->
  occurs_as_whole_word term (P +:+ a +:+ Q).
Proof.
  intros (pre & post & Ha & Hb & Hf) HP HQ.
  destruct (lower_between_newlines (chars P) (chars a) (chars Q) HP HQ)
    as (LP & LQ & Hl & HLP & HLQ).
  exists (LP ++ pre), (post ++ LQ).
  split; [|split].
  - rewrite chars_lower, !chars_app, Hl.
    rewrite <- chars_lower, Ha, <- !app_assoc. reflexivity.
  - unfold not_word_before in *. rewrite rev_app_distr.
    destruct (rev pre) as [|c r]; simpl; [|exact Hb].
    unfold ends_word in HLP. destruct (rev LP); [exact I | exact HLP].
  - unfold not_word_after in *.
    destruct post as [|c post]; simpl; [|exact Hf].
    unfold begins_word in HLQ. destruct LQ; [exact I | exact HLQ].
Qed.

Lemma skill_found_iff text skill :
  In skill (skills (_extract_information text)) <->
  In skill skill_keywords /\ occurs_as_whole_word skill text.
Proof.
  rewrite skills_extract, filter_In. split; intros [Hin H]; (split; [exact Hin|]);
    destruct (skill_keywords_are_words skill Hin) as [Hb He];
    now apply (keyword_found_whole_word text skill Hb He).
Qed.

(** The text [_parse_pdf] builds: every page followed by a newline. *)
Lemma pdf_text pages : forall acc,
  fold_left (fun text page => text +:+ (page +:+ newline)) pages acc
  = acc +:+ fold_left (fun text page => text +:+ (page +:+ newline)) pages "".
Proof.
  induction pages as [|p pages IH]; intros acc; simpl.
  - by_chars.
  - rewrite (IH (acc +:+ (p +:+ newline))), (IH ("" +:+ (p +:+ newline))).
    by_chars.
Qed.

Lemma pdf_text_ends pages :
  newline_closed
    (chars (fold_left (fun text page => text +:+ (page +:+ newline)) pages "")).
Proof.
  induction pages as [|p pages IH] using rev_ind; [now left|].
  right. rewrite fold_left_app. simpl. rewrite ?chars_app.
  eexists. rewrite app_assoc. reflexivity.
Qed.

Lemma pdf_text_around pages1 page pages2 :
  exists P Q,
    fold_left (fun text page => text +:+ (page +:+ newline))
      (pages1 ++ page :: pages2) ""
    = P +:+ page +:+ Q /\
    newline_closed (chars P) /\ newline_opened (chars Q).
Proof.
  exists (fold_left (fun text page => text +:+ (page +:+ newline)) pages1 ""),
         (newline +:+
          fold_left (fun text page => text +:+ (page +:+ newline)) pages2 "").
  split; [|split].
  - rewrite fold_left_app. simpl. rewrite pdf_text. by_chars.
  - apply pdf_text_ends.
  - right. eexists. reflexivity.
Qed.

(** The text [_parse_docx] builds: the paragraphs, a newline between them. *)
Lemma docx_text_around paragraphs1 paragraph paragraphs2 :
  exists P Q,
    join newline (paragraphs1 ++ paragraph :: paragraphs2)
    = P +:+ paragraph +:+ Q /\
    newline_closed (chars P) /\ newline_opened (chars Q).
Proof.
  induction paragraphs1 as [|a l IH].
  - destruct paragraphs2 as [|b l2].
    + exists "", "". split; [|split; now left]. simpl. by_chars.
    + exists "", (newline +:+ join newline (b :: l2)).
      split; [reflexivity | split; [now left | right; eexists; reflexivity]].
  - destruct IH as (P & Q & HJ & HP & HQ).
    exists (a +:+ newline +:+ P), Q. split; [|split; [|exact HQ]].
    + assert (Hj : join newline ((a :: l) ++ paragraph :: paragraphs2)
                   = a +:+ newline
                     +:+ join newline (l ++ paragraph :: paragraphs2)).
      { simpl. destruct (l ++ paragraph :: paragraphs2) eqn:E; [|reflexivity].
        destruct l; discriminate. }
      rewrite Hj, HJ. by_chars.
    + right. rewrite ?chars_app. destruct HP as [-> | [P0 ->]].
      * exists (chars a). now rewrite app_nil_r.
      * exists (chars a ++ chars newline ++ P0).
        now rewrite <- !app_assoc.
Qed.

Section PageSkills.
Variable pdf_pages : list Byte.byte -> outcome (list ustr).
Variable docx_paragraphs : list Byte.byte -> outcome (list ustr).
Variable decode_utf8 : list Byte.byte -> outcome ustr.

(** X19.  Putting the pages of a PDF, or the paragraphs of a DOCX, together
    loses no skill: a skill of the vocabulary found in one page is found in
    the document. *)
Theorem page_skills_are_document_skills :
  forall name data parts part skill,
    In part parts ->
    In skill (skills (_extract_information part)) ->
    (file_extension name = "pdf" -> pdf_pages data = Returned parts ->
       exists facts,
         parse_resume pdf_pages docx_paragraphs decode_utf8 (Upload name data)
           = Some facts /\ In skill (skills facts)) /\
    (file_extension name = "docx" -> docx_paragraphs data = Returned parts ->
       exists facts,
         parse_resume pdf_pages docx_paragraphs decode_utf8 (Upload name data)
           = Some facts /\ In skill (skills facts)).
Proof.
  intros name data parts part skill Hin Hs.
  apply skill_found_iff in Hs as [Hv Ho].
  apply in_split in Hin as (l1 & l2 & ->).
  split; intros He Hr; unfold parse_resume; rewrite He; simpl.
  - eexists. split; [reflexivity|].
    unfold _parse_pdf. rewrite Hr.
    destruct (pdf_text_around l1 part l2) as (P & Q & -> & HP & HQ).
    apply skill_found_iff. split; [exact Hv|].
    now apply occurs_in_context.
  - eexists. split; [reflexivity|].
    unfold _parse_docx. rewrite Hr.
    destruct (docx_text_around l1 part l2) as (P & Q & -> & HP & HQ).
    apply skill_found_iff. split; [exact Hv|].
    now apply occurs_in_context.
Qed.
End PageSkills.

End PageSkillsFacts.

Section PageSkillsExamples.
#[local] Existing Instance plain_python.

Lemma page_skills_are_document_skills_witness :
  exists facts,
    parse_resume (fun _ => Returned ["Ten years of Python"; "SQL and Docker"])
      (no_reader (list ustr)) (no_reader ustr) (Upload "cv.pdf" [])
      = Some facts /\ In "docker" (skills facts).
Proof.
  apply (proj1 (page_skills_are_document_skills
                  (fun _ => Returned ["Ten years of Python"; "SQL and Docker"])
                  (no_reader (list ustr)) (no_reader ustr)
                  "cv.pdf" [] ["Ten years of Python"; "SQL and Docker"]
                  "SQL and Docker" "docker"
                  ltac:(simpl; auto)
                  ltac:(vm_compute; tauto))).
  - reflexivity.
  - reflexivity.
Defined.

End PageSkillsExamples.

(** ** The charts *)

Section ChartsFacts.
Context {py : Python}.

Lemma closes_polygon_items items item rest fig :
  items = item :: rest ->
  Visualizations.r fig = map snd items ++ [snd item] ->
  Visualizations.theta fig = map fst items ++ [fst item] ->
  closes_polygon items fig.
Proof.
  intros -> Hr Ht. unfold closes_polygon. rewrite Hr, Ht.
  split; [reflexivity|]. split; [reflexivity|].
  rewrite !length_app, !length_map. simpl length.
  split; [lia|]. split; [lia|]. split.
  - rewrite nth_error_app2 by (rewrite length_map; simpl; lia).
    rewrite length_map. simpl length. now rewrite Nat.sub_diag.
  - rewrite nth_error_app2 by (rewrite length_map; simpl; lia).
    rewrite length_map. simpl length. now rewrite Nat.sub_diag.
Qed.

(** X20.  Both radar charts raise [IndexError] on the empty dictionary; on any
    other they return a figure that closes its polygon: one point per item
    in the order of the dictionary, then the first item once more, on a
    radial axis from 0 to 100. *)
Theorem radar_charts_close_polygon :
  forall items,
    (items = [] ->
       Visualizations.create_skill_chart items
         = Raised "list index out of range" /\
       Visualizations.create_match_radar items
         = Raised "list index out of range") /\
    (items <> [] ->
       exists chart radar,
         Visualizations.create_skill_chart items = Returned chart /\
         Visualizations.create_match_radar items = Returned radar /\
         closes_polygon items chart /\ closes_polygon items radar /\
         Visualizations.radialaxis_range chart = (0, 100)%Z /\
         Visualizations.radialaxis_range radar = (0, 100)%Z).
Proof.
  intros items. split.
  - intros ->. split; reflexivity.
  - intros Hne. destruct items as [|item rest]; [congruence|].
    eexists. eexists. split; [reflexivity|]. split; [reflexivity|].
    split; [|split; [|split; reflexivity]].
    + now apply (closes_polygon_items _ item rest).
    + now apply (closes_polygon_items _ item rest).
Qed.

End ChartsFacts.

Section ChartsExamples.
#[local] Existing Instance plain_python.

Lemma radar_charts_close_polygon_witness :
  exists chart radar,
    Visualizations.create_skill_chart
      [("technical", JInt 80); ("soft", JInt 65); ("domain", JInt 40)]
      = Returned chart /\
    Visualizations.create_match_radar
      [("technical", JInt 80); ("soft", JInt 65); ("domain", JInt 40)]
      = Returned radar /\
    closes_polygon
      [("technical", JInt 80); ("soft", JInt 65); ("domain", JInt 40)]
      chart /\
    closes_polygon
      [("technical", JInt 80); ("soft", JInt 65); ("domain", JInt 40)]
      radar /\
    Visualizations.radialaxis_range chart = (0, 100)%Z /\
    Visualizations.radialaxis_range radar = (0, 100)%Z.
Proof.
  apply (proj2 (radar_charts_close_polygon
                  [("technical", JInt 80); ("soft", JInt 65);
                   ("domain", JInt 40)])).
  discriminate.
Defined.

End ChartsExamples.
